(** * three-spatial-hash-grid: a shallow embedding of the 2D spatial hash grid

    The development follows [src/types.ts] (the file holds the type
    declarations and the [SpatialHashGrid] class), [src/math.ts],
    [src/ThreeSpatialHashGrid.ts] and the vertex arrays of
    [src/GridHelper.ts].

    Modelling conventions.
    - A JavaScript [number] that carries a world coordinate or an extent is an
      exact rational ([Q]); rounding, NaN and the infinities are outside the
      model.  Cell indices are the integers produced by [Math.floor] ([Z]),
      and so are the grid's dimensions, which are array lengths.  The
      further properties about numbers are stated on the order of results
      and away from boundaries, not on exact values that rounding would
      move.
    - Objects with identity ([Head] nodes, [Client] records, three.js objects)
      live in stores indexed by references; a [new] object gets a reference
      that is not in the store yet, and aliasing is aliasing of references.
    - [null] and [undefined] are only ever tested for truthiness by the code,
      so both are [None].
    - Methods are computations in a state monad with exceptions; a thrown
      exception keeps the store as it was at the [throw].
    - The [while] loop of [findNear] takes fuel; the [for] loops run over the
      list of their indices, except those of [GridHelper], which step by a
      number that need not be positive and take fuel too.
    - [Math.random()] is an input of the functions that call it.

    Organisation: the model of the source, the vocabulary of the
    specification (buckets as lists, the invariant [wf], reachable stores,
    example stores), the lemmas, the claims C1 to C10, and last further
    properties of the code, X1 to X27. *)

From Stdlib Require Import ZArith QArith Qround Qminmax String Lia.
From Stdlib Require Import Lqa.
From stdpp Require Import base option list gmap.

Local Open Scope Z_scope.
#[local] Set Warnings "-clear-no-such-hyp".

(** ** Data model ([src/types.ts]) *)

Definition Vector2 : Type := Q * Q.
Definition Dimensions : Type := Vector2.
Definition Bounds : Type := Vector2 * Vector2.
(** Values returned by [getCellIndex]: both components come out of
    [Math.floor]. *)
Definition CellIndex : Type := Z * Z.

(** Identity of a [Head] object, of a [Client] object, of a three.js object. *)
Definition ref : Type := nat.
Definition cref : Type := nat.
Definition oref : Type := nat.

Module Head.
Record t : Type := mk { next : option ref; prev : option ref; client : cref }.
Definition set_next (v : option ref) (h : t) : t := mk v (prev h) (client h).
Definition set_prev (v : option ref) (h : t) : t := mk (next h) v (client h).
End Head.

(** [Head[][]] *)
Abbreviation Nodes := (list (list ref)).

Module Cells.
Record t : Type :=
  mk { min : option CellIndex; max : option CellIndex; nodes : option Nodes }.
End Cells.

Module Client.
Record t : Type :=
  mk { position : Vector2;
       dimensions : Dimensions;
       cells : Cells.t;
       _queryId : Z;
       metadata : option oref }.
Definition set_position (p : Vector2) (c : t) : t :=
  mk p (dimensions c) (cells c) (_queryId c) (metadata c).
Definition set_cells (cs : Cells.t) (c : t) : t :=
  mk (position c) (dimensions c) cs (_queryId c) (metadata c).
Definition set_queryId (q : Z) (c : t) : t :=
  mk (position c) (dimensions c) (cells c) q (metadata c).
End Client.

(** The fields of the [SpatialHashGrid] class.  [cells] is the outer array
    (one entry per column); a column is a JavaScript array read and written
    at integer keys, where an absent key reads as [undefined]. *)
Module Grid.
Record t : Type :=
  mk { cells : list (gmap Z ref);
       dimensions : Z * Z;
       bounds : Bounds;
       queryIds : Z }.
Definition set_cells (cs : list (gmap Z ref)) (g : t) : t :=
  mk cs (dimensions g) (bounds g) (queryIds g).
Definition set_queryIds (q : Z) (g : t) : t :=
  mk (cells g) (dimensions g) (bounds g) q.
End Grid.

(** The part of the JavaScript heap the grid works on. *)
Record Store : Type :=
  mkStore { grid : Grid.t; heads : gmap ref Head.t; clients : gmap cref Client.t }.

Definition set_grid (g : Grid.t) (s : Store) : Store := mkStore g (heads s) (clients s).
Definition set_heads (h : gmap ref Head.t) (s : Store) : Store := mkStore (grid s) h (clients s).
Definition set_clients (c : gmap cref Client.t) (s : Store) : Store := mkStore (grid s) (heads s) c.

(** ** Exceptions and the state monad *)

Inductive error : Type :=
| Error (msg : string)   (* [throw new Error(msg)] *)
| TypeError              (* property access on [undefined] or [null] *)
| RangeError             (* [Array(n)] with an invalid length *)
| Diverged.              (* a [while] loop that used up its fuel *)

Inductive outcome (S A : Type) : Type :=
| Return (a : A) (s : S)
| Throw (e : error) (s : S).
Arguments Return {S A} a s.
Arguments Throw {S A} e s.

Definition M (S A : Type) : Type := S → outcome S A.

Definition ret {S A} (a : A) : M S A := fun s => Return a s.
Definition throw {S A} (e : error) : M S A := fun s => Throw e s.
Definition bind {S A B} (m : M S A) (k : A → M S B) : M S B :=
  fun s => match m s with
           | Return a s' => k a s'
           | Throw e s' => Throw e s'
           end.
Definition gets {S A} (f : S → A) : M S A := fun s => Return (f s) s.
Definition modify {S} (f : S → S) : M S unit := fun s => Return tt (f s).
(** A partial read: [None] is a property access on [undefined]. *)
Definition getsome {S A} (f : S → option A) : M S A :=
  fun s => match f s with Some a => Return a s | None => Throw TypeError s end.

Notation "x <- m ;; k" := (bind m (fun x => k))
  (at level 100, m at next level, right associativity).
Notation "m ;;; k" := (bind m (fun _ => k))
  (at level 100, right associativity).

(** [for (let x = lo; x <= hi; ++x)] visits [range lo hi]. *)
Definition range (lo hi : Z) : list Z := seqZ lo (hi - lo + 1).

Fixpoint for_each {S A} (xs : list Z) (body : Z → A → M S A) (acc : A) : M S A :=
  match xs with
  | [] => ret acc
  | x :: xs' => acc' <- body x acc ;; for_each xs' body acc'
  end.

(** ** [src/math.ts] *)

Module math.
(** [Math.random()] is an input of the three generators: [r], [r1] .. [r4]
    stand for the values it returns, which lie in [[0, 1)]. *)
Definition rand_range (r : Q) (a b : Q) : Q := (r * (b - a) + a)%Q.
Definition rand_normalish (r1 r2 r3 r4 : Q) : Q :=
  let r := (r1 + r2 + r3 + r4)%Q in
  ((r / 4) * 2 - 1)%Q.
(** [Math.round]: the nearest integer, a tie going up. *)
Definition round (x : Q) : Z := Qfloor (x + (1 # 2))%Q.
Definition rand_int (r : Q) (a b : Q) : Z := round (r * (b - a) + a)%Q.
Definition lerp (x a b : Q) : Q := (x * (b - a) + a)%Q.
Definition smoothstep (x a b : Q) : Q :=
  let x := (x * x * (3 - 2 * x))%Q in
  (x * (b - a) + a)%Q.
Definition smootherstep (x a b : Q) : Q :=
  let x := (x * x * x * (x * (x * 6 - 15) + 10))%Q in
  (x * (b - a) + a)%Q.
Definition clamp (x a b : Q) : Q := Qmin (Qmax x a) b.
Definition sat (x : Q) : Q := Qmin (Qmax x 0) 1.
End math.

(** ** Heap accessors *)

Definition read_head (r : ref) : M Store Head.t := getsome (fun s => heads s !! r).
Definition write_head (r : ref) (f : Head.t → Head.t) : M Store unit :=
  read_head r ;;; modify (fun s => set_heads (alter f r (heads s)) s).
Definition alloc_head (h : Head.t) : M Store ref :=
  fun s => let r := fresh (dom (heads s)) in
           Return r (set_heads (<[r := h]> (heads s)) s).

Definition read_client (c : cref) : M Store Client.t := getsome (fun s => clients s !! c).
Definition write_client (c : cref) (f : Client.t → Client.t) : M Store unit :=
  read_client c ;;; modify (fun s => set_clients (alter f c (clients s)) s).
Definition alloc_client (cl : Client.t) : M Store cref :=
  fun s => let c := fresh (dom (clients s)) in
           Return c (set_clients (<[c := cl]> (clients s)) s).

(** [arr[i]] on an array held as a list; [None] is [undefined]. *)
Definition zlookup {A} (l : list A) (i : Z) : option A :=
  if decide (0 ≤ i) then l !! Z.to_nat i else None.

(** [this.cells[x][y]]: reading [this.cells[x]] out of range gives
    [undefined], and indexing that throws; an absent key of the column reads
    as a falsy value. *)
Definition read_cell (x y : Z) : M Store (option ref) :=
  col <- getsome (fun s => zlookup (Grid.cells (grid s)) x) ;;
  ret (col !! y).

(** [this.cells[x][y] = v] *)
Definition col_set (y : Z) (v : option ref) (col : gmap Z ref) : gmap Z ref :=
  match v with Some r => <[y := r]> col | None => delete y col end.
Definition write_cell (x y : Z) (v : option ref) : M Store unit :=
  col <- getsome (fun s => zlookup (Grid.cells (grid s)) x) ;;
  modify (fun s => set_grid (Grid.set_cells
            (<[Z.to_nat x := col_set y v col]> (Grid.cells (grid s))) (grid s)) s).

(** ** The [SpatialHashGrid] class ([src/types.ts]) *)

Module SpatialHashGrid.

(** [constructor(bounds, dimensions)].  [Array(n)] throws a [RangeError]
    unless [n] is a valid length; [Array(y)] is evaluated once per column,
    so not at all when there is no column.  A column [[null, ..., null]] is
    the map without a head. *)
Definition new (bounds : Bounds) (dimensions : Z * Z) : M Store unit :=
  let '(x, y) := dimensions in
  if decide (0 ≤ x ∧ (x = 0 ∨ 0 ≤ y)) then
    modify (set_grid (Grid.mk (replicate (Z.to_nat x) ∅) dimensions bounds 0))
  else throw RangeError.

(** One axis of [getCellIndex], in the two steps of the source: the
    normalised coordinate [(p - lo) / (hi - lo)], which goes through
    [math.sat], then [Math.floor(cellIndex * (n - 1))]. *)
Definition indexOf (n : Z) (v : Q) : Z :=
  Qfloor (math.sat v * inject_Z (n - 1))%Q.
Definition axisIndex (lo hi : Q) (n : Z) (p : Q) : Z :=
  indexOf n ((p - lo) / (hi - lo))%Q.

(** The module-level scratch variables [cellIndexX] and [cellIndexY] are
    written before they are read on every call, so the function is a pure
    function of the grid's [bounds] and [dimensions]. *)
Definition getCellIndex (g : Grid.t) (position : Vector2) : CellIndex :=
  let b := Grid.bounds g in
  (axisIndex (fst (fst b)) (fst (snd b)) (fst (Grid.dimensions g)) (fst position),
   axisIndex (snd (fst b)) (snd (snd b)) (snd (Grid.dimensions g)) (snd position)).

(** [[x - w / 2, y - h / 2]] and [[x + w / 2, y + h / 2]] *)
Definition lowCorner (p d : Vector2) : Vector2 :=
  (fst p - fst d / 2, snd p - snd d / 2)%Q.
Definition highCorner (p d : Vector2) : Vector2 :=
  (fst p + fst d / 2, snd p + snd d / 2)%Q.

(** [nodes[xi].push(head)] *)
Definition push_at (xi : Z) (r : ref) (nodes : Nodes) : M Store Nodes :=
  row <- getsome (fun _ => zlookup nodes xi) ;;
  ret (<[Z.to_nat xi := row ++ [r]]> nodes).

(** Body of the inner loop of [insert]. *)
Definition insert_cell (client : cref) (i1 : CellIndex) (x y : Z) (nodes : Nodes)
  : M Store Nodes :=
  let xi := x - fst i1 in
  head <- alloc_head (Head.mk None None client) ;;
  nodes' <- push_at xi head nodes ;;
  old <- read_cell x y ;;
  write_head head (Head.set_next old) ;;;
  match old with
  | Some o => write_head o (Head.set_prev (Some head))
  | None => ret tt
  end ;;;
  write_cell x y (Some head) ;;;
  ret nodes'.

(** [insert(client)]: the span is computed from the corners of the client's
    footprint, every cell of the inclusive rectangle gets a new head, and the
    span and the nodes are recorded in the client.  There is no test of the
    client's state. *)
Definition insert (client : cref) : M Store unit :=
  cl <- read_client client ;;
  g <- gets grid ;;
  let i1 := getCellIndex g (lowCorner (Client.position cl) (Client.dimensions cl)) in
  let i2 := getCellIndex g (highCorner (Client.position cl) (Client.dimensions cl)) in
  nodes <- for_each (range (fst i1) (fst i2))
             (fun x nodes =>
                for_each (range (snd i1) (snd i2)) (insert_cell client i1 x) (nodes ++ [[]]))
             [] ;;
  write_client client (Client.set_cells (Cells.mk (Some i1) (Some i2) (Some nodes))).

(** [newClient(position, dimensions, metadata)]; [metadata] is either [{}]
    or, from the three.js layer, [{ object }]. *)
Definition newClient (position : Vector2) (dimensions : Dimensions)
           (metadata : option oref) : M Store cref :=
  client <- alloc_client
              (Client.mk position dimensions (Cells.mk None None None) (-1) metadata) ;;
  insert client ;;;
  ret client.

(** Body of the inner loop of [remove]. *)
Definition remove_cell (i1 : CellIndex) (nodes : Nodes) (x y : Z) : M Store unit :=
  let xi := x - fst i1 in
  let yi := y - snd i1 in
  node <- getsome (fun _ => row ← zlookup nodes xi; zlookup row yi) ;;
  n <- read_head node ;;
  match Head.next n with
  | Some nx => write_head nx (Head.set_prev (Head.prev n))
  | None => ret tt
  end ;;;
  n <- read_head node ;;
  match Head.prev n with
  | Some pv => write_head pv (Head.set_next (Head.next n))
  | None => ret tt
  end ;;;
  n <- read_head node ;;
  match Head.prev n with
  | Some _ => ret tt
  | None => write_cell x y (Head.next n)
  end.

(** [remove(client)].  The first test of the source, [cells === null],
    cannot succeed: [newClient] always allocates the [cells] object. *)
Definition remove (client : cref) : M Store unit :=
  cl <- read_client client ;;
  match Cells.min (Client.cells cl), Cells.max (Client.cells cl) with
  | Some i1, Some i2 =>
      match Cells.nodes (Client.cells cl) with
      | None => throw (Error "Client has no nodes.")
      | Some nodes =>
          for_each (range (fst i1) (fst i2))
            (fun x _ => for_each (range (snd i1) (snd i2))
                          (fun y _ => remove_cell i1 nodes x y) tt) tt ;;;
          write_client client (Client.set_cells (Cells.mk None None None))
      end
  | _, _ => throw (Error "Client has no min or max.")
  end.

(** [updateClient(client)], with the same dead test of [cells === null]
    left out. *)
Definition updateClient (client : cref) : M Store unit :=
  cl <- read_client client ;;
  match Cells.min (Client.cells cl), Cells.max (Client.cells cl) with
  | Some min, Some max =>
      g <- gets grid ;;
      let i1 := getCellIndex g (lowCorner (Client.position cl) (Client.dimensions cl)) in
      let i2 := getCellIndex g (highCorner (Client.position cl) (Client.dimensions cl)) in
      if decide (min = i1 ∧ max = i2) then ret tt
      else (remove client ;;; insert client)
  | _, _ => throw (Error "Client has no min/max cells.")
  end.

(** The [while (head)] loop of [findNear]; [fuel] bounds its iterations. *)
Fixpoint walk (fuel : nat) (queryId : Z) (head : option ref) (found : list cref)
  : M Store (list cref) :=
  match head with
  | None => ret found
  | Some r =>
      match fuel with
      | O => throw Diverged
      | S fuel' =>
          h <- read_head r ;;
          let v := Head.client h in
          cl <- read_client v ;;
          if decide (Client._queryId cl = queryId) then
            walk fuel' queryId (Head.next h) found
          else
            (write_client v (Client.set_queryId queryId) ;;;
             walk fuel' queryId (Head.next h) (found ++ [v]))
      end
  end.

(** [findNear(position, bounds)]; [queryId = this.queryIds++] takes the
    counter's value before the increment. *)
Definition findNear (fuel : nat) (position bounds : Vector2) : M Store (list cref) :=
  g <- gets grid ;;
  let i1 := getCellIndex g (lowCorner position bounds) in
  let i2 := getCellIndex g (highCorner position bounds) in
  let queryId := Grid.queryIds g in
  modify (fun s => set_grid (Grid.set_queryIds (queryId + 1) (grid s)) s) ;;;
  for_each (range (fst i1) (fst i2))
    (fun x found =>
       for_each (range (snd i1) (snd i2))
         (fun y found => head <- read_cell x y ;; walk fuel queryId head found)
         found)
    [].

End SpatialHashGrid.

(** ** The three.js layer ([src/ThreeSpatialHashGrid.ts]) *)

Module THREE.
Record Vector3 : Type := mkVector3 { x : Q; y : Q; z : Q }.
Record Box3 : Type := mkBox3 { min : Vector3; max : Vector3 }.
End THREE.

(** [SpatialObject]: a [THREE.Object3D] with an optional cached
    [_boundingBox].  [geometry] is what three.js tells about the object:
    [None] when it is not a [Mesh], otherwise the content of
    [geometry.boundingBox] after [geometry.computeBoundingBox()]. *)
Module SpatialObject.
Record t : Type :=
  mk { position : THREE.Vector3;
       _boundingBox : option THREE.Box3;
       geometry : option (option THREE.Box3) }.
Definition set_boundingBox (b : option THREE.Box3) (o : t) : t :=
  mk (position o) b (geometry o).
Definition set_position (p : THREE.Vector3) (o : t) : t :=
  mk p (_boundingBox o) (geometry o).
End SpatialObject.

(** The heap seen by a [ThreeSpatialHashGrid]: the store of the base class,
    the [clients] array and the three.js objects.  The [group] field only
    carries the debug [GridHelper] and is left out. *)
Module Three.
Record t : Type :=
  mk { base : Store; clients : list cref; objects : gmap oref SpatialObject.t }.
Definition set_base (b : Store) (s : t) : t := mk b (clients s) (objects s).
Definition set_clients (cs : list cref) (s : t) : t := mk (base s) cs (objects s).
Definition set_objects (os : gmap oref SpatialObject.t) (s : t) : t :=
  mk (base s) (clients s) os.
End Three.

(** A method of the base class called from the subclass. *)
Definition lift {A} (m : M Store A) : M Three.t A :=
  fun s => match m (Three.base s) with
           | Return a b => Return a (Three.set_base b s)
           | Throw e b => Throw e (Three.set_base b s)
           end.

(** [for (let i = ...; i < this.clients.length; i++) body]: the bound is read
    again before every iteration. *)
Fixpoint for_index (fuel : nat) (i : nat) (body : nat → M Three.t unit) : M Three.t unit :=
  fun s =>
    if decide (i < length (Three.clients s))%nat then
      match fuel with
      | O => Throw Diverged s
      | S fuel' => (body i ;;; for_index fuel' (S i) body) s
      end
    else Return tt s.

(** ** The debug grid ([src/GridHelper.ts]) *)

Module GridHelper.

(** [for (let i = lo; i <= hi; i += gridSpacing) vertices.push(...)]: [line i]
    is what one iteration pushes; the loop has no other exit than its
    condition, and [fuel] bounds its iterations. *)
Fixpoint lines (fuel : nat) (i hi gridSpacing : Q) (line : Q → list Q)
  : option (list Q) :=
  if Qle_bool i hi then
    match fuel with
    | O => None
    | S fuel' => app (line i) <$> lines fuel' (i + gridSpacing)%Q hi gridSpacing line
    end
  else Some [].

(** [update(gridSizeX, gridSizeY, gridSpacing)]: the two vertex arrays,
    [horizontalVertices] and [verticalVertices], that the method hands to
    three.js; the geometries, the line objects and the translation of the
    group are three.js state and are left out. *)
Definition update (fuel : nat) (gridSizeX gridSizeY gridSpacing : Q)
  : option (list Q * list Q) :=
  horizontalVertices ←
    lines fuel (- gridSizeY / 2)%Q (gridSizeY / 2)%Q gridSpacing
      (fun i => [(- gridSizeX / 2)%Q; 0%Q; i; (gridSizeX / 2)%Q; 0%Q; i]);
  verticalVertices ←
    lines fuel (- gridSizeX / 2)%Q (gridSizeX / 2)%Q gridSpacing
      (fun i => [i; 0%Q; (- gridSizeY / 2)%Q; i; 0%Q; (gridSizeY / 2)%Q]);
  Some (horizontalVertices, verticalVertices).

End GridHelper.

Module ThreeSpatialHashGrid.

(** [constructor(bounds, dimensions, debug)], without the debug helper. *)
Definition new (bounds : Bounds) (dimensions : Z * Z) : M Three.t unit :=
  lift (SpatialHashGrid.new bounds dimensions) ;;;
  modify (Three.set_clients []).

(** [debug(bounds)]: the vertex arrays of [new GridHelper(x, y)], whose
    constructor calls [update(x, y, 1)]. *)
Definition debug (fuel : nat) (bounds : Bounds) : option (list Q * list Q) :=
  let x := (fst (snd bounds) - fst (fst bounds))%Q in
  let y := (snd (snd bounds) - snd (fst bounds))%Q in
  GridHelper.update fuel x y 1.

Definition calculateBoundingBox (o : SpatialObject.t) : M Three.t THREE.Box3 :=
  match SpatialObject.geometry o with
  | Some (Some boundingBox) => ret boundingBox
  | Some None => throw (Error "Failed to compute bounding box")
  | None => throw (Error "Not implemented")
  end.

(** [add(object)]: the client is filed under [(position.x, position.z)] with
    the x and z extents of the bounding box. *)
Definition add (object : oref) : M Three.t unit :=
  o <- getsome (fun s => Three.objects s !! object) ;;
  let _position := SpatialObject.position o in
  box <- match SpatialObject._boundingBox o with
         | Some b => ret b
         | None =>
             b <- calculateBoundingBox o ;;
             modify (fun s => Three.set_objects
                       (<[object := SpatialObject.set_boundingBox (Some b) o]>
                          (Three.objects s)) s) ;;;
             ret b
         end ;;
  let min := THREE.min box in
  let max := THREE.max box in
  client <- lift (SpatialHashGrid.newClient
                    (THREE.x _position, THREE.z _position)
                    (THREE.x max - THREE.x min, THREE.z max - THREE.z min)%Q
                    (Some object)) ;;
  modify (fun s => Three.set_clients (Three.clients s ++ [client]) s).

Definition getNearbyObjects (fuel : nat) (position : THREE.Vector3) (bounds : Vector2)
  : M Three.t (list cref) :=
  lift (SpatialHashGrid.findNear fuel (THREE.x position, THREE.z position) bounds).

(** Body of the loop of [update]: the source assigns
    [[object.position.x, object.position.y]] to [_client.position], then calls
    [updateClient]. *)
Definition update_client (i : nat) : M Three.t unit :=
  _client <- getsome (fun s => Three.clients s !! i) ;;
  cl <- lift (read_client _client) ;;
  o <- getsome (fun s => object ← Client.metadata cl; Three.objects s !! object) ;;
  lift (write_client _client
          (Client.set_position (THREE.x (SpatialObject.position o),
                                THREE.y (SpatialObject.position o)))) ;;;
  lift (SpatialHashGrid.updateClient _client).

(** The array is not resized by the loop, so it ends within
    [clients.length] iterations. *)
Definition update : M Three.t unit :=
  fun s => for_index (length (Three.clients s)) 0 update_client s.

(** Body of the loop of [dispose]; [splice(i, 1)] deletes index [i]. *)
Definition dispose_client (i : nat) : M Three.t unit :=
  client <- getsome (fun s => Three.clients s !! i) ;;
  lift (SpatialHashGrid.remove client) ;;;
  modify (fun s => Three.set_clients (delete i (Three.clients s)) s).

(** The array only shrinks, so the loop ends within [clients.length]
    iterations. *)
Definition dispose : M Three.t unit :=
  fun s => for_index (length (Three.clients s)) 0 dispose_client s.

End ThreeSpatialHashGrid.

(** ** Reading the store: buckets as lists of nodes *)

(** [dll h p hd l]: following [next] from [hd] visits exactly the nodes [l]
    and ends in [null]; every node's [prev] is its predecessor, [p] for the
    first. *)
Fixpoint dll (h : gmap ref Head.t) (p hd : option ref) (l : list ref) : Prop :=
  match l with
  | [] => hd = None
  | r :: l' =>
      hd = Some r ∧
      ∃ n, h !! r = Some n ∧ Head.prev n = p ∧ dll h (Some r) (Head.next n) l'
  end.

(** What [this.cells[x][y]] evaluates to when it does not throw. *)
Definition cell_head (s : Store) (x y : Z) : option ref :=
  col ← zlookup (Grid.cells (grid s)) x; col !! y.

(** The nodes linked in cell [(x, y)], first to last. *)
Definition bucket (s : Store) (x y : Z) (l : list ref) : Prop :=
  dll (heads s) None (cell_head s x y) l.

(** [nodes[x - i1[0]][y - i1[1]]] *)
Definition node_at (nodes : Nodes) (i1 : CellIndex) (x y : Z) : option ref :=
  row ← zlookup nodes (x - fst i1); zlookup row (y - snd i1).

(** Cell [(x, y)] lies in the inclusive rectangle [i1 .. i2], the cells the
    two nested [for] loops visit. *)
Definition in_rect (i1 i2 : CellIndex) (x y : Z) : Prop :=
  fst i1 ≤ x ≤ fst i2 ∧ snd i1 ≤ y ≤ snd i2.

#[global] Instance in_rect_dec i1 i2 x y : Decision (in_rect i1 i2 x y).
Proof. unfold in_rect. apply _. Defined.

(** Index [i] lies in [[0, cols-1] x [0, rows-1]]. *)
Definition in_grid (g : Grid.t) (i : CellIndex) : Prop :=
  0 ≤ fst i ≤ fst (Grid.dimensions g) - 1 ∧ 0 ≤ snd i ≤ snd (Grid.dimensions g) - 1.

(** The cells of the span that [insert] is about to fill. *)
Definition span_of (g : Grid.t) (cl : Client.t) : CellIndex * CellIndex :=
  (SpatialHashGrid.getCellIndex g
     (SpatialHashGrid.lowCorner (Client.position cl) (Client.dimensions cl)),
   SpatialHashGrid.getCellIndex g
     (SpatialHashGrid.highCorner (Client.position cl) (Client.dimensions cl))).

(** The cell rectangle a query addresses. *)
Definition query_rect (g : Grid.t) (position bounds : Vector2) : CellIndex * CellIndex :=
  (SpatialHashGrid.getCellIndex g (SpatialHashGrid.lowCorner position bounds),
   SpatialHashGrid.getCellIndex g (SpatialHashGrid.highCorner position bounds)).

(** Two cell rectangles share a cell. *)
Definition overlaps (a b : CellIndex * CellIndex) : Prop :=
  ∃ x y, in_rect (fst a) (snd a) x y ∧ in_rect (fst b) (snd b) x y.

(** ** Well-formed stores *)

(** Every cell holds a finite, [null]-terminated list. *)
Definition lists (s : Store) : Prop := ∀ x y, ∃ l, bucket s x y l.

(** No node is linked into two cells. *)
Definition disjoint (s : Store) : Prop :=
  ∀ x y x' y' l l' r,
    bucket s x y l → bucket s x' y' l' → r ∈ l → r ∈ l' → x = x' ∧ y = y'.

(** What the constructor is given and sets up: at least one cell per axis,
    an outer array with one entry per column, bounds with distinct ends (the
    index mapping divides by their difference), a counter that starts at 0. *)
Definition grid_ok (g : Grid.t) : Prop :=
  1 ≤ fst (Grid.dimensions g) ∧ 1 ≤ snd (Grid.dimensions g) ∧
  Z.of_nat (length (Grid.cells g)) = fst (Grid.dimensions g) ∧
  0 ≤ Grid.queryIds g ∧
  ¬ (fst (snd (Grid.bounds g)) == fst (fst (Grid.bounds g)))%Q ∧
  ¬ (snd (snd (Grid.bounds g)) == snd (fst (Grid.bounds g)))%Q.

(** The node [r] found in cell [(x, y)] is the one its client recorded for
    that cell. *)
Definition linked (s : Store) (x y : Z) (r : ref) : Prop :=
  ∃ n cl i1 i2 ns,
    heads s !! r = Some n ∧ clients s !! Head.client n = Some cl ∧
    Client.cells cl = Cells.mk (Some i1) (Some i2) (Some ns) ∧
    in_rect i1 i2 x y ∧ node_at ns i1 x y = Some r.

(** Client [c] is present in every cell of the rectangle [i1 .. i2]. *)
Definition placed (s : Store) (c : cref) (i1 i2 : CellIndex) (ns : Nodes) : Prop :=
  in_grid (grid s) i1 ∧ in_grid (grid s) i2 ∧
  ∀ x y, in_rect i1 i2 x y →
    ∃ r l n, node_at ns i1 x y = Some r ∧ bucket s x y l ∧ r ∈ l ∧
             heads s !! r = Some n ∧ Head.client n = c.

(** A client has either no span, no [max] and no nodes, or all three, and is
    then present in every cell of its span. *)
Definition client_ok (s : Store) (c : cref) (cl : Client.t) : Prop :=
  match Client.cells cl with
  | Cells.mk None None None => True
  | Cells.mk (Some i1) (Some i2) (Some ns) => placed s c i1 i2 ns
  | _ => False
  end.

(** The invariant of the grid.  The constructor establishes it and
    [newClient], [remove], [updateClient] and [findNear] keep it (see
    [reachable_wf]). *)
Record wf (s : Store) : Prop := {
  wf_grid : grid_ok (grid s);
  wf_lists : lists s;
  wf_disjoint : disjoint s;
  wf_linked : ∀ x y l r, bucket s x y l → r ∈ l → linked s x y r;
  wf_clients : ∀ c cl, clients s !! c = Some cl → client_ok s c cl;
  wf_stamps : ∀ c cl, clients s !! c = Some cl →
                      Client._queryId cl < Grid.queryIds (grid s)
}.

(** ** Vocabulary of the loop invariants *)

(** The two pointer updates of [remove] around a node with fields [n]. *)
Definition set_prev_of (o v : option ref) (h : gmap ref Head.t) : gmap ref Head.t :=
  match o with Some a => alter (Head.set_prev v) a h | None => h end.
Definition set_next_of (o v : option ref) (h : gmap ref Head.t) : gmap ref Head.t :=
  match o with Some a => alter (Head.set_next v) a h | None => h end.
Definition unlink (n : Head.t) (h : gmap ref Head.t) : gmap ref Head.t :=
  set_next_of (Head.prev n) (Head.next n) (set_prev_of (Head.next n) (Head.prev n) h).

(** The store after [this.cells[x][y] = v]. *)
Definition put_cell (x y : Z) (v : option ref) (s : Store) : Store :=
  set_grid (Grid.set_cells
    (<[Z.to_nat x := col_set y v (default ∅ (zlookup (Grid.cells (grid s)) x))]>
       (Grid.cells (grid s))) (grid s)) s.

(** What no operation changes in the grid object. *)
Definition grid_frame (g g' : Grid.t) : Prop :=
  Grid.dimensions g' = Grid.dimensions g ∧ Grid.bounds g' = Grid.bounds g ∧
  Grid.queryIds g' = Grid.queryIds g ∧ length (Grid.cells g') = length (Grid.cells g).

(** Nodes never change owner. *)
Definition owners_kept (s s' : Store) : Prop :=
  ∀ r n, heads s !! r = Some n →
         ∃ n', heads s' !! r = Some n' ∧ Head.client n' = Head.client n.

(** Cells of the rectangle [i1 .. i2] visited before the inner loop reaches
    index [j] of row [k]. *)
Definition visited (i1 i2 : CellIndex) (k j : nat) (x y : Z) : Prop :=
  (fst i1 ≤ x < fst i1 + Z.of_nat k ∧ snd i1 ≤ y ≤ snd i2) ∨
  (x = fst i1 + Z.of_nat k ∧ snd i1 ≤ y < snd i1 + Z.of_nat j).

(** The store [t] reached from [s] once the loops of [insert] have visited
    the cells [D] for client [c]; [ns] is the local [nodes]. *)
Definition inserted (s : Store) (c : cref) (i1 : CellIndex) (D : Z → Z → Prop)
           (ns : Nodes) (t : Store) : Prop :=
  grid_frame (grid s) (grid t) ∧ clients t = clients s ∧ owners_kept s t ∧
  lists t ∧ disjoint t ∧
  ∀ x y l, bucket s x y l →
    (D x y → ∃ r n, node_at ns i1 x y = Some r ∧ heads s !! r = None ∧
                    heads t !! r = Some n ∧ Head.client n = c ∧ bucket t x y (r :: l)) ∧
    (¬ D x y → bucket t x y l).

(** The store [insert] returns: the buckets are those of [t], the client
    record carries the new span and nodes. *)
Definition with_span (c : cref) (i1 i2 : CellIndex) (ns : Nodes) (s t : Store) : Store :=
  set_clients (alter (Client.set_cells (Cells.mk (Some i1) (Some i2) (Some ns))) c (clients s)) t.

(** The store [t] reached from [s] once the loops of [remove] have visited
    the cells [D] with the recorded nodes [ns]. *)
Definition removed (s : Store) (i1 : CellIndex) (ns : Nodes) (D : Z → Z → Prop)
           (t : Store) : Prop :=
  grid_frame (grid s) (grid t) ∧ clients t = clients s ∧ owners_kept s t ∧
  (∀ r, heads s !! r = None → heads t !! r = None) ∧
  lists t ∧ disjoint t ∧
  ∀ x y l, bucket s x y l →
    (D x y → ∃ r l1 l2, node_at ns i1 x y = Some r ∧ l = l1 ++ r :: l2 ∧
                        bucket t x y (l1 ++ l2)) ∧
    (¬ D x y → bucket t x y l).

(** The store [remove] returns: the buckets are those of [t], the client
    record has no span. *)
Definition without_span (c : cref) (s t : Store) : Store :=
  set_clients (alter (Client.set_cells (Cells.mk None None None)) c (clients s)) t.

(** The store [t] while query [q] runs on [s]: only stamps have changed, and
    exactly the clients found so far carry the stamp [q]. *)
Definition stamped (s : Store) (q : Z) (found : list cref) (t : Store) : Prop :=
  heads t = heads s ∧ grid t = Grid.set_queryIds (q + 1) (grid s) ∧ NoDup found ∧
  ∀ c, clients t !! c =
       (fun cl => if decide (c ∈ found) then Client.set_queryId q cl else cl)
         <$> clients s !! c.

(** Client [c] owns one of the nodes [l]. *)
Definition owned_in (s : Store) (l : list ref) (c : cref) : Prop :=
  ∃ r n, r ∈ l ∧ heads s !! r = Some n ∧ Head.client n = c.

(** ** Reachable stores *)

(** The stores a program can reach through the constructor and the
    protected methods of the class; the subclass also assigns
    [client.position]. *)
Inductive reachable : Store → Prop :=
| reach_new bounds dimensions s s' :
    1 ≤ fst dimensions → 1 ≤ snd dimensions →
    ¬ (fst (snd bounds) == fst (fst bounds))%Q →
    ¬ (snd (snd bounds) == snd (fst bounds))%Q →
    clients s = ∅ →
    SpatialHashGrid.new bounds dimensions s = Return tt s' → reachable s'
| reach_newClient position dimensions metadata s c s' :
    reachable s →
    SpatialHashGrid.newClient position dimensions metadata s = Return c s' → reachable s'
| reach_remove s c s' :
    reachable s → SpatialHashGrid.remove c s = Return tt s' → reachable s'
| reach_updateClient s c s' :
    reachable s → SpatialHashGrid.updateClient c s = Return tt s' → reachable s'
| reach_findNear fuel position bounds s found s' :
    reachable s → (size (heads s) ≤ fuel)%nat →
    SpatialHashGrid.findNear fuel position bounds s = Return found s' → reachable s'
| reach_position s c position s' :
    reachable s →
    write_client c (Client.set_position position) s = Return tt s' → reachable s'.

(** ** Concrete stores used in the examples *)

(** The value an operation returns, if it returns. *)
Definition returned {S A} (o : outcome S A) : option A :=
  match o with Return a _ => Some a | Throw _ _ => None end.

(** The store an operation leaves behind, whether it returns or throws. *)
Definition exec {S A} (m : M S A) (s : S) : S :=
  match m s with Return _ s' => s' | Throw _ s' => s' end.

Definition empty_store : Store :=
  mkStore (Grid.mk [] (0, 0) ((0, 0), (0, 0))%Q 0) ∅ ∅.

(** The grid of the example application: 16 by 16 cells over
    [[0, 0] .. [16, 16]]. *)
Definition grid16 : Store :=
  exec (SpatialHashGrid.new ((0, 0), (16, 16))%Q (16, 16)) empty_store.

(** ... with client A at (8, 8), extent 1 by 1 ... *)
Definition grid16_A : Store :=
  exec (SpatialHashGrid.newClient (8, 8)%Q (1, 1)%Q None) grid16.

(** ... and client B at (8.4, 8.4), extent 1 by 1. *)
Definition grid16_AB : Store :=
  exec (SpatialHashGrid.newClient (8.4, 8.4)%Q (1, 1)%Q None) grid16_A.

(** [grid16_AB] after client B has moved from (8.4, 8.4) to (8.3, 8.3), where
    it still covers the cells (7, 7) to (8, 8). *)
Definition grid16_AB_moved : Store :=
  exec (write_client 1%nat (Client.set_position (8.3, 8.3)%Q)) grid16_AB.

(** [grid16] with one client of extent 3 by 3 at (8, 8). *)
Definition grid16_wide : Store :=
  exec (SpatialHashGrid.newClient (8, 8)%Q (3, 3)%Q None) grid16.

(** Client A of [grid16_A] after [remove]: it is known to the store and has
    no span. *)
Definition grid16_A_removed : Store := exec (SpatialHashGrid.remove 0%nat) grid16_A.

(** A unit cube mesh, as the example application creates them. *)
Definition cube (position : THREE.Vector3) : SpatialObject.t :=
  SpatialObject.mk position None
    (Some (Some (THREE.mkBox3 (THREE.mkVector3 (-1 # 2) (-1 # 2) (-1 # 2))
                              (THREE.mkVector3 (1 # 2) (1 # 2) (1 # 2))))).

(** Object 0 stands on the ground plane at x = 8, z = 8; object 1 at
    x = 3, z = 12. *)
Definition two_cubes : Three.t :=
  Three.mk empty_store []
    (<[0%nat := cube (THREE.mkVector3 8 0 8)]>
       (<[1%nat := cube (THREE.mkVector3 3 0 12)]> ∅)).

(** The grid of the example with object 0 added, then with object 1 too. *)
Definition scene_one : Three.t :=
  exec (ThreeSpatialHashGrid.new ((0, 0), (16, 16))%Q (16, 16) ;;;
        ThreeSpatialHashGrid.add 0%nat) two_cubes.

Definition scene_two : Three.t :=
  exec (ThreeSpatialHashGrid.add 1%nat) scene_one.

(** What the store records about a client: position, [min], [max]. *)
Definition placement (s : Three.t) (c : cref)
  : option (Vector2 * option CellIndex * option CellIndex) :=
  cl ← clients (Three.base s) !! c;
  Some (Client.position cl, Cells.min (Client.cells cl), Cells.max (Client.cells cl)).

(** ** Vocabulary of the further properties *)

(** Client [c] is inserted with a span that covers cell [(x, y)]. *)
Definition covers (s : Store) (c : cref) (x y : Z) : Prop :=
  ∃ cl i1 i2, clients s !! c = Some cl ∧
              Cells.min (Client.cells cl) = Some i1 ∧
              Cells.max (Client.cells cl) = Some i2 ∧ in_rect i1 i2 x y.

(** The clients of the nodes [l], in the order of [l]. *)
Definition owners (h : gmap ref Head.t) (l : list ref) : list cref :=
  omap (fun r => Head.client <$> h !! r) l.

(** The nodes met by following [next] from [hd], [fuel] of them at most. *)
Fixpoint chain (fuel : nat) (h : gmap ref Head.t) (hd : option ref) : list ref :=
  match fuel, hd with
  | S fuel', Some r =>
      r :: match h !! r with Some n => chain fuel' h (Head.next n) | None => [] end
  | _, _ => []
  end.

(** [found.push(v)] for every [v] of [vs] that [found] does not hold yet. *)
Definition sweep (found vs : list cref) : list cref :=
  foldl (fun acc v => if decide (v ∈ acc) then acc else acc ++ [v]) found vs.

(** The clients met by the loops of [findNear] over the cell rectangle
    [i1 .. i2]: columns in increasing [x], in a column the cells in
    increasing [y], in a cell the nodes from the head on. *)
Definition traversal (s : Store) (i1 i2 : CellIndex) : list cref :=
  x ← range (fst i1) (fst i2);
  y ← range (snd i1) (snd i2);
  owners (heads s) (chain (size (heads s)) (heads s) (cell_head s x y)).

(** The bounds of the grid run from a smaller to a larger coordinate on
    both axes. *)
Definition bounds_ordered (g : Grid.t) : Prop :=
  (fst (fst (Grid.bounds g)) < fst (snd (Grid.bounds g)))%Q ∧
  (snd (fst (Grid.bounds g)) < snd (snd (Grid.bounds g)))%Q.

(** The world rectangles of extent [d] around [p] and of extent [d'] around
    [p'] share a point. *)
Definition footprints_meet (p d p' d' : Vector2) : Prop :=
  (fst (SpatialHashGrid.lowCorner p d) <= fst (SpatialHashGrid.highCorner p' d'))%Q ∧
  (fst (SpatialHashGrid.lowCorner p' d') <= fst (SpatialHashGrid.highCorner p d))%Q ∧
  (snd (SpatialHashGrid.lowCorner p d) <= snd (SpatialHashGrid.highCorner p' d'))%Q ∧
  (snd (SpatialHashGrid.lowCorner p' d') <= snd (SpatialHashGrid.highCorner p d))%Q.

(** The stored span of [cl] is the one its position and dimensions give. *)
Definition coherent (g : Grid.t) (cl : Client.t) : Prop :=
  Cells.min (Client.cells cl) = Some (fst (span_of g cl)) ∧
  Cells.max (Client.cells cl) = Some (snd (span_of g cl)).

(** The bounding box [add] works with: the cached one, else the one of the
    geometry. *)
Definition box_of (o : SpatialObject.t) : option THREE.Box3 :=
  match SpatialObject._boundingBox o with
  | Some b => Some b
  | None => mjoin (SpatialObject.geometry o)
  end.

(** What [add] sets up for every entry of the [clients] array: a client
    record with a span, whose metadata names a three.js object. *)
Definition registered (s : Three.t) (c : cref) : Prop :=
  ∃ cl o obj, clients (Three.base s) !! c = Some cl ∧ Client.metadata cl = Some o ∧
              Three.objects s !! o = Some obj ∧
              is_Some (Cells.min (Client.cells cl)) ∧ is_Some (Cells.max (Client.cells cl)).

(** The scenes that the constructor and [add] build: the base grid is well
    formed and the [clients] array lists distinct registered clients. *)
Definition scene_ok (s : Three.t) : Prop :=
  wf (Three.base s) ∧ NoDup (Three.clients s) ∧
  ∀ c, c ∈ Three.clients s → registered s c.

(** Client [c] agrees with what [update] reads from its object: the
    position is [(object.position.x, object.position.y)] and the stored span
    is the one of that position. *)
Definition synced (s : Three.t) (c : cref) : Prop :=
  ∃ cl o obj, clients (Three.base s) !! c = Some cl ∧ Client.metadata cl = Some o ∧
              Three.objects s !! o = Some obj ∧
              Client.position cl = (THREE.x (SpatialObject.position obj),
                                    THREE.y (SpatialObject.position obj)) ∧
              coherent (grid (Three.base s)) cl.

(** Client [c] is known to the store and has no span. *)
Definition spanless (s : Store) (c : cref) : Prop :=
  ∃ cl, clients s !! c = Some cl ∧ Client.cells cl = Cells.mk None None None.

(** The entries of an array at the even and at the odd indices. *)
Fixpoint evens {A} (l : list A) : list A :=
  match l with
  | [] => []
  | a :: l' => a :: match l' with [] => [] | _ :: l'' => evens l'' end
  end.
Fixpoint odds {A} (l : list A) : list A :=
  match l with
  | [] => []
  | _ :: l' => match l' with [] => [] | b :: l'' => b :: odds l'' end
  end.

(** * Lemmas *)

Section dll_facts.
Implicit Types (h : gmap ref Head.t) (l : list ref) (p hd : option ref).

Lemma dll_agree h h' p hd l :
  (∀ r, r ∈ l → h' !! r = h !! r) → dll h p hd l → dll h' p hd l.
Proof.
  revert p hd. induction l as [|r l IH]; intros p hd Hag; simpl; [done|].
  intros [-> (n & Hn & Hp & Hl)]. split; [done|].
  exists n. split_and!; [|done|].
  - rewrite Hag; [done|]. apply list_elem_of_here.
  - apply IH; [|done]. intros r' Hr'. apply Hag. by apply list_elem_of_further.
Qed.

Lemma dll_functional h p p' hd l l' : dll h p hd l → dll h p' hd l' → l = l'.
Proof.
  revert p p' hd l'. induction l as [|r l IH]; intros p p' hd [|r' l']; simpl.
  - done.
  - intros -> [? _]. done.
  - intros [-> _] ?. done.
  - intros [-> (n & Hn & _ & Hl)] [[= <-] (n' & Hn' & _ & Hl')].
    rewrite Hn in Hn'. injection Hn' as <-. f_equal. eauto.
Qed.

Lemma dll_suffix h p hd l1 l2 :
  dll h p hd (l1 ++ l2) →
  ∃ p' hd', dll h p' hd' l2 ∧ (l1 = [] → p' = p ∧ hd' = hd).
Proof.
  revert p hd. induction l1 as [|a l1 IH]; intros p hd; simpl.
  - intros H. by exists p, hd.
  - intros [-> (n & Hn & Hp & Hl)]. destruct (IH _ _ Hl) as (p' & hd' & H' & _).
    exists p', hd'. split; [done|]. intros [=].
Qed.

Lemma dll_lookup h p hd l r : dll h p hd l → r ∈ l → is_Some (h !! r).
Proof.
  intros Hd Hr. apply list_elem_of_split in Hr as (l1 & l2 & ->).
  apply dll_suffix in Hd as (p' & hd' & Hd & _). simpl in Hd.
  destruct Hd as [_ (n & Hn & _)]. by exists n.
Qed.

Lemma dll_NoDup h p hd l : dll h p hd l → NoDup l.
Proof.
  revert p hd. induction l as [|r l IH]; intros p hd; [constructor|].
  intros Hd. pose proof Hd as [-> (n & Hn & Hp & Hl)]. constructor; [|by eapply IH].
  intros Hr. apply list_elem_of_split in Hr as (l1 & l2 & ->).
  destruct (dll_suffix _ _ _ _ _ Hl) as (p' & hd' & Hs & _).
  pose proof Hs as [-> _].
  pose proof (dll_functional _ _ _ _ _ _ Hd Hs) as Heq.
  apply (f_equal length) in Heq. simpl in Heq. rewrite length_app in Heq.
  simpl in Heq. lia.
Qed.

Lemma dll_head h p hd l : dll h p hd l → hd = head l.
Proof. destruct l; simpl; [done|]. by intros [-> _]. Qed.

(** The fields of a node in the middle of a bucket. *)
Lemma dll_middle h p hd l1 r l2 :
  dll h p hd (l1 ++ r :: l2) →
  ∃ n, h !! r = Some n ∧
       Head.prev n = match last l1 with Some a => Some a | None => p end ∧
       Head.next n = head l2.
Proof.
  revert p hd. induction l1 as [|a l1 IH]; intros p hd; simpl.
  - intros [-> (n & Hn & Hp & Hl)]. exists n. split_and!; [done..|].
    by eapply dll_head.
  - intros [-> (n & Hn & Hp & Hl)]. destruct (IH _ _ Hl) as (m & Hm & Hpm & Hnm).
    exists m. split_and!; [done| |done].
    rewrite Hpm. destruct l1 as [|b l1]; [done|].
    change (last (a :: b :: l1)) with (last (b :: l1)).
    by destruct (last (b :: l1)) eqn:E; [|apply last_None in E].
Qed.
End dll_facts.

Section dll_updates.
Implicit Types (h : gmap ref Head.t) (l : list ref) (p hd : option ref).

Lemma set_prev_of_ne h o v r : o ≠ Some r → set_prev_of o v h !! r = h !! r.
Proof. destruct o as [a|]; simpl; [|done]. intros ?. apply lookup_alter_ne. congruence. Qed.

Lemma set_next_of_ne h o v r : o ≠ Some r → set_next_of o v h !! r = h !! r.
Proof. destruct o as [a|]; simpl; [|done]. intros ?. apply lookup_alter_ne. congruence. Qed.

Lemma unlink_ne h n r :
  Head.prev n ≠ Some r → Head.next n ≠ Some r → unlink n h !! r = h !! r.
Proof. intros ??. unfold unlink. by rewrite set_next_of_ne, set_prev_of_ne. Qed.

Lemma unlink_client h n r m :
  h !! r = Some m → ∃ m', unlink n h !! r = Some m' ∧ Head.client m' = Head.client m.
Proof.
  intros Hr. unfold unlink, set_next_of, set_prev_of.
  destruct (Head.prev n) as [a|], (Head.next n) as [b|];
    rewrite ?lookup_alter; repeat case_decide; subst;
    rewrite ?lookup_alter, ?Hr; repeat case_decide; subst; rewrite ?Hr; simpl; eauto.
Qed.

Lemma unlink_None h n r : h !! r = None → unlink n h !! r = None.
Proof.
  intros Hr. unfold unlink, set_next_of, set_prev_of.
  destruct (Head.prev n) as [a|], (Head.next n) as [b|];
    rewrite ?lookup_alter; repeat case_decide; subst;
    rewrite ?lookup_alter, ?Hr; repeat case_decide; subst; rewrite ?Hr; simpl; eauto.
Qed.

(** Pushing in front of a bucket: the old first node gets a new [prev]. *)
Lemma dll_set_prev h p q hd l : dll h p hd l → dll (set_prev_of hd q h) q hd l.
Proof.
  intros Hd. pose proof (dll_NoDup _ _ _ _ Hd) as Hnd.
  destruct l as [|a l]; simpl in *; [by subst|].
  destruct Hd as [-> (n & Hn & Hp & Hl)]. split; [done|]. simpl.
  exists (Head.set_prev q n). rewrite lookup_alter_eq, Hn. split_and!; [done..|].
  simpl. eapply dll_agree; [|done]. intros r Hr. apply lookup_alter_ne.
  apply NoDup_cons in Hnd as [Ha _]. congruence.
Qed.

(** Unlinking a node from the middle of a bucket. *)
Lemma dll_unlink h p hd l1 r l2 n :
  dll h p hd (l1 ++ r :: l2) → h !! r = Some n →
  (∀ pv, p = Some pv → pv ∉ l1 ++ r :: l2) →
  dll (unlink n h) p (match l1 with [] => Head.next n | _ => hd end) (l1 ++ l2).
Proof.
  revert p hd. induction l1 as [|a l1 IH]; intros p hd Hd Hr Hp.
  - pose proof (dll_NoDup _ _ _ _ Hd) as Hnd. simpl in *.
    destruct Hd as [-> (n' & Hn' & Hpn & Hl)]. rewrite Hr in Hn'. injection Hn' as <-.
    apply NoDup_cons in Hnd as [Hrl2 Hnd2]. subst p.
    unfold unlink. eapply dll_agree; [|eapply dll_set_prev; exact Hl].
    intros r' Hr'. apply set_next_of_ne. intros Hpv.
    apply (Hp r' Hpv). by apply list_elem_of_further.
  - pose proof (dll_NoDup _ _ _ _ Hd) as Hnd.
    pose proof (dll_middle _ _ _ _ _ _ Hd) as (n' & Hn' & Hpn & Hnn).
    rewrite Hr in Hn'. injection Hn' as <-.
    simpl in Hd. destruct Hd as [-> (na & Hna & Hpa & Hl)].
    simpl in Hnd. apply NoDup_cons in Hnd as [Hal Hndl].
    assert (a ≠ r) as Har by (intros ->; apply Hal; set_solver).
    specialize (IH (Some a) (Head.next na) Hl Hr).
    assert (∀ pv, Some a = Some pv → pv ∉ l1 ++ r :: l2) as Hpa' by (by intros ? [= <-]).
    specialize (IH Hpa'). simpl. split; [done|].
    assert (Head.next n ≠ Some a) as Hnxa.
    { rewrite Hnn. intros Hh. apply Hal. destruct l2 as [|b l2]; [done|].
      simpl in Hh. injection Hh as ->. set_solver. }
    destruct l1 as [|b l1].
    + simpl in Hpn. exists (Head.set_next (Head.next n) na).
      unfold unlink at 1. rewrite Hpn. simpl. rewrite lookup_alter_eq.
      rewrite set_prev_of_ne by done. rewrite Hna. split_and!; [done..|].
      simpl. exact IH.
    + exists na. split_and!; [|done|exact IH].
      rewrite unlink_ne; [done| |done].
      rewrite Hpn. change (last (a :: b :: l1)) with (last (b :: l1)).
      destruct (last (b :: l1)) as [c|] eqn:E; [|by apply last_None in E].
      intros [= ->]. apply Hal. apply last_Some_elem_of in E.
      apply elem_of_app. by left.
Qed.
End dll_updates.

(** ** Running the primitives *)

Lemma bind_Return {S A B} (m : M S A) (k : A → M S B) s a s' :
  m s = Return a s' → bind m k s = k a s'.
Proof. unfold bind. by intros ->. Qed.

Lemma zlookup_Some {A} (l : list A) i a :
  zlookup l i = Some a ↔ 0 ≤ i ∧ l !! Z.to_nat i = Some a.
Proof. unfold zlookup. case_decide; naive_solver. Qed.

Lemma zlookup_is_Some {A} (l : list A) i :
  is_Some (zlookup l i) ↔ 0 ≤ i < Z.of_nat (length l).
Proof.
  unfold zlookup. case_decide.
  - rewrite lookup_lt_is_Some. lia.
  - split; [by intros [? ?]|lia].
Qed.

Lemma read_head_run s r n : heads s !! r = Some n → read_head r s = Return n s.
Proof. unfold read_head, getsome. by intros ->. Qed.

Lemma write_head_run s r f n :
  heads s !! r = Some n → write_head r f s = Return tt (set_heads (alter f r (heads s)) s).
Proof. intros H. unfold write_head. by rewrite (bind_Return _ _ _ _ _ (read_head_run _ _ _ H)). Qed.

Lemma read_client_run s c cl : clients s !! c = Some cl → read_client c s = Return cl s.
Proof. unfold read_client, getsome. by intros ->. Qed.

Lemma write_client_run s c f cl :
  clients s !! c = Some cl →
  write_client c f s = Return tt (set_clients (alter f c (clients s)) s).
Proof. intros H. unfold write_client. by rewrite (bind_Return _ _ _ _ _ (read_client_run _ _ _ H)). Qed.

Lemma read_cell_run s x y :
  is_Some (zlookup (Grid.cells (grid s)) x) → read_cell x y s = Return (cell_head s x y) s.
Proof. intros [col H]. unfold read_cell, cell_head, bind, getsome. by rewrite H. Qed.

Lemma write_cell_run s x y v :
  is_Some (zlookup (Grid.cells (grid s)) x) → write_cell x y v s = Return tt (put_cell x y v s).
Proof. intros [col H]. unfold write_cell, put_cell, bind, getsome, modify. by rewrite H. Qed.

Lemma col_set_lookup y v col y' :
  col_set y v col !! y' = if decide (y' = y) then v else col !! y'.
Proof.
  destruct v as [r|]; simpl; case_decide; subst;
    by rewrite ?lookup_insert_eq, ?lookup_insert_ne, ?lookup_delete_eq, ?lookup_delete_ne.
Qed.

Lemma cell_head_put s x y v x' y' :
  is_Some (zlookup (Grid.cells (grid s)) x) →
  cell_head (put_cell x y v s) x' y' =
    if decide (x' = x ∧ y' = y) then v else cell_head s x' y'.
Proof.
  intros Hx. pose proof Hx as [col Hcol]. apply zlookup_is_Some in Hx.
  unfold cell_head, put_cell. simpl. rewrite Hcol. simpl.
  unfold zlookup in *. repeat case_decide; try lia.
  - destruct_and!. subst. rewrite list_lookup_insert_eq by lia. simpl.
    rewrite col_set_lookup. by rewrite decide_True.
  - destruct (decide (x' = x)) as [->|Hne].
    + rewrite list_lookup_insert_eq by lia. simpl. rewrite col_set_lookup.
      rewrite decide_False by naive_solver. by rewrite Hcol.
    + rewrite list_lookup_insert_ne by lia. done.
  - done.
Qed.

(** ** Structure of the buckets *)

Lemma grid_frame_refl g : grid_frame g g.
Proof. by repeat split. Qed.

Lemma grid_frame_trans g1 g2 g3 : grid_frame g1 g2 → grid_frame g2 g3 → grid_frame g1 g3.
Proof. unfold grid_frame. intros (?&?&?&?) (?&?&?&?). split_and!; congruence. Qed.

Lemma owners_kept_refl s : owners_kept s s.
Proof. intros r n ?. by exists n. Qed.

Lemma owners_kept_trans s1 s2 s3 : owners_kept s1 s2 → owners_kept s2 s3 → owners_kept s1 s3.
Proof.
  intros H1 H2 r n Hr. destruct (H1 _ _ Hr) as (n' & Hr' & E1).
  destruct (H2 _ _ Hr') as (n'' & Hr'' & E2). exists n''. split; [done|congruence].
Qed.

Lemma bucket_functional s x y l l' : bucket s x y l → bucket s x y l' → l = l'.
Proof. apply dll_functional. Qed.

Lemma put_cell_frame s x y v : grid_frame (grid s) (grid (put_cell x y v s)).
Proof. unfold grid_frame, put_cell. simpl. split_and!; [done..|]. by rewrite length_insert. Qed.

Lemma cell_head_set_heads h s x y : cell_head (set_heads h s) x y = cell_head s x y.
Proof. done. Qed.

Lemma set_heads_set_heads h h' s : set_heads h (set_heads h' s) = set_heads h s.
Proof. done. Qed.

(** Effect of one iteration of the inner loop of [insert]. *)
Lemma insert_cell_spec s c i1 x y ns row l :
  lists s → disjoint s →
  is_Some (zlookup (Grid.cells (grid s)) x) →
  zlookup ns (x - fst i1) = Some row →
  bucket s x y l →
  ∃ r s',
    SpatialHashGrid.insert_cell c i1 x y ns s
      = Return (<[Z.to_nat (x - fst i1) := row ++ [r]]> ns) s' ∧
    heads s !! r = None ∧
    heads s' !! r = Some (Head.mk (head l) None c) ∧
    bucket s' x y (r :: l) ∧
    (∀ x' y' l', ¬ (x' = x ∧ y' = y) → bucket s x' y' l' → bucket s' x' y' l') ∧
    owners_kept s s' ∧
    clients s' = clients s ∧
    grid_frame (grid s) (grid s').
Proof.
  intros Hlists Hdisj Hx Hrow Hb.
  set (r := fresh (dom (heads s))).
  assert (heads s !! r = None) as Hfresh.
  { apply not_elem_of_dom. apply is_fresh. }
  pose proof (dll_head _ _ _ _ Hb) as Hhd.
  set (h1 := <[r := Head.mk (cell_head s x y) None c]> (heads s)).
  set (h2 := set_prev_of (cell_head s x y) (Some r) h1).
  exists r, (put_cell x y (Some r) (set_heads h2 s)).
  assert (cell_head s x y ≠ Some r) as Hne.
  { intros Heq. unfold bucket in Hb. rewrite Heq in Hb. destruct l as [|a l]; [done|].
    destruct Hb as [[= <-] (n & Hn & _)]. congruence. }
  assert (∀ r', heads s !! r' ≠ None → cell_head s x y ≠ Some r' → h2 !! r' = heads s !! r') as Hh2.
  { intros r' Hr' Hr''. unfold h2. rewrite set_prev_of_ne by done.
    unfold h1. rewrite lookup_insert_ne; [done|]. intros <-. done. }
  split_and!.
  - unfold SpatialHashGrid.insert_cell.
    erewrite bind_Return by reflexivity.
    unfold SpatialHashGrid.push_at at 1.
    erewrite bind_Return.
    2:{ unfold bind, getsome. rewrite Hrow. reflexivity. }
    erewrite bind_Return by (by apply read_cell_run).
    erewrite bind_Return.
    2:{ apply write_head_run with (n := Head.mk None None c). simpl. apply lookup_insert_eq. }
    simpl. rewrite alter_insert_eq. unfold Head.set_next at 1. simpl.
    rewrite !cell_head_set_heads, set_heads_set_heads. fold r. fold h1.
    assert ((match cell_head s x y with
             | Some o => write_head o (Head.set_prev (Some r))
             | None => ret tt
             end) (set_heads h1 s) = Return tt (set_heads h2 s)) as Hstep.
    { assert (∀ o, cell_head s x y = Some o → is_Some (h1 !! o)) as Hold.
      { intros o Eo. rewrite Hhd in Eo. destruct l as [|a l]; [done|].
        simpl in Eo. injection Eo as ->. destruct Hb as [_ (n & Hn & _)].
        exists n. unfold h1. rewrite lookup_insert_ne; [done|congruence]. }
      unfold h2, set_prev_of. clear Hh2 Hne. clearbody h1.
      destruct (cell_head s x y) as [o|] eqn:Eo; [|done].
      destruct (Hold o eq_refl) as [n Hn]. by erewrite write_head_run. }
    erewrite bind_Return by exact Hstep.
    erewrite bind_Return by (by apply write_cell_run). done.
  - done.
  - simpl. unfold h2. rewrite set_prev_of_ne by done. unfold h1.
    by rewrite lookup_insert_eq, Hhd.
  - unfold bucket. rewrite cell_head_put by done. rewrite decide_True by done.
    simpl. split; [done|]. exists (Head.mk (cell_head s x y) None c).
    split_and!; [|done|].
    + unfold h2. rewrite set_prev_of_ne by done. apply lookup_insert_eq.
    + simpl. unfold h2. apply dll_set_prev with (p := None).
      eapply dll_agree; [|exact Hb]. intros r' Hr'. unfold h1.
      apply lookup_insert_ne. intros <-.
      destruct (dll_lookup _ _ _ _ _ Hb Hr') as [? ?]. congruence.
  - intros x' y' l' Hne' Hb'. unfold bucket. rewrite cell_head_put by done.
    rewrite decide_False by done. simpl.
    eapply dll_agree; [|exact Hb']. intros r' Hr'. apply Hh2.
    + destruct (dll_lookup _ _ _ _ _ Hb' Hr') as [? ?]. congruence.
    + intros Heq. rewrite Hhd in Heq. destruct l as [|a l]; [done|].
      simpl in Heq. injection Heq as ->.
      destruct (Hdisj x y x' y' (r' :: l) l' r' Hb Hb') as [-> ->];
        [apply list_elem_of_here|done|]. by apply Hne'.
  - intros r' n Hr'. simpl. unfold h2, set_prev_of.
    destruct (cell_head s x y) as [o|].
    + rewrite lookup_alter. case_decide as E.
      * subst r'. unfold h1. rewrite lookup_insert_ne by congruence.
        rewrite Hr'. simpl. eauto.
      * unfold h1. rewrite lookup_insert_ne by congruence. eauto.
    + unfold h1. rewrite lookup_insert_ne by congruence. eauto.
  - reflexivity.
  - apply (put_cell_frame (set_heads h2 s)).
Qed.

(** A step that rewrites one bucket, using only its own or fresh nodes, keeps
    the structure. *)
Lemma structure_step s s' x y l l' :
  lists s → disjoint s →
  bucket s x y l → bucket s' x y l' →
  (∀ r, r ∈ l' → r ∈ l ∨ heads s !! r = None) →
  (∀ x' y' l', ¬ (x' = x ∧ y' = y) → bucket s x' y' l' → bucket s' x' y' l') →
  lists s' ∧ disjoint s'.
Proof.
  intros Hl Hd Hb Hb' Hsub Hoth.
  assert (∀ x' y' k, ¬ (x' = x ∧ y' = y) → bucket s' x' y' k → bucket s x' y' k) as Hback.
  { intros x' y' k Hne Hk. destruct (Hl x' y') as [k0 Hk0].
    by rewrite (bucket_functional _ _ _ _ _ Hk (Hoth _ _ _ Hne Hk0)). }
  assert (∀ x' y' k r, ¬ (x' = x ∧ y' = y) → bucket s x' y' k → r ∈ k → r ∉ l') as Hsep.
  { intros x' y' k r Hne Hk Hr Hr'. destruct (Hsub _ Hr') as [Hin|Hnone].
    - destruct (Hd _ _ _ _ _ _ _ Hk Hb Hr Hin). by apply Hne.
    - destruct (dll_lookup _ _ _ _ _ Hk Hr) as [? ?]. congruence. }
  split.
  - intros x' y'. destruct (decide (x' = x ∧ y' = y)) as [[-> ->]|Hne]; [by exists l'|].
    destruct (Hl x' y') as [k Hk]. exists k. by apply Hoth.
  - intros x1 y1 x2 y2 k1 k2 r Hk1 Hk2 Hr1 Hr2.
    destruct (decide (x1 = x ∧ y1 = y)) as [[-> ->]|Hne1];
      destruct (decide (x2 = x ∧ y2 = y)) as [[-> ->]|Hne2]; [done|..].
    + rewrite (bucket_functional _ _ _ _ _ Hk1 Hb') in Hr1.
      by destruct (Hsep _ _ _ _ Hne2 (Hback _ _ _ Hne2 Hk2) Hr2).
    + rewrite (bucket_functional _ _ _ _ _ Hk2 Hb') in Hr2.
      by destruct (Hsep _ _ _ _ Hne1 (Hback _ _ _ Hne1 Hk1) Hr1).
    + eapply Hd; eauto.
Qed.

Lemma set_prev_of_is_Some h o v r : is_Some (set_prev_of o v h !! r) ↔ is_Some (h !! r).
Proof.
  destruct o as [a|]; simpl; [|done]. rewrite lookup_alter. case_decide; [|done].
  subst. by rewrite fmap_is_Some.
Qed.

(** Effect of one iteration of the inner loop of [remove]. *)
Lemma remove_cell_spec s i1 ns x y r l1 l2 :
  disjoint s →
  is_Some (zlookup (Grid.cells (grid s)) x) →
  node_at ns i1 x y = Some r →
  bucket s x y (l1 ++ r :: l2) →
  ∃ s',
    SpatialHashGrid.remove_cell i1 ns x y s = Return tt s' ∧
    bucket s' x y (l1 ++ l2) ∧
    (∀ x' y' l', ¬ (x' = x ∧ y' = y) → bucket s x' y' l' → bucket s' x' y' l') ∧
    owners_kept s s' ∧
    (∀ r', heads s !! r' = None → heads s' !! r' = None) ∧
    clients s' = clients s ∧
    grid_frame (grid s) (grid s').
Proof.
  intros Hdisj Hx Hnode Hb.
  pose proof (dll_NoDup _ _ _ _ Hb) as Hnd.
  pose proof (dll_middle _ _ _ _ _ _ Hb) as (n & Hn & Hpn & Hnn).
  assert (Head.next n ≠ Some r) as Hnr.
  { rewrite Hnn. intros Hh. apply head_Some_elem_of in Hh.
    apply NoDup_app in Hnd as (_ & _ & Hnd). apply NoDup_cons in Hnd as [? _]. done. }
  assert (Head.prev n ≠ Some r) as Hpr.
  { rewrite Hpn. destruct (last l1) as [a|] eqn:E; [|done]. intros [= ->].
    apply last_Some_elem_of in E. apply NoDup_app in Hnd as (_ & Hnd & _).
    apply (Hnd r E). apply list_elem_of_here. }
  set (h1 := set_prev_of (Head.next n) (Head.prev n) (heads s)).
  set (h2 := unlink n (heads s)).
  set (s' := match Head.prev n with
             | Some _ => set_heads h2 s
             | None => put_cell x y (Head.next n) (set_heads h2 s)
             end).
  assert (∀ r', r' ∈ l1 ++ r :: l2 → is_Some (heads s !! r')) as Hdom.
  { intros r' Hr'. eapply dll_lookup; eauto. }
  exists s'. split_and!.
  - unfold SpatialHashGrid.remove_cell.
    unfold node_at in Hnode.
    erewrite bind_Return by (unfold getsome; rewrite Hnode; reflexivity).
    erewrite bind_Return by (by apply read_head_run).
    assert ((match Head.next n with
             | Some nx => write_head nx (Head.set_prev (Head.prev n))
             | None => ret tt
             end) s = Return tt (set_heads h1 s)) as Hstep1.
    { unfold h1, set_prev_of. destruct (Head.next n) as [nx|] eqn:E; [|by destruct s].
      destruct (Hdom nx) as [m Hm].
      { symmetry in Hnn. apply head_Some_elem_of in Hnn. set_solver. }
      by erewrite write_head_run. }
    erewrite bind_Return by exact Hstep1.
    assert (h1 !! r = Some n) as Hn1.
    { unfold h1. by rewrite set_prev_of_ne. }
    erewrite bind_Return by (by apply read_head_run).
    assert ((match Head.prev n with
             | Some pv => write_head pv (Head.set_next (Head.next n))
             | None => ret tt
             end) (set_heads h1 s) = Return tt (set_heads h2 s)) as Hstep2.
    { unfold h2, unlink. fold h1. unfold set_next_of.
      destruct (Head.prev n) as [pv|] eqn:E; [|done].
      assert (is_Some (h1 !! pv)) as [m Hm].
      { unfold h1. apply set_prev_of_is_Some. apply Hdom.
        destruct (last l1) as [a|] eqn:E'; [|done]. injection Hpn as ->.
        apply last_Some_elem_of in E'. set_solver. }
      by erewrite write_head_run. }
    erewrite bind_Return by exact Hstep2.
    assert (h2 !! r = Some n) as Hn2.
    { unfold h2. by rewrite unlink_ne. }
    erewrite bind_Return by (by apply read_head_run).
    unfold s'. destruct (Head.prev n); [done|]. by apply write_cell_run.
  - pose proof (dll_unlink _ _ _ _ _ _ _ Hb Hn) as Hu.
    unfold bucket, s'. destruct l1 as [|a l1].
    + simpl in Hpn. rewrite Hpn. rewrite cell_head_put by done.
      rewrite decide_True by done. apply Hu. by intros ?.
    + assert (is_Some (Head.prev n)) as [pv Hpv].
      { rewrite Hpn. destruct (last (a :: l1)) eqn:E; [done|by apply last_None in E]. }
      rewrite Hpv. rewrite cell_head_set_heads. apply Hu. by intros ?.
  - intros x' y' l' Hne Hb'.
    assert (bucket (set_heads h2 s) x' y' l') as Hb2.
    { unfold bucket. rewrite cell_head_set_heads. eapply dll_agree; [|exact Hb'].
      intros r' Hr'. apply unlink_ne.
      - rewrite Hpn. destruct (last l1) as [a|] eqn:E; [|done]. intros [= ->].
        apply last_Some_elem_of in E.
        destruct (Hdisj _ _ _ _ _ _ r' Hb Hb'); [set_solver|done|]. by apply Hne.
      - rewrite Hnn. intros Hh. apply head_Some_elem_of in Hh.
        destruct (Hdisj _ _ _ _ _ _ r' Hb Hb'); [set_solver|done|]. by apply Hne. }
    unfold s'. destruct (Head.prev n); [done|].
    unfold bucket. rewrite cell_head_put by done. by rewrite decide_False.
  - intros r' m Hr'. destruct (unlink_client (heads s) n r' m Hr') as (m' & Hm' & Hc).
    exists m'. split; [|done]. unfold s'. by destruct (Head.prev n).
  - intros r' Hr'. pose proof (unlink_None (heads s) n r' Hr').
    unfold s'. by destruct (Head.prev n).
  - unfold s'. by destruct (Head.prev n).
  - unfold s'. destruct (Head.prev n); [apply grid_frame_refl|].
    apply (put_cell_frame (set_heads h2 s)).
Qed.

(** ** Loops *)

Lemma for_each_inv {S A} (I : nat → A → S → Prop) (xs : list Z)
      (body : Z → A → M S A) acc s :
  I 0%nat acc s →
  (∀ k x a t, xs !! k = Some x → I k a t →
              ∃ a' t', body x a t = Return a' t' ∧ I (Datatypes.S k) a' t') →
  ∃ a' s', for_each xs body acc s = Return a' s' ∧ I (length xs) a' s'.
Proof.
  revert I acc s. induction xs as [|x xs IH]; intros I acc s H0 Hstep; simpl.
  - by exists acc, s.
  - destruct (Hstep 0%nat x acc s eq_refl H0) as (a1 & s1 & Hrun & H1).
    rewrite (bind_Return _ _ _ _ _ Hrun).
    apply (IH (fun k => I (Datatypes.S k))); [done|].
    intros k y a t Hk. by apply (Hstep (Datatypes.S k)).
Qed.

(** Two nested loops; [pre] is what the outer body does to the accumulator
    before it enters the inner loop. *)
Lemma for_each2_inv {S A} (J : nat → A → S → Prop) (I : nat → nat → A → S → Prop)
      (xs ys : list Z) (pre : A → A) (inner : Z → Z → A → M S A) acc s :
  J 0%nat acc s →
  (∀ k x a t, xs !! k = Some x → J k a t → I k 0%nat (pre a) t) →
  (∀ k j x y a t, xs !! k = Some x → ys !! j = Some y → I k j a t →
                  ∃ a' t', inner x y a t = Return a' t' ∧ I k (Datatypes.S j) a' t') →
  (∀ k x a t, xs !! k = Some x → I k (length ys) a t → J (Datatypes.S k) a t) →
  ∃ a' s', for_each xs (fun x a => for_each ys (inner x) (pre a)) acc s = Return a' s' ∧
           J (length xs) a' s'.
Proof.
  intros H0 Hpre Hin Hpost. apply for_each_inv; [done|].
  intros k x a t Hk HJ.
  destruct (for_each_inv (I k) ys (inner x) (pre a) t) as (a' & t' & Hrun & HI).
  - by eapply Hpre.
  - intros j y b u Hj. by apply Hin.
  - exists a', t'. split; [done|]. by eapply Hpost.
Qed.

Lemma range_lookup lo hi k x :
  range lo hi !! k = Some x ↔ x = lo + Z.of_nat k ∧ lo + Z.of_nat k ≤ hi.
Proof. unfold range. rewrite lookup_seqZ. lia. Qed.

Lemma range_length lo hi : length (range lo hi) = Z.to_nat (hi - lo + 1).
Proof. apply length_seqZ. Qed.

Lemma elem_of_range lo hi x : x ∈ range lo hi ↔ lo ≤ x ≤ hi.
Proof. unfold range. rewrite elem_of_seqZ. lia. Qed.

(** ** The index mapping stays inside the grid *)

Lemma sat_bounds x : (0 <= math.sat x)%Q ∧ (math.sat x <= 1)%Q.
Proof.
  unfold math.sat. split.
  - apply Q.min_glb; [apply Q.le_max_r|done].
  - apply Q.le_min_r.
Qed.

Lemma axisIndex_range lo hi n p :
  1 ≤ n → 0 ≤ SpatialHashGrid.axisIndex lo hi n p ≤ n - 1.
Proof.
  intros Hn. unfold SpatialHashGrid.axisIndex, SpatialHashGrid.indexOf.
  destruct (sat_bounds ((p - lo) / (hi - lo))) as [H0 H1].
  set (v := math.sat ((p - lo) / (hi - lo))) in *.
  assert (0 <= inject_Z (n - 1))%Q as Hn0.
  { change 0%Q with (inject_Z 0). rewrite <- Zle_Qle. lia. }
  split.
  - change 0 with (Qfloor 0). apply Qfloor_resp_le. by apply Qmult_le_0_compat.
  - rewrite <- (Qfloor_Z (n - 1)) at 2. apply Qfloor_resp_le.
    rewrite <- (Qmult_1_l (inject_Z (n - 1))) at 2. by apply Qmult_le_compat_r.
Qed.

Lemma getCellIndex_in_grid g p : grid_ok g → in_grid g (SpatialHashGrid.getCellIndex g p).
Proof.
  intros (Hx & Hy & _). unfold in_grid, SpatialHashGrid.getCellIndex. simpl.
  split; by apply axisIndex_range.
Qed.

Lemma in_grid_frame g g' i : grid_frame g g' → in_grid g i → in_grid g' i.
Proof. intros (Hd & _). unfold in_grid. by rewrite Hd. Qed.

Lemma in_grid_column s i1 i2 x y :
  grid_ok (grid s) → in_grid (grid s) i1 → in_grid (grid s) i2 → in_rect i1 i2 x y →
  is_Some (zlookup (Grid.cells (grid s)) x).
Proof.
  intros (_ & _ & Hlen & _) [H1 _] [H2 _] [Hx _]. apply zlookup_is_Some. lia.
Qed.

(** ** [insert] *)

Lemma node_at_Some ns i1 x y r :
  node_at ns i1 x y = Some r ↔
  ∃ row, (0 ≤ x - fst i1 ∧ ns !! Z.to_nat (x - fst i1) = Some row) ∧
         (0 ≤ y - snd i1 ∧ row !! Z.to_nat (y - snd i1) = Some r).
Proof.
  unfold node_at. rewrite bind_Some. by setoid_rewrite zlookup_Some.
Qed.

Lemma node_at_push ns i1 k row r x y r' :
  ns !! k = Some row → node_at ns i1 x y = Some r' →
  node_at (<[k := row ++ [r]]> ns) i1 x y = Some r'.
Proof.
  intros Hk. rewrite !node_at_Some. intros (row' & [Hx Hrow'] & [Hy Hr']).
  destruct (decide (Z.to_nat (x - fst i1) = k)) as [<-|Hne].
  - exists (row ++ [r]). split_and!; [done| |done|].
    + apply list_lookup_insert_eq. by eapply lookup_lt_Some.
    + apply lookup_app_l_Some. congruence.
  - exists row'. split_and!; [done| |done..]. by rewrite list_lookup_insert_ne.
Qed.

Lemma node_at_push_new ns i1 k row r x y :
  ns !! k = Some row → x - fst i1 = Z.of_nat k → y - snd i1 = Z.of_nat (length row) →
  node_at (<[k := row ++ [r]]> ns) i1 x y = Some r.
Proof.
  intros Hk Hx Hy. apply node_at_Some. exists (row ++ [r]). rewrite Hx, Hy, !Nat2Z.id.
  split_and!; [lia| |lia|].
  - apply list_lookup_insert_eq. by eapply lookup_lt_Some.
  - rewrite lookup_app_r by lia. by rewrite Nat.sub_diag.
Qed.

Lemma node_at_snoc ns i1 x y r :
  node_at ns i1 x y = Some r → node_at (ns ++ [[]]) i1 x y = Some r.
Proof.
  rewrite !node_at_Some. intros (row & [Hx Hrow] & Hr). exists row.
  destruct Hr. split_and!; [done| |done..]. by apply lookup_app_l_Some.
Qed.

Section insert_loop.
Variables (s : Store) (c : cref) (i1 i2 : CellIndex).
Hypothesis Hlists : lists s.
Hypothesis Hdisj : disjoint s.
Hypothesis Hcols : ∀ x y, in_rect i1 i2 x y → is_Some (zlookup (Grid.cells (grid s)) x).

Lemma inserted_equiv (D D' : Z → Z → Prop) ns t :
  (∀ x y, D x y ↔ D' x y) → inserted s c i1 D ns t → inserted s c i1 D' ns t.
Proof.
  intros HD (? & ? & ? & ? & ? & Hb). split_and!; [done..|].
  intros x y l Hl. destruct (Hb x y l Hl) as [Hb1 Hb2]. split; intros ?.
  - apply Hb1. by apply HD.
  - apply Hb2. by rewrite HD.
Qed.

Lemma insert_loop_spec :
  ∃ ns t,
    for_each (range (fst i1) (fst i2))
      (fun x nodes =>
         for_each (range (snd i1) (snd i2)) (SpatialHashGrid.insert_cell c i1 x)
                  (nodes ++ [[]])) [] s = Return ns t ∧
    inserted s c i1 (in_rect i1 i2) ns t.
Proof.
  pose (J := fun (k : nat) (ns : Nodes) t => inserted s c i1 (visited i1 i2 k 0) ns t ∧ length ns = k).
  pose (I := fun (k j : nat) (ns : Nodes) t =>
               inserted s c i1 (visited i1 i2 k j) ns t ∧ length ns = Datatypes.S k ∧
               ∃ row, ns !! k = Some row ∧ length row = j).
  destruct (for_each2_inv J I (range (fst i1) (fst i2)) (range (snd i1) (snd i2))
              (fun ns => ns ++ [[]]) (SpatialHashGrid.insert_cell c i1) [] s)
    as (ns & t & Hrun & HJ & _).
  - split; [|done]. unfold inserted.
    split_and!; [apply grid_frame_refl|done|apply owners_kept_refl|done..|].
    intros x y l Hl. split; [|done]. unfold visited. lia.
  - intros k x ns t _ [(Hf & Hc & Ho & Hl & Hd & Hb) Hlen]. split_and!.
    + unfold inserted. split_and!; [done..|]. intros x' y' l Hl'.
      destruct (Hb x' y' l Hl') as [H1 H2]. split; [|done].
      intros HD. destruct (H1 HD) as (r & n & Hn & ?). exists r, n.
      split; [by apply node_at_snoc|done].
    + rewrite length_app. simpl. lia.
    + exists []. split; [|done]. rewrite lookup_app_r by lia.
      by rewrite Hlen, Nat.sub_diag.
  - intros k j x y ns t Hk Hj [(Hf & Hc & Ho & Hl & Hd & Hb) (Hlen & row & Hrow & Hrl)].
    apply range_lookup in Hk as [-> Hkx]. apply range_lookup in Hj as [-> Hjy].
    set (x := fst i1 + Z.of_nat k) in *. set (y := snd i1 + Z.of_nat j) in *.
    destruct (Hlists x y) as [l0 Hl0].
    assert (¬ visited i1 i2 k j x y) as Hnv by (unfold visited, x, y; lia).
    pose proof (proj2 (Hb x y l0 Hl0) Hnv) as Hbt.
    assert (in_rect i1 i2 x y) as Hrect by (unfold in_rect, x, y; lia).
    destruct (insert_cell_spec t c i1 x y ns row l0 Hl Hd) as
      (r & t' & Hrun & Hfresh & Hr & Hb' & Hoth & Ho' & Hc' & Hf'); [| |done|].
    { apply zlookup_is_Some. destruct Hf as (_ & _ & _ & ->).
      apply zlookup_is_Some. eauto. }
    { unfold zlookup. rewrite decide_True by (unfold x; lia).
      replace (Z.to_nat (x - fst i1)) with k by (unfold x; lia). done. }
    replace (Z.to_nat (x - fst i1)) with k in Hrun by (unfold x; lia).
    eexists _, t'. split; [exact Hrun|].
    destruct (structure_step t t' x y l0 (r :: l0)) as [Hl2 Hd2]; [done..| |done|].
    { intros r' [->|Hin]%elem_of_cons; [by right|by left]. }
    split_and!; [|by rewrite length_insert|].
    + unfold inserted.
      split_and!; [by eapply grid_frame_trans|congruence|by eapply owners_kept_trans|done..|].
      intros x' y' l Hl'. destruct (Hb x' y' l Hl') as [H1 H2].
      destruct (decide (x' = x ∧ y' = y)) as [[-> ->]|Hne].
      * split; [|intros Hn; exfalso; apply Hn; unfold visited, x, y; lia].
        intros _. exists r. eexists. split_and!; [| |exact Hr|done|].
        -- apply node_at_push_new; [done|unfold x; lia|unfold y; lia].
        -- destruct (heads s !! r) as [n|] eqn:E; [|done].
           destruct (Ho _ _ E) as (? & ? & _). congruence.
        -- by rewrite (bucket_functional _ _ _ _ _ Hl' Hl0).
      * split.
        -- intros HD. destruct H1 as (r' & n' & Hn' & Hs' & Ht' & Hcl' & Hbk').
           { unfold visited in *. unfold x, y in Hne. lia. }
           destruct (Ho' _ _ Ht') as (n'' & Ht'' & Hcl'').
           exists r', n''. split_and!; [by apply node_at_push|done|done|congruence|].
           by apply Hoth.
        -- intros HD. apply Hoth; [done|]. apply H2. unfold visited in *. lia.
    + exists (row ++ [r]). split.
      * apply list_lookup_insert_eq. by eapply lookup_lt_Some.
      * rewrite length_app. simpl. lia.
  - intros k x ns t Hk [Hins (Hlen & _)]. split; [|done].
    apply range_lookup in Hk as [-> Hkx].
    eapply inserted_equiv; [|exact Hins]. intros x y. unfold visited.
    rewrite range_length. lia.
  - exists ns, t. split; [done|]. eapply inserted_equiv; [|exact HJ].
    intros x y. unfold visited, in_rect. rewrite range_length. lia.
Qed.
End insert_loop.

Lemma grid_ok_frame g g' : grid_frame g g' → grid_ok g → grid_ok g'.
Proof.
  intros (Hd & Hb & Hq & Hl) (? & ? & ? & ? & ? & ?). unfold grid_ok.
  rewrite Hd, Hb, Hl, Hq. done.
Qed.

Lemma bucket_set_clients cs t x y l : bucket (set_clients cs t) x y l ↔ bucket t x y l.
Proof. done. Qed.

Lemma insert_spec s c cl :
  wf s → clients s !! c = Some cl →
  ∃ ns t,
    inserted s c (fst (span_of (grid s) cl))
             (in_rect (fst (span_of (grid s) cl)) (snd (span_of (grid s) cl))) ns t ∧
    SpatialHashGrid.insert c s
      = Return tt (with_span c (fst (span_of (grid s) cl)) (snd (span_of (grid s) cl)) ns s t).
Proof.
  intros Hwf Hc. set (i1 := fst (span_of (grid s) cl)). set (i2 := snd (span_of (grid s) cl)).
  destruct (insert_loop_spec s c i1 i2) as (ns & t & Hrun & Hins);
    [apply Hwf..| |].
  { intros x y Hr. eapply in_grid_column; [apply Hwf| | |exact Hr];
      apply getCellIndex_in_grid; apply Hwf. }
  exists ns, t. split; [done|].
  unfold SpatialHashGrid.insert.
  erewrite bind_Return by (by apply read_client_run).
  erewrite bind_Return by reflexivity.
  fold i1 i2 in Hrun |- *. unfold span_of in i1, i2. simpl in i1, i2.
  erewrite bind_Return by exact Hrun.
  destruct Hins as (_ & Hcl & _).
  erewrite write_client_run by (rewrite Hcl; exact Hc).
  unfold with_span. by rewrite Hcl.
Qed.

Lemma placed_mono s t c i1 i2 ns :
  grid_frame (grid s) (grid t) → owners_kept s t →
  (∀ x y l r n, in_rect i1 i2 x y → bucket s x y l → r ∈ l → heads s !! r = Some n →
                Head.client n = c → ∃ l', bucket t x y l' ∧ r ∈ l') →
  placed s c i1 i2 ns → placed t c i1 i2 ns.
Proof.
  intros Hf Ho Hb (H1 & H2 & Hp). split_and!; [by eapply in_grid_frame..|].
  intros x y Hr. destruct (Hp x y Hr) as (r & l & n & Hn & Hl & Hin & Hh & Hcl).
  destruct (Hb x y l r n Hr Hl Hin Hh Hcl) as (l' & Hl' & Hin').
  destruct (Ho _ _ Hh) as (n' & Hh' & Hcl').
  exists r, l', n'. split_and!; [done..|congruence].
Qed.

Lemma inserted_wf s c cl i1 i2 ns t :
  wf s → clients s !! c = Some cl →
  Client.cells cl = Cells.mk None None None →
  in_grid (grid s) i1 → in_grid (grid s) i2 →
  inserted s c i1 (in_rect i1 i2) ns t →
  wf (with_span c i1 i2 ns s t).
Proof.
  intros Hwf Hc Hnone Hg1 Hg2 (Hf & Hcl & Ho & Hl & Hd & Hb).
  assert (∀ x y l r, bucket s x y l → r ∈ l →
            ∃ n, heads s !! r = Some n ∧ Head.client n ≠ c ∧ linked s x y r) as Hold.
  { intros x y l r Hbk Hr. pose proof (wf_linked s Hwf x y l r Hbk Hr) as Hlk.
    pose proof Hlk as (n & cl' & j1 & j2 & ms & Hn & Hcl' & Hcells & _).
    exists n. split_and!; [done| |done]. intros Heq. rewrite Heq, Hc in Hcl'.
    injection Hcl' as <-. congruence. }
  assert (∀ x y r, linked s x y r → (∀ n, heads s !! r = Some n → Head.client n ≠ c) →
            linked (with_span c i1 i2 ns s t) x y r) as Hkeep.
  { intros x y r (n & cl' & j1 & j2 & ms & Hn & Hcl' & Hcells & Hr & Hat) Hne.
    destruct (Ho _ _ Hn) as (n' & Hn' & En).
    exists n', cl', j1, j2, ms. split_and!; [done| |done..].
    simpl. rewrite En. rewrite lookup_alter_ne; [done|]. intros Heq. by eapply Hne. }
  split.
  - eapply grid_ok_frame; [exact Hf|apply Hwf].
  - done.
  - done.
  - intros x y l r Hbk Hr. apply bucket_set_clients in Hbk.
    destruct (wf_lists s Hwf x y) as [l0 Hl0]. destruct (Hb x y l0 Hl0) as [Hin Hout].
    assert (r ∈ l0 → linked (with_span c i1 i2 ns s t) x y r) as Hcase.
    { intros Hr0. destruct (Hold x y l0 r Hl0 Hr0) as (n & Hn & Hne & Hlk).
      apply Hkeep; [done|]. intros n'. rewrite Hn. by intros [= <-]. }
    destruct (decide (in_rect i1 i2 x y)) as [Hrect|Hrect].
    + destruct (Hin Hrect) as (r0 & n0 & Hat & _ & Hn0 & Hc0 & Hbk0).
      rewrite (bucket_functional _ _ _ _ _ Hbk Hbk0) in Hr.
      apply elem_of_cons in Hr as [->|Hr]; [|by apply Hcase].
      exists n0, (Client.set_cells (Cells.mk (Some i1) (Some i2) (Some ns)) cl), i1, i2, ns.
      split_and!; [done| |done..]. simpl. by rewrite Hc0, lookup_alter_eq, Hc.
    + rewrite (bucket_functional _ _ _ _ _ Hbk (Hout Hrect)) in Hr. by apply Hcase.
  - intros c' cl' Hc'. simpl in Hc'. destruct (decide (c' = c)) as [->|Hne].
    + rewrite lookup_alter_eq, Hc in Hc'. injection Hc' as <-.
      unfold client_ok. simpl. split_and!; [by eapply in_grid_frame..|].
      intros x y Hrect. destruct (wf_lists s Hwf x y) as [l0 Hl0].
      destruct (proj1 (Hb x y l0 Hl0) Hrect) as (r0 & n0 & Hat & _ & Hn0 & Hc0 & Hbk0).
      exists r0, (r0 :: l0), n0.
      split_and!; [done|exact Hbk0|apply list_elem_of_here|done|done].
    + rewrite lookup_alter_ne in Hc' by done.
      pose proof (wf_clients s Hwf c' cl' Hc') as Hok. unfold client_ok in *.
      destruct (Client.cells cl') as [[j1|] [j2|] [ms|]]; try done.
      eapply (placed_mono s); [done..| |done].
      intros x y l r n _ Hbk Hr _ _. destruct (Hb x y l Hbk) as [Hin Hout].
      destruct (decide (in_rect i1 i2 x y)) as [Hrect|Hrect].
      * destruct (Hin Hrect) as (r0 & n0 & _ & _ & _ & _ & Hbk0).
        exists (r0 :: l). split; [done|]. by apply list_elem_of_further.
      * exists l. split; [by apply Hout|done].
  - intros c' cl' Hc'. simpl in Hc'. destruct Hf as (_ & _ & Hq & _).
    unfold with_span. simpl. rewrite Hq.
    destruct (decide (c' = c)) as [->|Hne].
    + rewrite lookup_alter_eq, Hc in Hc'. injection Hc' as <-. simpl.
      by apply (wf_stamps s Hwf c cl).
    + rewrite lookup_alter_ne in Hc' by done. by apply (wf_stamps s Hwf c' cl').
Qed.

(** ** [remove] *)

Section remove_loop.
Variables (s : Store) (i1 i2 : CellIndex) (ns : Nodes).
Hypothesis Hlists : lists s.
Hypothesis Hdisj : disjoint s.
Hypothesis Hcols : ∀ x y, in_rect i1 i2 x y → is_Some (zlookup (Grid.cells (grid s)) x).
Hypothesis Hplaced : ∀ x y, in_rect i1 i2 x y →
  ∃ r l, node_at ns i1 x y = Some r ∧ bucket s x y l ∧ r ∈ l.

Lemma removed_equiv (D D' : Z → Z → Prop) t :
  (∀ x y, D x y ↔ D' x y) → removed s i1 ns D t → removed s i1 ns D' t.
Proof.
  intros HD (? & ? & ? & ? & ? & ? & Hb). unfold removed. split_and!; [done..|].
  intros x y l Hl. destruct (Hb x y l Hl) as [Hb1 Hb2]. split; intros ?.
  - apply Hb1. by apply HD.
  - apply Hb2. by rewrite HD.
Qed.

Lemma remove_loop_spec :
  ∃ t,
    for_each (range (fst i1) (fst i2))
      (fun x _ => for_each (range (snd i1) (snd i2))
                    (fun y _ => SpatialHashGrid.remove_cell i1 ns x y) tt) tt s
      = Return tt t ∧
    removed s i1 ns (in_rect i1 i2) t.
Proof.
  pose (J := fun (k : nat) (_ : unit) t => removed s i1 ns (visited i1 i2 k 0) t).
  pose (I := fun (k j : nat) (_ : unit) t => removed s i1 ns (visited i1 i2 k j) t).
  destruct (for_each2_inv J I (range (fst i1) (fst i2)) (range (snd i1) (snd i2))
              (fun _ => tt) (fun x y _ => SpatialHashGrid.remove_cell i1 ns x y) tt s)
    as ([] & t & Hrun & HJ).
  - unfold J, removed.
    split_and!; [apply grid_frame_refl|done|apply owners_kept_refl|done..|].
    intros x y l Hl. split; [|done]. unfold visited. lia.
  - done.
  - intros k j x y [] t Hk Hj (Hf & Hc & Ho & Hn & Hl & Hd & Hb).
    apply range_lookup in Hk as [-> Hkx]. apply range_lookup in Hj as [-> Hjy].
    set (x := fst i1 + Z.of_nat k) in *. set (y := snd i1 + Z.of_nat j) in *.
    assert (¬ visited i1 i2 k j x y) as Hnv by (unfold visited, x, y; lia).
    assert (in_rect i1 i2 x y) as Hrect by (unfold in_rect, x, y; lia).
    destruct (Hplaced x y Hrect) as (r & l0 & Hat & Hl0 & Hr).
    apply list_elem_of_split in Hr as (l1 & l2 & ->).
    pose proof (proj2 (Hb x y _ Hl0) Hnv) as Hbt.
    destruct (remove_cell_spec t i1 ns x y r l1 l2 Hd) as
      (t' & Hrun & Hb' & Hoth & Ho' & Hn' & Hc' & Hf'); [|done..|].
    { apply zlookup_is_Some. destruct Hf as (_ & _ & _ & ->).
      apply zlookup_is_Some. eauto. }
    exists tt, t'. split; [exact Hrun|].
    destruct (structure_step t t' x y (l1 ++ r :: l2) (l1 ++ l2)) as [Hl2 Hd2]; [done..| |done|].
    { intros r'. rewrite !elem_of_app, elem_of_cons. naive_solver. }
    unfold I, removed.
    split_and!; [by eapply grid_frame_trans|congruence|by eapply owners_kept_trans|
                 by eauto|done..|].
    intros x' y' l Hl'. destruct (Hb x' y' l Hl') as [H1 H2].
    destruct (decide (x' = x ∧ y' = y)) as [[-> ->]|Hne].
    + split; [|intros Hv; exfalso; apply Hv; unfold visited, x, y; lia].
      intros _. exists r, l1, l2. split_and!; [done| |done].
      by apply (bucket_functional s x y).
    + split.
      * intros HD. destruct H1 as (r' & k1 & k2 & Hat' & -> & Hbk').
        { unfold visited in *. unfold x, y in Hne. lia. }
        exists r', k1, k2. split_and!; [done..|]. by apply Hoth.
      * intros HD. apply Hoth; [done|]. apply H2. unfold visited in *. lia.
  - intros k x [] t Hk Hrem. apply range_lookup in Hk as [-> Hkx].
    eapply removed_equiv; [|exact Hrem]. intros x y. unfold visited.
    rewrite range_length. lia.
  - exists t. split; [done|]. eapply removed_equiv; [|exact HJ].
    intros x y. unfold visited, in_rect. rewrite range_length. lia.
Qed.
End remove_loop.

Lemma remove_spec s c cl i1 i2 ns :
  wf s → clients s !! c = Some cl →
  Client.cells cl = Cells.mk (Some i1) (Some i2) (Some ns) →
  ∃ t, removed s i1 ns (in_rect i1 i2) t ∧
       SpatialHashGrid.remove c s = Return tt (without_span c s t).
Proof.
  intros Hwf Hc Hcells.
  pose proof (wf_clients s Hwf c cl Hc) as Hok. unfold client_ok in Hok.
  rewrite Hcells in Hok. destruct Hok as (Hg1 & Hg2 & Hp).
  destruct (remove_loop_spec s i1 i2 ns) as (t & Hrun & Hrem); [apply Hwf..| | |].
  { intros x y Hr. eapply in_grid_column; [apply Hwf|exact Hg1|exact Hg2|exact Hr]. }
  { intros x y Hr. destruct (Hp x y Hr) as (r & l & n & ? & ? & ? & _). by exists r, l. }
  exists t. split; [done|].
  unfold SpatialHashGrid.remove.
  erewrite bind_Return by (by apply read_client_run).
  rewrite Hcells. simpl.
  erewrite bind_Return by exact Hrun.
  destruct Hrem as (_ & Hcl & _).
  erewrite write_client_run by (rewrite Hcl; exact Hc).
  unfold without_span. by rewrite Hcl.
Qed.

Lemma removed_wf s c cl i1 i2 ns t :
  wf s → clients s !! c = Some cl →
  Client.cells cl = Cells.mk (Some i1) (Some i2) (Some ns) →
  removed s i1 ns (in_rect i1 i2) t →
  wf (without_span c s t).
Proof.
  intros Hwf Hc Hcells (Hf & Hcl & Ho & Hnone & Hl & Hd & Hb).
  pose proof (wf_clients s Hwf c cl Hc) as Hok. unfold client_ok in Hok.
  rewrite Hcells in Hok. destruct Hok as (Hg1 & Hg2 & Hp).
  (* a node kept in a bucket is not one of [c]'s *)
  assert (∀ x y l l' r, bucket s x y l → bucket t x y l' → r ∈ l' →
            r ∈ l ∧ ∃ n, heads s !! r = Some n ∧ Head.client n ≠ c ∧ linked s x y r) as Hold.
  { intros x y l l' r Hbk Hbk' Hr. destruct (Hb x y l Hbk) as [Hin Hout].
    assert (r ∈ l ∧ (in_rect i1 i2 x y → node_at ns i1 x y ≠ Some r)) as [Hrl Hnot].
    { destruct (decide (in_rect i1 i2 x y)) as [Hrect|Hrect].
      - destruct (Hin Hrect) as (r0 & l1 & l2 & Hat & -> & Hbk0).
        rewrite (bucket_functional _ _ _ _ _ Hbk' Hbk0) in Hr.
        pose proof (dll_NoDup _ _ _ _ Hbk) as Hnd.
        split; [set_solver|]. intros _. rewrite Hat. intros [= ->].
        apply NoDup_app in Hnd as (_ & Hnd1 & Hnd2). apply NoDup_cons in Hnd2 as [Hnd2 _].
        apply elem_of_app in Hr as [Hr|Hr]; [|done]. apply (Hnd1 _ Hr). apply list_elem_of_here.
      - rewrite (bucket_functional _ _ _ _ _ Hbk' (Hout Hrect)) in Hr. done. }
    split; [done|].
    pose proof (wf_linked s Hwf x y l r Hbk Hrl) as Hlk.
    pose proof Hlk as (n & cl' & j1 & j2 & ms & Hn & Hcl' & Hcells' & Hrect' & Hat').
    exists n. split_and!; [done| |done]. intros Heq. rewrite Heq, Hc in Hcl'.
    injection Hcl' as <-. rewrite Hcells in Hcells'. injection Hcells' as <- <- <-.
    by apply Hnot. }
  split.
  - eapply grid_ok_frame; [exact Hf|apply Hwf].
  - done.
  - done.
  - intros x y l' r Hbk' Hr. apply bucket_set_clients in Hbk'.
    destruct (wf_lists s Hwf x y) as [l Hbk].
    destruct (Hold x y l l' r Hbk Hbk' Hr) as (_ & n & Hn & Hne & Hlk).
    destruct Hlk as (n0 & cl' & j1 & j2 & ms & Hn0 & Hcl' & Hcells' & Hrect' & Hat').
    rewrite Hn in Hn0. injection Hn0 as <-.
    destruct (Ho _ _ Hn) as (n' & Hn' & En).
    exists n', cl', j1, j2, ms. split_and!; [done| |done..].
    simpl. rewrite En. by rewrite lookup_alter_ne.
  - intros c' cl' Hc'. simpl in Hc'. destruct (decide (c' = c)) as [->|Hne].
    + rewrite lookup_alter_eq, Hc in Hc'. by injection Hc' as <-.
    + rewrite lookup_alter_ne in Hc' by done.
      pose proof (wf_clients s Hwf c' cl' Hc') as Hok. unfold client_ok in *.
      destruct (Client.cells cl') as [[j1|] [j2|] [ms|]]; try done.
      eapply (placed_mono s); [done..| |done].
      intros x y l r n _ Hbk Hr Hn Hcn. destruct (Hb x y l Hbk) as [Hin Hout].
      destruct (decide (in_rect i1 i2 x y)) as [Hrect|Hrect].
      * destruct (Hin Hrect) as (r0 & l1 & l2 & Hat & -> & Hbk0).
        exists (l1 ++ l2). split; [done|].
        destruct (Hp x y Hrect) as (r1 & l0 & n1 & Hat1 & _ & _ & Hn1 & Hcn1).
        rewrite Hat in Hat1. injection Hat1 as <-.
        assert (r ≠ r0) by (intros ->; congruence). set_solver.
      * exists l. split; [by apply Hout|done].
  - intros c' cl' Hc'. simpl in Hc'. destruct Hf as (_ & _ & Hq & _).
    unfold without_span. simpl. rewrite Hq.
    destruct (decide (c' = c)) as [->|Hne].
    + rewrite lookup_alter_eq, Hc in Hc'. injection Hc' as <-. simpl.
      by apply (wf_stamps s Hwf c cl).
    + rewrite lookup_alter_ne in Hc' by done. by apply (wf_stamps s Hwf c' cl').
Qed.

(** ** [findNear] *)

Lemma bucket_length_le_size h p hd l : dll h p hd l → (length l ≤ size h)%nat.
Proof.
  intros Hd. rewrite <- size_dom. unfold size, set_size. simpl.
  apply submseteq_length, NoDup_submseteq; [by eapply dll_NoDup|].
  intros r Hr. apply elem_of_elements, elem_of_dom. by eapply dll_lookup.
Qed.

Section findNear_proof.
Variables (s : Store) (q : Z).
Hypothesis Hfresh_id : ∀ c cl, clients s !! c = Some cl → Client._queryId cl ≠ q.

Lemma walk_spec l : ∀ fuel p hd found t,
  dll (heads s) p hd l →
  (∀ r n, r ∈ l → heads s !! r = Some n → is_Some (clients s !! Head.client n)) →
  (length l ≤ fuel)%nat →
  stamped s q found t →
  ∃ found' t',
    SpatialHashGrid.walk fuel q hd found t = Return found' t' ∧
    stamped s q found' t' ∧
    ∀ c, c ∈ found' ↔ c ∈ found ∨ owned_in s l c.
Proof.
  induction l as [|r l IH]; intros fuel p hd found t Hd Hown Hfuel Hst.
  - simpl in Hd. subst hd. exists found, t. destruct fuel; simpl.
    all: split_and!; [done..|]; intros c; split; [by left|].
    all: intros [?|(r & n & Hr & _)]; [done|by apply elem_of_nil in Hr].
  - simpl in Hd. destruct Hd as [-> (n & Hn & Hp & Hd)].
    destruct fuel as [|fuel]; [simpl in Hfuel; lia|]. simpl in Hfuel.
    destruct Hst as (Hh & Hg & Hnd & Hcl).
    destruct (Hown r n) as [cl Hcl0]; [apply list_elem_of_here|done|].
    set (v := Head.client n) in *.
    assert (∀ c, owned_in s (r :: l) c ↔ c = v ∨ owned_in s l c) as Hcons.
    { intros c. unfold owned_in. split.
      - intros (r' & n' & [->|Hr']%elem_of_cons & Hn' & Hc).
        + left. rewrite Hn in Hn'. by injection Hn' as <-.
        + right. by exists r', n'.
      - intros [->|(r' & n' & Hr' & Hn' & Hc)].
        + exists r, n. split_and!; [apply list_elem_of_here|done..].
        + exists r', n'. split_and!; [by apply list_elem_of_further|done..]. }
    simpl.
    erewrite bind_Return by (apply read_head_run; rewrite Hh; exact Hn).
    fold v. pose proof (Hcl v) as Hv. rewrite Hcl0 in Hv. simpl in Hv.
    erewrite bind_Return by (apply read_client_run; exact Hv).
    destruct (decide (v ∈ found)) as [Hin|Hnin].
    + rewrite decide_True by done.
      destruct (IH fuel (Some r) (Head.next n) found t) as (found' & t' & Hrun & Hst' & Hmem);
        [done| |lia|done|].
      { intros r' n' Hr'. apply Hown. by apply list_elem_of_further. }
      exists found', t'. split_and!; [done..|]. intros c. rewrite Hmem, Hcons.
      split; [tauto|]. intros [?|[->|?]]; tauto.
    + rewrite decide_False by (by eapply Hfresh_id).
      erewrite bind_Return by (eapply write_client_run; exact Hv).
      set (t1 := set_clients (alter (Client.set_queryId q) v (clients t)) t).
      destruct (IH fuel (Some r) (Head.next n) (found ++ [v]) t1)
        as (found' & t' & Hrun & Hst' & Hmem); [done| |lia| |].
      { intros r' n' Hr'. apply Hown. by apply list_elem_of_further. }
      { unfold stamped. split_and!; [done..| |].
        - apply NoDup_app. split_and!; [done| |apply NoDup_singleton].
          intros c Hc [->|[]%elem_of_nil]%elem_of_cons. done.
        - intros c. simpl. destruct (decide (c = v)) as [->|Hne].
          + rewrite lookup_alter_eq, Hv, Hcl0. simpl.
            rewrite decide_True; [done|]. apply elem_of_app. right. apply list_elem_of_here.
          + rewrite lookup_alter_ne by done. rewrite Hcl.
            destruct (clients s !! c) as [cl'|]; [|done]. simpl.
            destruct (decide (c ∈ found)) as [Hc|Hc].
            * rewrite decide_True; [done|]. apply elem_of_app. by left.
            * rewrite decide_False; [done|]. rewrite elem_of_app, list_elem_of_singleton.
              tauto. }
      exists found', t'. split_and!; [done..|]. intros c.
      rewrite Hmem, Hcons, elem_of_app, list_elem_of_singleton. tauto.
Qed.
End findNear_proof.

Lemma cell_head_grid s t x y :
  Grid.cells (grid t) = Grid.cells (grid s) → cell_head t x y = cell_head s x y.
Proof. unfold cell_head. by intros ->. Qed.

Lemma findNear_spec s position bounds fuel :
  wf s → (size (heads s) ≤ fuel)%nat →
  ∃ found t,
    SpatialHashGrid.findNear fuel position bounds s = Return found t ∧
    stamped s (Grid.queryIds (grid s)) found t ∧
    ∀ c, c ∈ found ↔
         ∃ x y l, in_rect (fst (query_rect (grid s) position bounds))
                          (snd (query_rect (grid s) position bounds)) x y ∧
                  bucket s x y l ∧ owned_in s l c.
Proof.
  intros Hwf Hfuel.
  set (q := Grid.queryIds (grid s)).
  set (i1 := fst (query_rect (grid s) position bounds)).
  set (i2 := snd (query_rect (grid s) position bounds)).
  set (s1 := set_grid (Grid.set_queryIds (q + 1) (grid s)) s).
  assert (∀ c cl, clients s !! c = Some cl → Client._queryId cl ≠ q) as Hid.
  { intros c cl Hc. pose proof (wf_stamps s Hwf c cl Hc). unfold q. lia. }
  pose (I := fun (k j : nat) (found : list cref) t =>
               stamped s q found t ∧
               ∀ c, c ∈ found ↔
                    ∃ x y l, visited i1 i2 k j x y ∧ bucket s x y l ∧ owned_in s l c).
  destruct (for_each2_inv (fun k => I k 0%nat) I (range (fst i1) (fst i2))
              (range (snd i1) (snd i2)) (fun a => a)
              (fun x y found => head <- read_cell x y ;;
                                SpatialHashGrid.walk fuel q head found) [] s1)
    as (found & t & Hrun & Hst & Hmem).
  - split.
    + unfold stamped. split_and!; [done..|apply NoDup_nil_2|].
      intros c. simpl. by destruct (clients s !! c).
    + intros c. split; [by intros ?%elem_of_nil|].
      intros (x & y & l & Hv & _). unfold visited in Hv. lia.
  - done.
  - intros k j x y found t Hk Hj [Hst Hmem].
    apply range_lookup in Hk as [-> Hkx]. apply range_lookup in Hj as [-> Hjy].
    set (x := fst i1 + Z.of_nat k) in *. set (y := snd i1 + Z.of_nat j) in *.
    assert (in_rect i1 i2 x y) as Hrect by (unfold in_rect, x, y; lia).
    pose proof Hst as (Hh & Hg & _).
    assert (Grid.cells (grid t) = Grid.cells (grid s)) as Hcells by (by rewrite Hg).
    erewrite bind_Return.
    2:{ apply read_cell_run. rewrite Hcells.
        eapply in_grid_column; [apply Hwf| | |exact Hrect];
          apply getCellIndex_in_grid; apply Hwf. }
    rewrite (cell_head_grid s t) by done.
    destruct (wf_lists s Hwf x y) as [l0 Hl0].
    destruct (walk_spec s q Hid l0 fuel None (cell_head s x y) found t)
      as (found' & t' & Hrun & Hst' & Hmem'); [done| | |done|].
    { intros r n Hr Hn.
      destruct (wf_linked s Hwf x y l0 r Hl0 Hr) as (n' & cl & ? & ? & ? & Hn' & Hcl & _).
      rewrite Hn in Hn'. injection Hn' as <-. by exists cl. }
    { pose proof (bucket_length_le_size _ _ _ _ Hl0). lia. }
    exists found', t'. split; [done|]. split; [done|]. intros c.
    rewrite Hmem', Hmem. split.
    + intros [(x' & y' & l & Hv & Hb & Ho)|Ho].
      * exists x', y', l. split; [|done]. unfold visited in *. lia.
      * exists x, y, l0. split; [|done]. unfold visited, x, y. lia.
    + intros (x' & y' & l & Hv & Hb & Ho).
      destruct (decide (x' = x ∧ y' = y)) as [[-> ->]|Hne].
      * right. by rewrite (bucket_functional _ _ _ _ _ Hl0 Hb).
      * left. exists x', y', l. split; [|done]. unfold visited in *. unfold x, y in Hne. lia.
  - intros k x found t Hk [Hst Hmem]. apply range_lookup in Hk as [-> Hkx].
    split; [done|]. intros c. rewrite Hmem.
    split; intros (x' & y' & l & Hv & ?); exists x', y', l; (split; [|done]);
      unfold visited in *; rewrite range_length in *; lia.
  - exists found, t. split; [exact Hrun|]. split; [done|].
    intros c. rewrite Hmem.
    split; intros (x' & y' & l & Hv & ?); exists x', y', l; (split; [|done]);
      unfold visited, in_rect in *; rewrite range_length in *; lia.
Qed.

Lemma findNear_wf s found t :
  wf s → stamped s (Grid.queryIds (grid s)) found t → wf t.
Proof.
  intros Hwf (Hh & Hg & _ & Hcl).
  assert (∀ x y l, bucket t x y l ↔ bucket s x y l) as Hb.
  { intros x y l. unfold bucket. rewrite Hh, (cell_head_grid s t); [done|]. by rewrite Hg. }
  assert (∀ c cl, clients s !! c = Some cl →
            ∃ cl', clients t !! c = Some cl' ∧ Client.cells cl' = Client.cells cl) as Hfw.
  { intros c cl Hc. rewrite Hcl, Hc. simpl. eexists; split; [done|]. by case_decide. }
  assert (∀ c cl', clients t !! c = Some cl' →
            ∃ cl, clients s !! c = Some cl ∧ Client.cells cl' = Client.cells cl ∧
                  Client._queryId cl' ≤ Z.max (Client._queryId cl) (Grid.queryIds (grid s)))
    as Hbw.
  { intros c cl' Hc. rewrite Hcl in Hc. destruct (clients s !! c) as [cl|]; [|done].
    simpl in Hc. injection Hc as <-. exists cl. split; [done|]. case_decide; simpl; (split; [done|lia]). }
  split.
  - rewrite Hg. destruct (wf_grid s Hwf) as (? & ? & ? & ? & ? & ?).
    unfold grid_ok. simpl. split_and!; [done..|lia|done|done].
  - intros x y. destruct (wf_lists s Hwf x y) as [l Hl]. exists l. by apply Hb.
  - intros x y x' y' l l' r ?%Hb ?%Hb. by apply (wf_disjoint s Hwf).
  - intros x y l r Hl%Hb Hr.
    destruct (wf_linked s Hwf x y l r Hl Hr)
      as (n & cl & j1 & j2 & ms & Hn & Hc & Hcs & Hrect & Hat).
    destruct (Hfw _ _ Hc) as (cl' & Hc' & Hcs').
    exists n, cl', j1, j2, ms. rewrite Hh. split_and!; [done|done|congruence|done|done].
  - intros c cl' Hc'. destruct (Hbw _ _ Hc') as (cl & Hc & Hcs & _).
    pose proof (wf_clients s Hwf c cl Hc) as Hok. unfold client_ok in *. rewrite Hcs.
    destruct (Client.cells cl) as [[j1|] [j2|] [ms|]]; try done.
    destruct Hok as (H1 & H2 & Hp). split_and!.
    + unfold in_grid in *. by rewrite Hg.
    + unfold in_grid in *. by rewrite Hg.
    + intros x y Hr. destruct (Hp x y Hr) as (r & l & n & ? & ? & ? & ? & ?).
      exists r, l, n. rewrite Hh. split_and!; [done|by apply Hb|done..].
  - intros c cl' Hc'. destruct (Hbw _ _ Hc') as (cl & Hc & _ & Hle).
    pose proof (wf_stamps s Hwf c cl Hc). rewrite Hg. simpl. lia.
Qed.

(** ** The operations keep the store well formed *)

Lemma new_wf bounds dimensions s :
  1 ≤ fst dimensions → 1 ≤ snd dimensions →
  ¬ (fst (snd bounds) == fst (fst bounds))%Q → ¬ (snd (snd bounds) == snd (fst bounds))%Q →
  clients s = ∅ →
  ∃ s', SpatialHashGrid.new bounds dimensions s = Return tt s' ∧ wf s' ∧
        heads s' = heads s ∧ clients s' = ∅.
Proof.
  intros Hx Hy Hbx Hby Hcl. destruct dimensions as [nx ny]. simpl in *.
  unfold SpatialHashGrid.new. rewrite decide_True by lia.
  eexists. split; [reflexivity|]. split; [|done].
  assert (∀ x y, cell_head (set_grid (Grid.mk (replicate (Z.to_nat nx) ∅) (nx, ny) bounds 0) s)
                   x y = None) as Hempty.
  { intros x y. unfold cell_head, zlookup. simpl. case_decide; [|done].
    destruct (replicate (Z.to_nat nx) ∅ !! Z.to_nat x) as [col|] eqn:E; [|done].
    apply lookup_replicate in E as [-> _]. done. }
  assert (∀ x y l, bucket (set_grid (Grid.mk (replicate (Z.to_nat nx) ∅) (nx, ny) bounds 0) s)
                     x y l → l = []) as Hnil.
  { intros x y l Hb. unfold bucket in Hb. rewrite Hempty in Hb. by destruct l as [|? ?]; [|destruct Hb]. }
  split.
  - unfold grid_ok. simpl. rewrite length_replicate. split_and!; [done..|lia|done|done|done].
  - intros x y. exists []. unfold bucket. by rewrite Hempty.
  - intros x y x' y' l l' r Hb _ Hr. apply Hnil in Hb. subst. by apply elem_of_nil in Hr.
  - intros x y l r Hb Hr. apply Hnil in Hb. subst. by apply elem_of_nil in Hr.
  - intros c cl. simpl. by rewrite Hcl, lookup_empty.
  - intros c cl. simpl. by rewrite Hcl, lookup_empty.
Qed.

Lemma alloc_client_wf s cl :
  wf s → Client.cells cl = Cells.mk None None None → Client._queryId cl = -1 →
  wf (set_clients (<[fresh (dom (clients s)) := cl]> (clients s)) s) ∧
  clients s !! fresh (dom (clients s)) = None.
Proof.
  intros Hwf Hnone Hid. set (c := fresh (dom (clients s))).
  assert (clients s !! c = None) as Hfresh.
  { apply not_elem_of_dom. apply is_fresh. }
  split; [|done]. split.
  - apply Hwf.
  - apply Hwf.
  - apply Hwf.
  - intros x y l r Hb Hr.
    destruct (wf_linked s Hwf x y l r Hb Hr)
      as (n & cl' & j1 & j2 & ms & Hn & Hc & Hcs & Hrect & Hat).
    exists n, cl', j1, j2, ms. split_and!; [done| |done..]. simpl.
    rewrite lookup_insert_ne; [done|]. intros Heq. congruence.
  - intros c' cl' Hc'. simpl in Hc'. destruct (decide (c' = c)) as [->|Hne].
    + rewrite lookup_insert_eq in Hc'. injection Hc' as <-. unfold client_ok. by rewrite Hnone.
    + rewrite lookup_insert_ne in Hc' by done. by apply (wf_clients s Hwf).
  - intros c' cl' Hc'. simpl in Hc'. destruct (decide (c' = c)) as [->|Hne].
    + rewrite lookup_insert_eq in Hc'. injection Hc' as <-. rewrite Hid.
      destruct (wf_grid s Hwf) as (_ & _ & _ & Hq & _). simpl. lia.
    + rewrite lookup_insert_ne in Hc' by done. by apply (wf_stamps s Hwf c' cl').
Qed.

Lemma span_in_grid s cl :
  wf s → in_grid (grid s) (fst (span_of (grid s) cl)) ∧
         in_grid (grid s) (snd (span_of (grid s) cl)).
Proof. intros Hwf. split; apply getCellIndex_in_grid; apply Hwf. Qed.

Lemma insert_wf s c cl s' :
  wf s → clients s !! c = Some cl → Client.cells cl = Cells.mk None None None →
  SpatialHashGrid.insert c s = Return tt s' → wf s'.
Proof.
  intros Hwf Hc Hnone Hrun. destruct (insert_spec s c cl Hwf Hc) as (ns & t & Hins & Hrun').
  rewrite Hrun' in Hrun. injection Hrun as <-.
  destruct (span_in_grid s cl Hwf). by eapply inserted_wf.
Qed.

Lemma newClient_wf s position dimensions metadata c s' :
  wf s → SpatialHashGrid.newClient position dimensions metadata s = Return c s' → wf s'.
Proof.
  intros Hwf. unfold SpatialHashGrid.newClient.
  erewrite bind_Return by reflexivity.
  set (cl := Client.mk position dimensions (Cells.mk None None None) (-1) metadata).
  destruct (alloc_client_wf s cl Hwf eq_refl eq_refl) as [Hwf1 Hfresh].
  set (c0 := fresh (dom (clients s))) in *.
  set (s1 := set_clients (<[c0 := cl]> (clients s)) s) in *.
  destruct (insert_spec s1 c0 cl Hwf1) as (ns & t & Hins & Hrun); [apply lookup_insert_eq|].
  erewrite bind_Return by exact Hrun. intros [= <- <-].
  eapply insert_wf; [exact Hwf1|apply lookup_insert_eq|done|exact Hrun].
Qed.

Lemma remove_wf s c s' : wf s → SpatialHashGrid.remove c s = Return tt s' → wf s'.
Proof.
  intros Hwf. destruct (clients s !! c) as [cl|] eqn:Hc.
  2:{ unfold SpatialHashGrid.remove, bind, read_client, getsome. by rewrite Hc. }
  pose proof (wf_clients s Hwf c cl Hc) as Hok. unfold client_ok in Hok.
  destruct (Client.cells cl) as [[i1|] [i2|] [ns|]] eqn:Hcells; try done.
  - destruct (remove_spec s c cl i1 i2 ns Hwf Hc Hcells) as (t & Hrem & Hrun).
    rewrite Hrun. intros [= <-]. by eapply removed_wf.
  - unfold SpatialHashGrid.remove. erewrite bind_Return by (by apply read_client_run).
    by rewrite Hcells.
Qed.

Lemma updateClient_wf s c s' :
  wf s → SpatialHashGrid.updateClient c s = Return tt s' → wf s'.
Proof.
  intros Hwf. destruct (clients s !! c) as [cl|] eqn:Hc.
  2:{ unfold SpatialHashGrid.updateClient, bind, read_client, getsome. by rewrite Hc. }
  unfold SpatialHashGrid.updateClient. erewrite bind_Return by (by apply read_client_run).
  pose proof (wf_clients s Hwf c cl Hc) as Hok. unfold client_ok in Hok.
  destruct (Client.cells cl) as [[i1|] [i2|] [ns|]] eqn:Hcells; try done. simpl.
  erewrite bind_Return by reflexivity. case_decide; [by intros [= <-]|].
  destruct (remove_spec s c cl i1 i2 ns Hwf Hc Hcells) as (t & Hrem & Hrun).
  erewrite bind_Return by exact Hrun. intros Hins.
  eapply insert_wf; [by eapply removed_wf| | |exact Hins].
  - simpl. destruct Hrem as (_ & Hcl & _). by rewrite lookup_alter_eq, Hc.
  - done.
Qed.

Lemma newClient_spec s position dimensions metadata :
  wf s →
  let cl := Client.mk position dimensions (Cells.mk None None None) (-1) metadata in
  let c := fresh (dom (clients s)) in
  let s1 := set_clients (<[c := cl]> (clients s)) s in
  let i1 := fst (span_of (grid s) cl) in
  let i2 := snd (span_of (grid s) cl) in
  ∃ ns t,
    clients s !! c = None ∧ wf s1 ∧ inserted s1 c i1 (in_rect i1 i2) ns t ∧
    SpatialHashGrid.newClient position dimensions metadata s
      = Return c (with_span c i1 i2 ns s1 t) ∧
    wf (with_span c i1 i2 ns s1 t).
Proof.
  intros Hwf cl c s1 i1 i2.
  destruct (alloc_client_wf s cl Hwf eq_refl eq_refl) as [Hwf1 Hfresh].
  fold c in Hwf1, Hfresh. fold s1 in Hwf1.
  destruct (insert_spec s1 c cl Hwf1) as (ns & t & Hins & Hrun); [apply lookup_insert_eq|].
  exists ns, t. split_and!; [done..| |].
  - unfold SpatialHashGrid.newClient. erewrite bind_Return by reflexivity.
    fold cl c s1. by erewrite bind_Return by exact Hrun.
  - destruct (span_in_grid s1 cl Hwf1).
    eapply (inserted_wf s1 c cl); [done|apply lookup_insert_eq|done..].
Qed.

Lemma dll_same_nodes h h' p hd hd' l :
  dll h p hd l → dll h' p hd' l →
  (∀ r n n', r ∈ l → h !! r = Some n → h' !! r = Some n' → Head.client n' = Head.client n) →
  ∀ r, r ∈ l → h' !! r = h !! r.
Proof.
  revert p hd hd'. induction l as [|a l IH]; intros p hd hd' Hd Hd' Hcl r Hr.
  - by apply elem_of_nil in Hr.
  - simpl in Hd, Hd'. destruct Hd as [-> (n & Hn & Hp & Hd)].
    destruct Hd' as [-> (n' & Hn' & Hp' & Hd')].
    pose proof (dll_head _ _ _ _ Hd) as Hnx. pose proof (dll_head _ _ _ _ Hd') as Hnx'.
    apply elem_of_cons in Hr as [->|Hr].
    + rewrite Hn, Hn'. f_equal.
      pose proof (Hcl a n n' (list_elem_of_here _ _) Hn Hn') as Hc.
      destruct n, n'. simpl in *. congruence.
    + rewrite Hnx in Hd. rewrite Hnx' in Hd'. eapply IH; [exact Hd|exact Hd'| |done].
      intros r' m m' Hr'. apply Hcl. by apply list_elem_of_further.
Qed.

Lemma cells_ext (cs cs' : list (gmap Z ref)) :
  length cs' = length cs →
  (∀ x y, (col ← zlookup cs' x; col !! y) = (col ← zlookup cs x; col !! y)) →
  cs' = cs.
Proof.
  intros Hlen Hext. apply list_eq. intros i.
  destruct (cs !! i) as [col|] eqn:E.
  - destruct (cs' !! i) as [col'|] eqn:E'.
    + f_equal. apply map_eq. intros y. specialize (Hext (Z.of_nat i) y).
      unfold zlookup in Hext. rewrite !decide_True in Hext by lia.
      by rewrite Nat2Z.id, E, E' in Hext.
    + apply lookup_lt_Some in E. apply lookup_ge_None in E'. lia.
  - apply lookup_ge_None. apply lookup_ge_None in E. lia.
Qed.

Lemma grid_ext s s' :
  grid_frame (grid s) (grid s') → (∀ x y, cell_head s' x y = cell_head s x y) →
  grid s' = grid s.
Proof.
  intros (Hd & Hb & Hq & Hl) Hext.
  pose proof (cells_ext _ _ Hl Hext) as Hc.
  destruct (grid s), (grid s'). simpl in *. congruence.
Qed.

Lemma position_wf s c position s' :
  wf s → write_client c (Client.set_position position) s = Return tt s' → wf s'.
Proof.
  intros Hwf. destruct (clients s !! c) as [cl|] eqn:Hc.
  2:{ unfold write_client, bind, read_client, getsome. by rewrite Hc. }
  erewrite write_client_run by exact Hc. intros [= <-].
  assert (∀ c' cl', clients s !! c' = Some cl' →
            ∃ cl'', alter (Client.set_position position) c (clients s) !! c' = Some cl'' ∧
                    Client.cells cl'' = Client.cells cl' ∧
                    Client._queryId cl'' = Client._queryId cl') as Hfw.
  { intros c' cl' Hc'. rewrite lookup_alter. case_decide as E.
    - subst c'. rewrite Hc'. simpl. by eexists.
    - by exists cl'. }
  assert (∀ c' cl'', alter (Client.set_position position) c (clients s) !! c' = Some cl'' →
            ∃ cl', clients s !! c' = Some cl' ∧ Client.cells cl'' = Client.cells cl' ∧
                   Client._queryId cl'' = Client._queryId cl') as Hbw.
  { intros c' cl'' Hc'. rewrite lookup_alter in Hc'. case_decide as E.
    - subst c'. rewrite Hc in Hc'. simpl in Hc'. injection Hc' as <-. by exists cl.
    - by exists cl''. }
  split.
  - apply Hwf.
  - apply Hwf.
  - apply Hwf.
  - intros x y l r Hl Hr.
    destruct (wf_linked s Hwf x y l r Hl Hr)
      as (n & cl' & j1 & j2 & ms & Hn & Hc' & Hcs & Hrect & Hat).
    destruct (Hfw _ _ Hc') as (cl'' & Hc'' & Hcs'' & _).
    exists n, cl'', j1, j2, ms. split_and!; [done|done|congruence|done|done].
  - intros c' cl'' Hc'. destruct (Hbw _ _ Hc') as (cl' & Hc'' & Hcs & _).
    pose proof (wf_clients s Hwf c' cl' Hc'') as Hok. unfold client_ok in *.
    rewrite Hcs. destruct (Client.cells cl') as [[j1|] [j2|] [ms|]]; done.
  - intros c' cl'' Hc'. destruct (Hbw _ _ Hc') as (cl' & Hc'' & _ & Hq).
    rewrite Hq. by apply (wf_stamps s Hwf c' cl').
Qed.

(** Every reachable store is well formed. *)
Lemma reachable_wf s : reachable s → wf s.
Proof.
  induction 1 as [bounds dimensions s s' Hx Hy Hbx Hby Hcl Hrun
                 |position dimensions metadata s c s' _ IH Hrun
                 |s c s' _ IH Hrun
                 |s c s' _ IH Hrun
                 |fuel position bounds s found s' _ IH Hfuel Hrun
                 |s c position s' _ IH Hrun].
  - destruct (new_wf bounds dimensions s Hx Hy Hbx Hby Hcl) as (t & Hrun' & Hwf & _).
    rewrite Hrun' in Hrun. by injection Hrun as <-.
  - by eapply newClient_wf.
  - by eapply remove_wf.
  - by eapply updateClient_wf.
  - destruct (findNear_spec s position bounds fuel IH Hfuel) as (found' & t & Hrun' & Hst & _).
    rewrite Hrun' in Hrun. injection Hrun as <- <-. by eapply findNear_wf.
  - by eapply position_wf.
Qed.

(** ** The operations return on well-formed stores *)

Lemma inserted_client s c cl i1 i2 :
  wf s → clients s !! c = Some cl →
  Cells.min (Client.cells cl) = Some i1 → Cells.max (Client.cells cl) = Some i2 →
  ∃ ns, Client.cells cl = Cells.mk (Some i1) (Some i2) (Some ns) ∧ placed s c i1 i2 ns.
Proof.
  intros Hwf Hc Hmin Hmax. pose proof (wf_clients s Hwf c cl Hc) as Hok.
  unfold client_ok in Hok.
  destruct (Client.cells cl) as [[j1|] [j2|] [ns|]]; simpl in *; try done.
  injection Hmin as ->. injection Hmax as ->. by exists ns.
Qed.

Lemma remove_returns s c cl :
  wf s → clients s !! c = Some cl →
  is_Some (Cells.min (Client.cells cl)) → is_Some (Cells.max (Client.cells cl)) →
  ∃ s', SpatialHashGrid.remove c s = Return tt s' ∧ wf s' ∧
        ∃ cl', clients s' !! c = Some cl' ∧ Client.cells cl' = Cells.mk None None None.
Proof.
  intros Hwf Hc [i1 Hmin] [i2 Hmax].
  destruct (inserted_client s c cl i1 i2 Hwf Hc Hmin Hmax) as (ns & Hcells & _).
  destruct (remove_spec s c cl i1 i2 ns Hwf Hc Hcells) as (t & Hrem & Hrun).
  eexists. split; [exact Hrun|]. split; [by eapply removed_wf|].
  exists (Client.set_cells (Cells.mk None None None) cl). split; [|reflexivity].
  simpl. destruct Hrem as (_ & Hcl & _). by rewrite lookup_alter_eq, Hc.
Qed.

Lemma insert_returns s c cl :
  wf s → clients s !! c = Some cl → ∃ s', SpatialHashGrid.insert c s = Return tt s'.
Proof.
  intros Hwf Hc. destruct (insert_spec s c cl Hwf Hc) as (ns & t & _ & Hrun). eauto.
Qed.

Lemma updateClient_returns s c cl :
  wf s → clients s !! c = Some cl →
  is_Some (Cells.min (Client.cells cl)) → is_Some (Cells.max (Client.cells cl)) →
  ∃ s', SpatialHashGrid.updateClient c s = Return tt s'.
Proof.
  intros Hwf Hc Hmin Hmax.
  destruct (remove_returns s c cl Hwf Hc Hmin Hmax) as (s1 & Hrun1 & Hwf1 & cl1 & Hc1 & _).
  destruct (insert_returns s1 c cl1 Hwf1 Hc1) as (s2 & Hrun2).
  destruct Hmin as [i1 Hmin], Hmax as [i2 Hmax].
  unfold SpatialHashGrid.updateClient.
  erewrite bind_Return by (by apply read_client_run).
  rewrite Hmin, Hmax. erewrite bind_Return by reflexivity.
  case_decide; [by eexists|].
  erewrite bind_Return by exact Hrun1. eauto.
Qed.

Lemma in_rect_in_grid g i1 i2 x y :
  in_grid g i1 → in_grid g i2 → in_rect i1 i2 x y → in_grid g (x, y).
Proof. unfold in_grid, in_rect. simpl. lia. Qed.

(** ** Example stores are well formed *)

Lemma exec_newClient_wf s position dimensions metadata :
  wf s → wf (exec (SpatialHashGrid.newClient position dimensions metadata) s).
Proof.
  intros Hwf.
  destruct (newClient_spec s position dimensions metadata Hwf) as (ns & t & _ & _ & _ & Hrun & H).
  unfold exec. by rewrite Hrun.
Qed.

Lemma grid16_wf : wf grid16.
Proof.
  destruct (new_wf ((0, 0), (16, 16))%Q (16, 16) empty_store) as (s' & Hrun & Hwf & _);
    [simpl; lia|simpl; lia|by intros ?|by intros ?|done|].
  unfold grid16, exec. by rewrite Hrun.
Qed.

Lemma grid16_A_wf : wf grid16_A.
Proof. apply exec_newClient_wf, grid16_wf. Qed.

Lemma grid16_AB_wf : wf grid16_AB.
Proof. apply exec_newClient_wf, grid16_A_wf. Qed.

(** ** The index mapping: last cell and monotonicity *)

Lemma Qfloor_unique (x : Q) (z : Z) :
  (inject_Z z <= x)%Q → (x < inject_Z (z + 1))%Q → Qfloor x = z.
Proof.
  intros Hle Hlt.
  assert (z ≤ Qfloor x).
  { rewrite <- (Qfloor_Z z). by apply Qfloor_resp_le. }
  assert (Qfloor x < z + 1).
  { rewrite Zlt_Qlt. eapply Qle_lt_trans; [apply Qfloor_le|done]. }
  lia.
Qed.

Lemma sat_id (v : Q) : (0 <= v)%Q → (v <= 1)%Q → (math.sat v == v)%Q.
Proof.
  intros H0 H1. unfold math.sat. rewrite (Q.max_l v 0) by done. by apply Q.min_l.
Qed.

Lemma sat_one (v : Q) : (1 <= v)%Q → (math.sat v == 1)%Q.
Proof.
  intros H1. unfold math.sat. apply Q.min_r.
  eapply Qle_trans; [exact H1|]. apply Q.le_max_l.
Qed.

Lemma sat_lt_one (v : Q) : (v < 1)%Q → (math.sat v < 1)%Q.
Proof.
  intros H1. unfold math.sat. eapply Qle_lt_trans; [apply Q.le_min_l|].
  apply Q.max_lub_lt; [done|reflexivity].
Qed.

Lemma sat_mono (v v' : Q) : (v <= v')%Q → (math.sat v <= math.sat v')%Q.
Proof.
  intros H. unfold math.sat. apply Q.min_le_compat_r. by apply Q.max_le_compat_r.
Qed.

Lemma indexOf_mono n (v v' : Q) :
  1 ≤ n → (v <= v')%Q → SpatialHashGrid.indexOf n v ≤ SpatialHashGrid.indexOf n v'.
Proof.
  intros Hn H. unfold SpatialHashGrid.indexOf. apply Qfloor_resp_le.
  apply Qmult_le_compat_r; [by apply sat_mono|].
  change 0%Q with (inject_Z 0). rewrite <- Zle_Qle. lia.
Qed.

Lemma indexOf_comp n (v v' : Q) :
  1 ≤ n → (v == v')%Q → SpatialHashGrid.indexOf n v = SpatialHashGrid.indexOf n v'.
Proof.
  intros Hn H. apply Z.le_antisymm; apply indexOf_mono; try done.
  - rewrite H. apply Qle_refl.
  - rewrite H. apply Qle_refl.
Qed.

Lemma axisIndex_mono lo hi n (p p' : Q) :
  1 ≤ n → (lo < hi)%Q → (p <= p')%Q →
  SpatialHashGrid.axisIndex lo hi n p ≤ SpatialHashGrid.axisIndex lo hi n p'.
Proof.
  intros Hn Hlh Hp. unfold SpatialHashGrid.axisIndex. apply indexOf_mono; [done|].
  unfold Qdiv. apply Qmult_le_compat_r.
  - unfold Qminus. apply Qplus_le_compat; [done|apply Qle_refl].
  - apply Qinv_le_0_compat. apply Qlt_le_weak. unfold Qminus.
    rewrite <- (Qplus_opp_r lo). apply Qplus_lt_l. done.
Qed.

Lemma axisIndex_comp lo hi n (p p' : Q) :
  1 ≤ n → (p == p')%Q →
  SpatialHashGrid.axisIndex lo hi n p = SpatialHashGrid.axisIndex lo hi n p'.
Proof.
  intros Hn Hp. unfold SpatialHashGrid.axisIndex. apply indexOf_comp; [done|].
  by rewrite Hp.
Qed.

Lemma zero_extent_corners (p w : Q) : (w == 0)%Q → (p - w / 2 == p + w / 2)%Q.
Proof. intros ->. unfold Qdiv. ring. Qed.

Lemma negative_extent_corners (p w : Q) : (w <= 0)%Q → (p + w / 2 <= p - w / 2)%Q.
Proof.
  intros Hw. assert (w / 2 <= 0)%Q as H.
  { unfold Qdiv. rewrite <- (Qmult_0_l (/ 2)). by apply Qmult_le_compat_r. }
  unfold Qminus. apply Qplus_le_compat; [apply Qle_refl|].
  eapply Qle_trans; [exact H|]. rewrite <- (Qopp_involutive 0) at 1.
  apply Qopp_le_compat. exact H.
Qed.

(** ** The scenarios of the specification, run on the model *)

(** Scenario A: a query around the client finds it, a query in the far
    corner finds nothing. *)
Example scenario_A_hit :
  returned (SpatialHashGrid.findNear 1 (8, 8)%Q (1, 1)%Q grid16_A) = Some [0%nat].
Proof. vm_compute. reflexivity. Qed.

Example scenario_A_miss :
  returned (SpatialHashGrid.findNear 1 (0, 0)%Q (1, 1)%Q grid16_A) = Some [].
Proof. vm_compute. reflexivity. Qed.

(** Scenario B: A and B share cell (7, 7); the query on it returns both, the
    most recently inserted first, each once. *)
Example scenario_B :
  returned (SpatialHashGrid.findNear 2 (8, 8)%Q (1, 1)%Q grid16_AB) = Some [1%nat; 0%nat].
Proof. vm_compute. reflexivity. Qed.

(** Scenario C: an extent of 3 by 3 at (8, 8) covers the nine cells (6, 6) to
    (8, 8); after [remove] the grid holds the empty cells it started with. *)
Example scenario_C_span :
  (Client.cells <$> clients grid16_wide !! 0%nat)
  = Some (Cells.mk (Some (6, 6)) (Some (8, 8))
                   (Some [[0; 1; 2]; [3; 4; 5]; [6; 7; 8]]%nat)).
Proof. vm_compute. reflexivity. Qed.

Example scenario_C_remove :
  grid (exec (SpatialHashGrid.remove 0%nat) grid16_wide) = grid grid16.
Proof. vm_compute. reflexivity. Qed.

(** With too little fuel the model of the [while] loop gives up. *)
Example findNear_out_of_fuel :
  returned (SpatialHashGrid.findNear 1 (8, 8)%Q (1, 1)%Q grid16_AB) = None.
Proof. vm_compute. reflexivity. Qed.

(** * The claims *)

(** C1. In every well-formed store, [findNear] (given fuel for its [while]
    loop) returns a duplicate-free list that holds exactly the clients
    with a span whose cell rectangle shares a cell with the query's cell
    rectangle. *)
Theorem findNear_exact s position bounds fuel :
  wf s → (size (heads s) ≤ fuel)%nat →
  ∃ found s',
    SpatialHashGrid.findNear fuel position bounds s = Return found s' ∧
    NoDup found ∧
    ∀ c, c ∈ found ↔
         ∃ cl i1 i2, clients s !! c = Some cl ∧
                     Cells.min (Client.cells cl) = Some i1 ∧
                     Cells.max (Client.cells cl) = Some i2 ∧
                     overlaps (i1, i2) (query_rect (grid s) position bounds).
Proof.
  intros Hwf Hfuel.
  destruct (findNear_spec s position bounds fuel Hwf Hfuel) as (found & t & Hrun & Hst & Hmem).
  exists found, t. split; [done|]. split; [apply Hst|].
  intros c. rewrite Hmem. split.
  - intros (x & y & l & Hq & Hl & r & n & Hr & Hn & Hc).
    destruct (wf_linked s Hwf x y l r Hl Hr)
      as (n' & cl & i1 & i2 & ns & Hn' & Hcl & Hcs & Hrect & _).
    rewrite Hn in Hn'. injection Hn' as <-. rewrite Hc in Hcl.
    exists cl, i1, i2. rewrite Hcs. split_and!; [done..|]. by exists x, y.
  - intros (cl & i1 & i2 & Hcl & Hmin & Hmax & x & y & Hrect & Hq).
    pose proof (wf_clients s Hwf c cl Hcl) as Hok. unfold client_ok in Hok.
    destruct (Client.cells cl) as [[j1|] [j2|] [ns|]]; simpl in *; try done.
    injection Hmin as ->. injection Hmax as ->. destruct Hok as (_ & _ & Hp).
    destruct (Hp x y Hrect) as (r & l & n & _ & Hl & Hr & Hn & Hc).
    exists x, y, l. split_and!; [done..|]. by exists r, n.
Qed.

Lemma findNear_exact_witness :
  (wf grid16_AB ∧ (size (heads grid16_AB) ≤ 5)%nat) ∧
  ∃ found s',
    SpatialHashGrid.findNear 5 (8, 8)%Q (1, 1)%Q grid16_AB = Return found s' ∧
    NoDup found ∧
    ∀ c, c ∈ found ↔
         ∃ cl i1 i2, clients grid16_AB !! c = Some cl ∧
                     Cells.min (Client.cells cl) = Some i1 ∧
                     Cells.max (Client.cells cl) = Some i2 ∧
                     overlaps (i1, i2) (query_rect (grid grid16_AB) (8, 8)%Q (1, 1)%Q).
Proof.
  assert (size (heads grid16_AB) ≤ 5)%nat as Hsize by (vm_compute; lia).
  split; [split; [exact grid16_AB_wf|exact Hsize]|].
  exact (findNear_exact grid16_AB (8, 8)%Q (1, 1)%Q 5%nat grid16_AB_wf Hsize).
Defined.

(** C2. In every well-formed store, creating a client ([newClient], which
    inserts it) and removing it again gives back the grid object unchanged
    (every [cells[x][y]] holds the same head), every bucket lists the same
    nodes in the same order, each of these nodes has the same [next], [prev]
    and [client] as before, and all other clients are untouched. *)
Theorem insert_remove_round_trip s position dimensions metadata :
  wf s →
  ∃ c s1 s2,
    SpatialHashGrid.newClient position dimensions metadata s = Return c s1 ∧
    SpatialHashGrid.remove c s1 = Return tt s2 ∧
    grid s2 = grid s ∧
    (∀ x y l, bucket s x y l →
              bucket s2 x y l ∧ ∀ r, r ∈ l → heads s2 !! r = heads s !! r) ∧
    (∀ c' cl', clients s !! c' = Some cl' → clients s2 !! c' = Some cl').
Proof.
  intros Hwf.
  destruct (newClient_spec s position dimensions metadata Hwf)
    as (ns & t & Hfresh & Hwf1 & Hins & Hrun & Hwf').
  set (cl := Client.mk position dimensions (Cells.mk None None None) (-1) metadata) in *.
  set (c := fresh (dom (clients s))) in *.
  set (s1 := set_clients (<[c := cl]> (clients s)) s) in *.
  set (i1 := fst (span_of (grid s) cl)) in *. set (i2 := snd (span_of (grid s) cl)) in *.
  set (s' := with_span c i1 i2 ns s1 t) in *.
  set (cl' := Client.set_cells (Cells.mk (Some i1) (Some i2) (Some ns)) cl).
  assert (clients s' !! c = Some cl') as Hc'.
  { unfold s', with_span, s1. simpl. by rewrite lookup_alter_eq, lookup_insert_eq. }
  destruct (remove_spec s' c cl' i1 i2 ns Hwf' Hc' eq_refl) as (t2 & Hrem & Hrun2).
  exists c, s', (without_span c s' t2). split; [done|]. split; [done|].
  destruct Hins as (Hf1 & Hcl1 & Ho1 & _ & _ & Hb1).
  destruct Hrem as (Hf2 & Hcl2 & Ho2 & _ & _ & _ & Hb2).
  assert (∀ x y l, bucket s x y l → bucket t2 x y l) as Hback.
  { intros x y l Hl. destruct (Hb1 x y l Hl) as [Hin Hout].
    destruct (decide (in_rect i1 i2 x y)) as [Hrect|Hrect].
    - destruct (Hin Hrect) as (r & n & Hat & _ & _ & _ & Hbt).
      destruct (Hb2 x y (r :: l) Hbt) as [Hin2 _].
      destruct (Hin2 Hrect) as (r' & l1 & l2 & Hat' & Heq & Hbt2).
      rewrite Hat in Hat'. injection Hat' as <-.
      pose proof (dll_NoDup _ _ _ _ Hbt) as Hnd. apply NoDup_cons in Hnd as [Hnin _].
      destruct l1 as [|a l1].
      + simpl in Heq. injection Heq as <-. done.
      + simpl in Heq. injection Heq as <- ->. exfalso. apply Hnin.
        apply elem_of_app. right. apply list_elem_of_here.
    - apply (proj2 (Hb2 x y l (Hout Hrect)) Hrect). }
  split_and!.
  - apply grid_ext.
    + eapply grid_frame_trans; [exact Hf1|exact Hf2].
    + intros x y. destruct (wf_lists s Hwf x y) as [l Hl].
      rewrite (dll_head _ _ _ _ Hl). apply (dll_head _ _ _ _ (Hback x y l Hl)).
  - intros x y l Hl. split; [by apply Hback|].
    eapply dll_same_nodes; [exact Hl|exact (Hback x y l Hl)|].
    intros r n n' Hr Hn Hn'. destruct (Ho1 r n Hn) as (m & Hm & E1).
    destruct (Ho2 r m Hm) as (m' & Hm' & E2). simpl in Hn'.
    rewrite Hn' in Hm'. injection Hm' as <-. congruence.
  - intros c0 cl0 Hc0. simpl. assert (c0 ≠ c) as Hne by congruence.
    rewrite lookup_alter_ne by done. rewrite lookup_alter_ne by done.
    by rewrite lookup_insert_ne.
Qed.

Lemma insert_remove_round_trip_witness :
  wf grid16_AB ∧
  ∃ c s1 s2,
    SpatialHashGrid.newClient (8, 8)%Q (3, 3)%Q None grid16_AB = Return c s1 ∧
    SpatialHashGrid.remove c s1 = Return tt s2 ∧
    grid s2 = grid grid16_AB ∧
    (∀ x y l, bucket grid16_AB x y l →
              bucket s2 x y l ∧ ∀ r, r ∈ l → heads s2 !! r = heads grid16_AB !! r) ∧
    (∀ c' cl', clients grid16_AB !! c' = Some cl' → clients s2 !! c' = Some cl').
Proof.
  split; [exact grid16_AB_wf|].
  apply (insert_remove_round_trip grid16_AB (8, 8)%Q (3, 3)%Q None). exact grid16_AB_wf.
Defined.

(** C3. When the span recomputed from the client's current position and
    dimensions equals the stored [min] and [max], [updateClient] returns
    and the store it leaves is the store it was given: no node, cell or
    client record is written. *)
Theorem updateClient_coherence_noop s c cl i1 i2 :
  clients s !! c = Some cl →
  Cells.min (Client.cells cl) = Some i1 →
  Cells.max (Client.cells cl) = Some i2 →
  span_of (grid s) cl = (i1, i2) →
  SpatialHashGrid.updateClient c s = Return tt s.
Proof.
  intros Hc Hmin Hmax Hspan. unfold SpatialHashGrid.updateClient.
  erewrite bind_Return by (by apply read_client_run).
  rewrite Hmin, Hmax. erewrite bind_Return by reflexivity.
  unfold span_of in Hspan. injection Hspan as -> ->. by rewrite decide_True.
Qed.

Lemma updateClient_coherence_noop_witness :
  ∃ cl, clients grid16_AB_moved !! 1%nat = Some cl ∧
        Client.position cl = (8.3, 8.3)%Q ∧
        Cells.min (Client.cells cl) = Some (7, 7) ∧
        Cells.max (Client.cells cl) = Some (8, 8) ∧
        span_of (grid grid16_AB_moved) cl = ((7, 7), (8, 8)) ∧
        SpatialHashGrid.updateClient 1%nat grid16_AB_moved = Return tt grid16_AB_moved.
Proof.
  eexists. split; [vm_compute; reflexivity|].
  split; [reflexivity|]. split; [reflexivity|]. split; [reflexivity|].
  split; [vm_compute; reflexivity|].
  eapply (updateClient_coherence_noop grid16_AB_moved 1%nat _ (7, 7) (8, 8));
    [vm_compute; reflexivity|reflexivity|reflexivity|vm_compute; reflexivity].
Defined.

(** C4. [getCellIndex] is a function of the grid's bounds and dimensions
    and of the position, and in a well-formed store (at least one cell per
    axis, the outer array as long as the first dimension) its result lies in
    [[0, cols-1] x [0, rows-1]] for every position.  Hence every cell visited
    by the loops of [insert], [updateClient] and [findNear], and every cell
    of a stored span, which is what [remove] walks, is a cell of the grid
    whose column exists, and [insert], [remove] and [findNear] return
    without the exception of an out-of-range access. *)
Theorem cell_index_in_range s :
  wf s →
  (∀ p, in_grid (grid s) (SpatialHashGrid.getCellIndex (grid s) p)) ∧
  (∀ p1 p2 x y,
     in_rect (SpatialHashGrid.getCellIndex (grid s) p1)
             (SpatialHashGrid.getCellIndex (grid s) p2) x y →
     in_grid (grid s) (x, y) ∧ is_Some (zlookup (Grid.cells (grid s)) x)) ∧
  (∀ c cl i1 i2 x y,
     clients s !! c = Some cl →
     Cells.min (Client.cells cl) = Some i1 → Cells.max (Client.cells cl) = Some i2 →
     in_rect i1 i2 x y →
     in_grid (grid s) (x, y) ∧ is_Some (zlookup (Grid.cells (grid s)) x)) ∧
  (∀ c cl, clients s !! c = Some cl → ∃ s', SpatialHashGrid.insert c s = Return tt s') ∧
  (∀ c cl, clients s !! c = Some cl →
           is_Some (Cells.min (Client.cells cl)) → is_Some (Cells.max (Client.cells cl)) →
           ∃ s', SpatialHashGrid.remove c s = Return tt s') ∧
  (∀ fuel position bounds, (size (heads s) ≤ fuel)%nat →
           ∃ found s', SpatialHashGrid.findNear fuel position bounds s = Return found s').
Proof.
  intros Hwf. pose proof (wf_grid s Hwf) as Hg. split_and!.
  - intros p. by apply getCellIndex_in_grid.
  - intros p1 p2 x y Hr.
    pose proof (getCellIndex_in_grid (grid s) p1 Hg) as H1.
    pose proof (getCellIndex_in_grid (grid s) p2 Hg) as H2.
    split; [exact (in_rect_in_grid _ _ _ _ _ H1 H2 Hr)|
            exact (in_grid_column s _ _ x y Hg H1 H2 Hr)].
  - intros c cl i1 i2 x y Hc Hmin Hmax Hr.
    destruct (inserted_client s c cl i1 i2 Hwf Hc Hmin Hmax) as (ns & _ & H1 & H2 & _).
    split; [exact (in_rect_in_grid _ _ _ _ _ H1 H2 Hr)|
            exact (in_grid_column s _ _ x y Hg H1 H2 Hr)].
  - intros c cl Hc. by eapply insert_returns.
  - intros c cl Hc Hmin Hmax.
    destruct (remove_returns s c cl Hwf Hc Hmin Hmax) as (s' & Hrun & _). eauto.
  - intros fuel position bounds Hfuel.
    destruct (findNear_spec s position bounds fuel Hwf Hfuel) as (found & t & Hrun & _). eauto.
Qed.

Lemma cell_index_in_range_witness :
  wf grid16_AB ∧
  in_grid (grid grid16_AB) (SpatialHashGrid.getCellIndex (grid grid16_AB) (-100, 1000)%Q).
Proof.
  split; [exact grid16_AB_wf|].
  exact (proj1 (cell_index_in_range grid16_AB grid16_AB_wf) (-100, 1000)%Q).
Defined.

(** C5, the claim as stated is false: with two cells, the normalised value
    1/2 is at least [(N-1)/N] and still maps to index 0. *)
Lemma last_cell_counterexample :
  ¬ (∀ (N : Z) (v : Q),
       2 ≤ N → (inject_Z (N - 1) / inject_Z N <= v)%Q →
       SpatialHashGrid.indexOf N v = N - 1).
Proof.
  intros H. specialize (H 2 (1 # 2)%Q).
  assert (SpatialHashGrid.indexOf 2 (1 # 2) = 0) as E by reflexivity.
  rewrite E in H. discriminate H; [lia|]. unfold Qle. simpl. lia.
Qed.

(** C5, amended.  With [N >= 2] cells on an axis, the normalised value 1.0
    maps to index [N-1]; a normalised value maps to [N-1] exactly when it is
    at least 1 (so that it clamps to 1); and [(N-1)/N] maps to [N-2]. *)
Theorem last_cell_is_one_point (N : Z) :
  2 ≤ N →
  SpatialHashGrid.indexOf N 1 = N - 1 ∧
  (∀ v, SpatialHashGrid.indexOf N v = N - 1 ↔ (1 <= v)%Q) ∧
  SpatialHashGrid.indexOf N (inject_Z (N - 1) / inject_Z N) = N - 2.
Proof.
  intros HN.
  assert (0 < inject_Z (N - 1))%Q as Hpos.
  { change 0%Q with (inject_Z 0). rewrite <- Zlt_Qlt. lia. }
  assert (∀ v, (1 <= v)%Q → SpatialHashGrid.indexOf N v = N - 1) as Hone.
  { intros v Hv. unfold SpatialHashGrid.indexOf.
    rewrite (Qfloor_comp _ (inject_Z (N - 1))); [apply Qfloor_Z|].
    rewrite (sat_one v Hv). apply Qmult_1_l. }
  split_and!.
  - apply Hone. apply Qle_refl.
  - intros v. split; [|apply Hone].
    intros Hidx. apply Qnot_lt_le. intros Hlt.
    assert (SpatialHashGrid.indexOf N v < N - 1); [|lia].
    unfold SpatialHashGrid.indexOf. rewrite Zlt_Qlt.
    eapply Qle_lt_trans; [apply Qfloor_le|].
    rewrite <- (Qmult_1_l (inject_Z (N - 1))) at 2.
    apply Qmult_lt_compat_r; [done|by apply sat_lt_one].
  - unfold SpatialHashGrid.indexOf.
    assert (0 <= inject_Z (N - 1) / inject_Z N)%Q as H0.
    { destruct N as [|n|n]; try lia. unfold Qle, Qdiv, Qmult, Qinv. simpl. lia. }
    assert (inject_Z (N - 1) / inject_Z N <= 1)%Q as H1.
    { destruct N as [|n|n]; try lia. unfold Qle, Qdiv, Qmult, Qinv. simpl. lia. }
    rewrite (Qfloor_comp _ (inject_Z (N - 1) / inject_Z N * inject_Z (N - 1)))
      by (by rewrite sat_id).
    apply Qfloor_unique.
    + destruct N as [|n|n]; try lia. unfold Qle, Qdiv, Qmult, Qinv. simpl. nia.
    + destruct N as [|n|n]; try lia. unfold Qlt, Qdiv, Qmult, Qinv. simpl. nia.
Qed.

Lemma last_cell_is_one_point_witness :
  2 ≤ 16 ∧
  SpatialHashGrid.indexOf 16 1 = 15 ∧
  (∀ v, SpatialHashGrid.indexOf 16 v = 15 ↔ (1 <= v)%Q) ∧
  SpatialHashGrid.indexOf 16 (inject_Z 15 / inject_Z 16) = 14.
Proof. split; [lia|]. apply (last_cell_is_one_point 16). lia. Defined.

(** C6, the claim as stated is false: client A of [grid16_A] has a span, and
    [insert] on it returns and changes the head of cell (7, 7). *)
Lemma insert_on_inserted_counterexample :
  ∃ cl s',
    clients grid16_A !! 0%nat = Some cl ∧
    Cells.min (Client.cells cl) = Some (7, 7) ∧
    Cells.max (Client.cells cl) = Some (7, 7) ∧
    SpatialHashGrid.insert 0%nat grid16_A = Return tt s' ∧
    cell_head grid16_A 7 7 = Some 0%nat ∧
    cell_head s' 7 7 = Some 1%nat.
Proof.
  eexists _, (exec (SpatialHashGrid.insert 0%nat) grid16_A).
  split_and!; vm_compute; reflexivity.
Qed.

(** C6, amended.  [insert] tests nothing about the client's span.  In a
    well-formed store, called on any client, with or without a span, it
    returns, links one fresh node in front of the bucket of every cell of the
    recomputed rectangle and leaves the other buckets alone, and stores the
    recomputed span and the new nodes in the client.  Inside the class the
    call in [updateClient] comes after [remove], which leaves the client
    without a span. *)
Theorem insert_has_no_guard s c cl :
  wf s → clients s !! c = Some cl →
  (∃ ns s',
     SpatialHashGrid.insert c s = Return tt s' ∧
     clients s' !! c =
       Some (Client.set_cells
               (Cells.mk (Some (fst (span_of (grid s) cl)))
                         (Some (snd (span_of (grid s) cl))) (Some ns)) cl) ∧
     ∀ x y l, bucket s x y l →
       (in_rect (fst (span_of (grid s) cl)) (snd (span_of (grid s) cl)) x y →
        ∃ r, node_at ns (fst (span_of (grid s) cl)) x y = Some r ∧
             heads s !! r = None ∧ bucket s' x y (r :: l)) ∧
       (¬ in_rect (fst (span_of (grid s) cl)) (snd (span_of (grid s) cl)) x y →
        bucket s' x y l)) ∧
  (∀ s1, SpatialHashGrid.remove c s = Return tt s1 →
         ∃ cl1, clients s1 !! c = Some cl1 ∧
                Client.cells cl1 = Cells.mk None None None).
Proof.
  intros Hwf Hc. split.
  - destruct (insert_spec s c cl Hwf Hc) as (ns & t & Hins & Hrun).
    exists ns. eexists. split; [exact Hrun|].
    destruct Hins as (_ & Hcl & _ & _ & _ & Hb). split.
    + simpl. by rewrite lookup_alter_eq, Hc.
    + intros x y l Hl. destruct (Hb x y l Hl) as [Hin Hout]. split; [|done].
      intros Hr. destruct (Hin Hr) as (r & n & ? & ? & ? & ? & ?). by exists r.
  - intros s1 Hrun. pose proof (wf_clients s Hwf c cl Hc) as Hok. unfold client_ok in Hok.
    destruct (Client.cells cl) as [[i1|] [i2|] [ns|]] eqn:Hcells; try done.
    + destruct (remove_returns s c cl Hwf Hc) as (s' & Hrun' & _ & Hcl');
        [by rewrite Hcells..|].
      rewrite Hrun' in Hrun. by injection Hrun as <-.
    + unfold SpatialHashGrid.remove in Hrun.
      erewrite bind_Return in Hrun by (by apply read_client_run).
      by rewrite Hcells in Hrun.
Qed.

Lemma insert_has_no_guard_witness :
  wf grid16_A ∧
  ∃ cl, clients grid16_A !! 0%nat = Some cl ∧
        ∃ ns s', SpatialHashGrid.insert 0%nat grid16_A = Return tt s' ∧
                 clients s' !! 0%nat =
                   Some (Client.set_cells
                           (Cells.mk (Some (fst (span_of (grid grid16_A) cl)))
                                     (Some (snd (span_of (grid grid16_A) cl)))
                                     (Some ns)) cl).
Proof.
  split; [exact grid16_A_wf|].
  eexists. split; [vm_compute; reflexivity|].
  destruct (proj1 (insert_has_no_guard grid16_A 0%nat _ grid16_A_wf
                     ltac:(vm_compute; reflexivity))) as (ns & s' & Hrun & Hcl & _).
  exists ns, s'. split; [exact Hrun|exact Hcl].
Defined.

(** C7. On a client without a span, [remove] and [updateClient] throw
    their [Error] and leave the store exactly as it was; on a client with a
    span, in a well-formed store, both return. *)
Theorem remove_update_guard s c cl :
  clients s !! c = Some cl →
  (Cells.min (Client.cells cl) = None ∨ Cells.max (Client.cells cl) = None →
   SpatialHashGrid.remove c s = Throw (Error "Client has no min or max.") s ∧
   SpatialHashGrid.updateClient c s = Throw (Error "Client has no min/max cells.") s) ∧
  (wf s → is_Some (Cells.min (Client.cells cl)) → is_Some (Cells.max (Client.cells cl)) →
   (∃ s', SpatialHashGrid.remove c s = Return tt s') ∧
   (∃ s', SpatialHashGrid.updateClient c s = Return tt s')).
Proof.
  intros Hc. split.
  - intros Hnone. unfold SpatialHashGrid.remove, SpatialHashGrid.updateClient.
    erewrite !bind_Return by (by apply read_client_run).
    destruct (Cells.min (Client.cells cl)) as [i1|], (Cells.max (Client.cells cl)) as [i2|];
      destruct Hnone; done.
  - intros Hwf Hmin Hmax. split.
    + destruct (remove_returns s c cl Hwf Hc Hmin Hmax) as (s' & Hrun & _). eauto.
    + by eapply updateClient_returns.
Qed.

Lemma remove_update_guard_witness :
  (∃ cl, clients grid16_A_removed !! 0%nat = Some cl ∧
         SpatialHashGrid.remove 0%nat grid16_A_removed
           = Throw (Error "Client has no min or max.") grid16_A_removed ∧
         SpatialHashGrid.updateClient 0%nat grid16_A_removed
           = Throw (Error "Client has no min/max cells.") grid16_A_removed) ∧
  (∃ cl, clients grid16_A !! 0%nat = Some cl ∧
         (∃ s', SpatialHashGrid.remove 0%nat grid16_A = Return tt s') ∧
         (∃ s', SpatialHashGrid.updateClient 0%nat grid16_A = Return tt s')).
Proof.
  split.
  - eexists. split; [vm_compute; reflexivity|].
    eapply (proj1 (remove_update_guard grid16_A_removed 0%nat _ ltac:(vm_compute; reflexivity))).
    left. reflexivity.
  - eexists. split; [vm_compute; reflexivity|].
    eapply (proj2 (remove_update_guard grid16_A 0%nat _ ltac:(vm_compute; reflexivity)));
      [exact grid16_A_wf|by eexists|by eexists].
Defined.

(** C8, the claim as stated is false: on [grid16] a client at (8, 8) with
    extent (-4, 1) gets the span min (9, 7), max (5, 7); the indices differ on
    the degenerate axis and no node at all is created. *)
Lemma negative_extent_counterexample :
  ∃ c s' cl,
    SpatialHashGrid.newClient (8, 8)%Q (-4, 1)%Q None grid16 = Return c s' ∧
    clients s' !! c = Some cl ∧
    Client.cells cl = Cells.mk (Some (9, 7)) (Some (5, 7)) (Some []) ∧
    heads s' = ∅.
Proof.
  eexists _, (exec (SpatialHashGrid.newClient (8, 8)%Q (-4, 1)%Q None) grid16), _.
  split_and!; vm_compute; reflexivity.
Qed.

(** When the rectangle [i1 .. i2] is empty, the loops of [insert] touch
    nothing. *)
Lemma empty_span_loops (c : cref) (i1 i2 : CellIndex) (s : Store) :
  fst i2 < fst i1 ∨ snd i2 < snd i1 →
  ∃ ns, for_each (range (fst i1) (fst i2))
          (fun x nodes =>
             for_each (range (snd i1) (snd i2))
               (SpatialHashGrid.insert_cell c i1 x) (nodes ++ [[]])) [] s
        = Return ns s.
Proof.
  intros [Hx|Hy].
  - exists []. unfold range. rewrite seqZ_nil by lia. reflexivity.
  - assert (range (snd i1) (snd i2) = []) as -> by (unfold range; apply seqZ_nil; lia).
    assert (∀ xs (acc : Nodes),
              ∃ ns, for_each xs
                      (fun x nodes =>
                         for_each [] (SpatialHashGrid.insert_cell c i1 x) (nodes ++ [[]]))
                      acc s = Return ns s) as H; [|apply H].
    induction xs as [|x xs IH]; intros acc; simpl.
    + by exists acc.
    + unfold bind, ret. apply IH.
Qed.

(** C8, amended.  For every extent, zero and negative included, creating a
    client in a well-formed store does not fail; the stored span is the
    pair of indices of the two corners; exactly one fresh node owned by the
    client is linked in front of the bucket of every cell of the inclusive
    rectangle [min .. max], and no other bucket changes.  If the extent is
    zero on an axis, [min] and [max] agree on that axis; if it is zero on
    both, the rectangle is the single cell [min] and the client is present
    in it.  On an axis whose bounds run from a smaller to a larger
    coordinate, a non-negative extent gives [min <= max] and a zero or
    negative extent gives [max <= min].  Whenever [min <= max] on both axes
    the client is present in the cell [min]; whenever [max < min] on an axis
    the rectangle is empty: no node is created, every bucket is as before
    and no bucket holds a node of the client. *)
Theorem degenerate_extent_insert s position dimensions metadata :
  wf s →
  ∃ c s' i1 i2 ns,
    SpatialHashGrid.newClient position dimensions metadata s = Return c s' ∧
    clients s' !! c =
      Some (Client.mk position dimensions (Cells.mk (Some i1) (Some i2) (Some ns))
                      (-1) metadata) ∧
    i1 = SpatialHashGrid.getCellIndex (grid s) (SpatialHashGrid.lowCorner position dimensions) ∧
    i2 = SpatialHashGrid.getCellIndex (grid s) (SpatialHashGrid.highCorner position dimensions) ∧
    (∀ x y l, bucket s x y l →
       (in_rect i1 i2 x y →
        ∃ r n, node_at ns i1 x y = Some r ∧ heads s !! r = None ∧
               heads s' !! r = Some n ∧ Head.client n = c ∧ bucket s' x y (r :: l)) ∧
       (¬ in_rect i1 i2 x y → bucket s' x y l)) ∧
    ((fst dimensions == 0)%Q → fst i1 = fst i2) ∧
    ((snd dimensions == 0)%Q → snd i1 = snd i2) ∧
    ((fst dimensions <= 0)%Q →
     (fst (fst (Grid.bounds (grid s))) < fst (snd (Grid.bounds (grid s))))%Q →
     fst i2 ≤ fst i1) ∧
    ((snd dimensions <= 0)%Q →
     (snd (fst (Grid.bounds (grid s))) < snd (snd (Grid.bounds (grid s))))%Q →
     snd i2 ≤ snd i1) ∧
    ((0 <= fst dimensions)%Q →
     (fst (fst (Grid.bounds (grid s))) < fst (snd (Grid.bounds (grid s))))%Q →
     fst i1 ≤ fst i2) ∧
    ((0 <= snd dimensions)%Q →
     (snd (fst (Grid.bounds (grid s))) < snd (snd (Grid.bounds (grid s))))%Q →
     snd i1 ≤ snd i2) ∧
    ((fst dimensions == 0)%Q → (snd dimensions == 0)%Q →
     (∀ x y, in_rect i1 i2 x y ↔ x = fst i1 ∧ y = snd i1) ∧
     ∃ r n l, bucket s' (fst i1) (snd i1) (r :: l) ∧
              heads s' !! r = Some n ∧ Head.client n = c) ∧
    (fst i1 ≤ fst i2 → snd i1 ≤ snd i2 →
     ∃ r n l, bucket s' (fst i1) (snd i1) (r :: l) ∧
              heads s' !! r = Some n ∧ Head.client n = c) ∧
    (fst i2 < fst i1 ∨ snd i2 < snd i1 →
     heads s' = heads s ∧
     (∀ x y l, bucket s x y l → bucket s' x y l) ∧
     (∀ x y l, bucket s' x y l → ¬ owned_in s' l c)).
Proof.
  intros Hwf.
  destruct (newClient_spec s position dimensions metadata Hwf)
    as (ns & t & Hfresh & Hwf1 & Hins & Hrun & Hwf').
  destruct (wf_grid s Hwf) as (Hnx & Hny & _).
  set (cl := Client.mk position dimensions (Cells.mk None None None) (-1) metadata) in *.
  set (c := fresh (dom (clients s))) in *.
  set (s1 := set_clients (<[c := cl]> (clients s)) s) in *.
  set (i1 := fst (span_of (grid s) cl)) in *. set (i2 := snd (span_of (grid s) cl)) in *.
  set (s' := with_span c i1 i2 ns s1 t) in *.
  assert (clients s' !! c
          = Some (Client.mk position dimensions (Cells.mk (Some i1) (Some i2) (Some ns))
                            (-1) metadata)) as Hc'.
  { unfold s', with_span, s1. simpl. by rewrite lookup_alter_eq, lookup_insert_eq. }
  assert (fst dimensions == 0 → fst i1 = fst i2)%Q as Hzx.
  { intros Hw. simpl. apply axisIndex_comp; [done|]. by apply zero_extent_corners. }
  assert (snd dimensions == 0 → snd i1 = snd i2)%Q as Hzy.
  { intros Hh. simpl. apply axisIndex_comp; [done|]. by apply zero_extent_corners. }
  assert (∀ x y l, bucket s x y l →
            (in_rect i1 i2 x y →
             ∃ r n, node_at ns i1 x y = Some r ∧ heads s !! r = None ∧
                    heads s' !! r = Some n ∧ Head.client n = c ∧ bucket s' x y (r :: l)) ∧
            (¬ in_rect i1 i2 x y → bucket s' x y l)) as Hb.
  { destruct Hins as (_ & _ & _ & _ & _ & Hb). intros x y l Hl. by apply (Hb x y l). }
  assert (fst i1 ≤ fst i2 → snd i1 ≤ snd i2 →
          ∃ r n l, bucket s' (fst i1) (snd i1) (r :: l) ∧
                   heads s' !! r = Some n ∧ Head.client n = c) as Hpresent.
  { intros Hx Hy. destruct (wf_lists s Hwf (fst i1) (snd i1)) as [l Hl].
    destruct (proj1 (Hb _ _ l Hl)) as (r & n & _ & _ & Hn & Hown & Hbl);
      [unfold in_rect; lia|].
    by exists r, n, l. }
  exists c, s', i1, i2, ns. split; [exact Hrun|]. split_and!.
  - exact Hc'.
  - reflexivity.
  - reflexivity.
  - exact Hb.
  - exact Hzx.
  - exact Hzy.
  - intros Hw Hbx. simpl. apply axisIndex_mono; [done..|]. by apply negative_extent_corners.
  - intros Hh Hby. simpl. apply axisIndex_mono; [done..|]. by apply negative_extent_corners.
  - intros Hw Hbx. simpl. apply axisIndex_mono; [done..|].
    unfold Qdiv. change (/ 2)%Q with (1 # 2)%Q. lra.
  - intros Hh Hby. simpl. apply axisIndex_mono; [done..|].
    unfold Qdiv. change (/ 2)%Q with (1 # 2)%Q. lra.
  - intros Hw Hh. specialize (Hzx Hw). specialize (Hzy Hh). split.
    + intros x y. unfold in_rect. lia.
    + apply Hpresent; lia.
  - exact Hpresent.
  - intros Hempty. split_and!.
    + destruct (empty_span_loops c i1 i2 s1 Hempty) as (ns' & Hloops).
      assert (SpatialHashGrid.newClient position dimensions metadata s
              = Return c (set_clients
                            (alter (Client.set_cells
                                      (Cells.mk (Some i1) (Some i2) (Some ns'))) c
                                   (clients s1)) s1)) as Hdirect.
      { assert (SpatialHashGrid.insert c s1
                = Return tt (set_clients
                               (alter (Client.set_cells
                                         (Cells.mk (Some i1) (Some i2) (Some ns'))) c
                                      (clients s1)) s1)) as Hinsert.
        { unfold SpatialHashGrid.insert.
          erewrite bind_Return by (apply read_client_run; apply lookup_insert_eq).
          erewrite bind_Return by reflexivity.
          erewrite bind_Return by exact Hloops.
          eapply write_client_run. apply lookup_insert_eq. }
        unfold SpatialHashGrid.newClient. erewrite bind_Return by reflexivity.
        fold cl c s1. by erewrite bind_Return by exact Hinsert. }
      rewrite Hrun in Hdirect. injection Hdirect as _ Hheads _. exact Hheads.
    + intros x y l Hl. apply (proj2 (Hb x y l Hl)). unfold in_rect. lia.
    + intros x y l Hl (r & n & Hr & Hn & Hown).
      destruct (wf_linked s' Hwf' x y l r Hl Hr)
        as (n' & cl' & j1 & j2 & ms & Hn' & Hcl' & Hcs & Hrect & _).
      rewrite Hn in Hn'. injection Hn' as <-. rewrite Hown, Hc' in Hcl'.
      injection Hcl' as <-. simpl in Hcs. injection Hcs as <- <- _.
      unfold in_rect in Hrect. lia.
Qed.

Lemma degenerate_extent_insert_witness :
  wf grid16 ∧
  (∃ c s' i1 i2 ns,
     SpatialHashGrid.newClient (8, 8)%Q (0, -4)%Q None grid16 = Return c s' ∧
     clients s' !! c =
       Some (Client.mk (8, 8)%Q (0, -4)%Q (Cells.mk (Some i1) (Some i2) (Some ns))
                       (-1) None) ∧
     fst i1 = fst i2 ∧ snd i2 ≤ snd i1 ∧
     heads s' = heads grid16 ∧
     (∀ x y l, bucket s' x y l → ¬ owned_in s' l c)) ∧
  (∃ c s' r n l,
     SpatialHashGrid.newClient (8, 8)%Q (0, 0)%Q None grid16 = Return c s' ∧
     bucket s' 7 7 (r :: l) ∧ heads s' !! r = Some n ∧ Head.client n = c).
Proof.
  split; [exact grid16_wf|]. split.
  - destruct (degenerate_extent_insert grid16 (8, 8)%Q (0, -4)%Q None grid16_wf)
      as (c & s' & i1 & i2 & ns & Hrun & Hcl & Hi1 & Hi2 & _ & Hx & _ & _ & Hy & _ & _ & _
          & _ & Hempty).
    assert (snd i2 < snd i1) as Hlt by (rewrite Hi1, Hi2; vm_compute; reflexivity).
    destruct (Hempty (or_intror Hlt)) as (Hheads & _ & Hnone).
    exists c, s', i1, i2, ns.
    split_and!; [exact Hrun|exact Hcl| | |exact Hheads|exact Hnone].
    + apply Hx. reflexivity.
    + apply Hy; [unfold Qle; simpl; lia|unfold Qlt; simpl; lia].
  - destruct (degenerate_extent_insert grid16 (8, 8)%Q (0, 0)%Q None grid16_wf)
      as (c & s' & i1 & i2 & ns & Hrun & _ & Hi1 & _ & _ & _ & _ & _ & _ & _ & _ & Hzero & _).
    destruct Hzero as (_ & r & n & l & Hb & Hn & Hown); [reflexivity|reflexivity|].
    assert (fst i1 = 7) as Hx by (rewrite Hi1; vm_compute; reflexivity).
    assert (snd i1 = 7) as Hy by (rewrite Hi1; vm_compute; reflexivity).
    rewrite Hx, Hy in Hb. exists c, s', r, n, l.
    split_and!; [exact Hrun|exact Hb|exact Hn|exact Hown].
Defined.

(** C9, the code at the failing input.  [add] files object 0 under
    (position.x, position.z) = (8, 8), cell (7, 7).  [update], with the
    object where it was, overwrites the client's position with
    (position.x, position.y) = (8, 0) and moves the client to cell (7, 0). *)
Theorem update_reads_y_for_z :
  ∃ s',
    ThreeSpatialHashGrid.update scene_one = Return tt s' ∧
    Three.objects s' = Three.objects scene_one ∧
    Three.clients scene_one = [0%nat] ∧
    placement scene_one 0%nat = Some ((8, 8)%Q, Some (7, 7), Some (7, 7)) ∧
    placement s' 0%nat = Some ((8, 0)%Q, Some (7, 0), Some (7, 0)) ∧
    cell_head (Three.base scene_one) 7 7 = Some 0%nat ∧
    cell_head (Three.base s') 7 7 = None ∧
    cell_head (Three.base s') 7 0 = Some 1%nat.
Proof.
  exists (exec ThreeSpatialHashGrid.update scene_one).
  split_and!; vm_compute; reflexivity.
Qed.

(** C10, the code at the failing input.  With two clients, [dispose]
    removes the first, splices it out, and stops: the second client is still
    in the [clients] array, still has its span and is still linked in its
    cell. *)
Theorem dispose_skips_clients :
  ∃ s',
    ThreeSpatialHashGrid.dispose scene_two = Return tt s' ∧
    Three.clients scene_two = [0%nat; 1%nat] ∧
    Three.clients s' = [1%nat] ∧
    placement s' 0%nat = Some ((8, 8)%Q, None, None) ∧
    placement s' 1%nat = Some ((3, 12)%Q, Some (2, 10), Some (3, 11)) ∧
    cell_head (Three.base s') 2 10 = Some 1%nat.
Proof.
  exists (exec ThreeSpatialHashGrid.dispose scene_two).
  split_and!; vm_compute; reflexivity.
Qed.

(** * Further properties of the code *)

(** ** [findNear]: the order of the result *)

Lemma for_each_fold {S A} (I : A → S → Prop) (f : A → Z → A) (xs : list Z)
      (body : Z → A → M S A) acc s :
  I acc s →
  (∀ x a t, x ∈ xs → I a t → ∃ t', body x a t = Return (f a x) t' ∧ I (f a x) t') →
  ∃ s', for_each xs body acc s = Return (foldl f acc xs) s' ∧ I (foldl f acc xs) s'.
Proof.
  revert acc s. induction xs as [|x xs IH]; intros acc s H0 Hstep; simpl.
  - by exists s.
  - destruct (Hstep x acc s) as (s1 & Hrun & H1); [apply list_elem_of_here|done|].
    rewrite (bind_Return _ _ _ _ _ Hrun). apply IH; [done|].
    intros y a t Hy. apply Hstep. by apply list_elem_of_further.
Qed.

Lemma sweep_app found vs ws : sweep found (vs ++ ws) = sweep (sweep found vs) ws.
Proof. apply foldl_app. Qed.

Lemma sweep_bind {B} (f : B → list cref) (l : list B) found :
  foldl (fun a x => sweep a (f x)) found l = sweep found (x ← l; f x).
Proof.
  revert found. induction l as [|x l IH]; intros found; simpl; [done|].
  by rewrite IH, sweep_app.
Qed.

Lemma sweep_bind2 {B C} (f : B → C → list cref) (xs : list B) (ys : list C) found :
  foldl (fun a x => foldl (fun a y => sweep a (f x y)) a ys) found xs
  = sweep found (x ← xs; y ← ys; f x y).
Proof.
  revert found. induction xs as [|x xs IH]; intros found; simpl; [done|].
  by rewrite IH, sweep_app, sweep_bind.
Qed.

Lemma elem_of_sweep found vs c : c ∈ sweep found vs ↔ c ∈ found ∨ c ∈ vs.
Proof.
  revert found. induction vs as [|v vs IH]; intros found; simpl.
  - rewrite elem_of_nil. tauto.
  - unfold sweep in *. simpl. rewrite IH, elem_of_cons. case_decide.
    + split; [tauto|]. intros [?|[->|?]]; tauto.
    + rewrite elem_of_app, list_elem_of_singleton. tauto.
Qed.

Lemma NoDup_sweep found vs : NoDup found → NoDup (sweep found vs).
Proof.
  revert found. induction vs as [|v vs IH]; intros found Hnd; simpl; [done|].
  unfold sweep in *. simpl. apply IH. case_decide; [done|].
  apply NoDup_app. split_and!; [done| |apply NoDup_singleton].
  intros c Hc [->|[]%elem_of_nil]%elem_of_cons. done.
Qed.

Lemma chain_dll h p hd l fuel :
  dll h p hd l → (length l ≤ fuel)%nat → chain fuel h hd = l.
Proof.
  revert p hd fuel. induction l as [|r l IH]; intros p hd fuel Hd Hfuel.
  - simpl in Hd. subst hd. by destruct fuel.
  - simpl in Hd. destruct Hd as [-> (n & Hn & Hp & Hd)].
    destruct fuel as [|fuel]; [simpl in Hfuel; lia|]. simpl in *.
    rewrite Hn. f_equal. eapply IH; [exact Hd|lia].
Qed.

Lemma chain_bucket s x y l :
  bucket s x y l → chain (size (heads s)) (heads s) (cell_head s x y) = l.
Proof.
  intros Hl. eapply chain_dll; [exact Hl|]. by eapply bucket_length_le_size.
Qed.

Lemma elem_of_owners h l c :
  c ∈ owners h l ↔ ∃ r n, r ∈ l ∧ h !! r = Some n ∧ Head.client n = c.
Proof.
  unfold owners. rewrite list_elem_of_omap. split.
  - intros (r & Hr & Hc). apply fmap_Some in Hc as (n & Hn & ->). by exists r, n.
  - intros (r & n & Hr & Hn & <-). exists r. split; [done|]. by rewrite Hn.
Qed.

Section walk_order.
Variables (s : Store) (q : Z).
Hypothesis Hfresh_id : ∀ c cl, clients s !! c = Some cl → Client._queryId cl ≠ q.

Lemma walk_sweep l : ∀ fuel p hd found t,
  dll (heads s) p hd l →
  (∀ r n, r ∈ l → heads s !! r = Some n → is_Some (clients s !! Head.client n)) →
  (length l ≤ fuel)%nat →
  stamped s q found t →
  ∃ t', SpatialHashGrid.walk fuel q hd found t
          = Return (sweep found (owners (heads s) l)) t' ∧
        stamped s q (sweep found (owners (heads s) l)) t'.
Proof.
  induction l as [|r l IH]; intros fuel p hd found t Hd Hown Hfuel Hst.
  - simpl in Hd. subst hd. exists t. by destruct fuel.
  - simpl in Hd. destruct Hd as [-> (n & Hn & Hp & Hd)].
    destruct fuel as [|fuel]; [simpl in Hfuel; lia|]. simpl in Hfuel.
    pose proof Hst as (Hh & Hg & Hnd & Hcl).
    destruct (Hown r n) as [cl Hcl0]; [apply list_elem_of_here|done|].
    assert (owners (heads s) (r :: l) = Head.client n :: owners (heads s) l) as ->.
    { unfold owners. simpl. by rewrite Hn. }
    set (v := Head.client n) in *.
    assert (∀ r' n', r' ∈ l → heads s !! r' = Some n' →
                     is_Some (clients s !! Head.client n')) as Hown'.
    { intros r' n' Hr'. apply Hown. by apply list_elem_of_further. }
    simpl.
    erewrite bind_Return by (apply read_head_run; rewrite Hh; exact Hn).
    fold v. pose proof (Hcl v) as Hv. rewrite Hcl0 in Hv. simpl in Hv.
    erewrite bind_Return by (apply read_client_run; exact Hv).
    unfold sweep. simpl. fold (sweep (if decide (v ∈ found) then found else found ++ [v])
                                     (owners (heads s) l)).
    destruct (decide (v ∈ found)) as [Hin|Hnin].
    + rewrite decide_True by done.
      apply (IH fuel (Some r) (Head.next n) found t); [done|done|lia|done].
    + rewrite decide_False by (by eapply Hfresh_id).
      erewrite bind_Return by (eapply write_client_run; exact Hv).
      apply (IH fuel (Some r) (Head.next n) (found ++ [v])); [done|done|lia|].
      unfold stamped. split_and!; [done..| |].
      * apply NoDup_app. split_and!; [done| |apply NoDup_singleton].
        intros c Hc [->|[]%elem_of_nil]%elem_of_cons. done.
      * intros c. simpl. destruct (decide (c = v)) as [->|Hne].
        -- rewrite lookup_alter_eq, Hv, Hcl0. simpl.
           rewrite decide_True; [done|]. apply elem_of_app. right. apply list_elem_of_here.
        -- rewrite lookup_alter_ne by done. rewrite Hcl.
           destruct (clients s !! c) as [cl'|]; [|done]. simpl.
           destruct (decide (c ∈ found)) as [Hc|Hc].
           ++ rewrite decide_True; [done|]. apply elem_of_app. by left.
           ++ rewrite decide_False; [done|]. rewrite elem_of_app, list_elem_of_singleton.
              tauto.
Qed.
End walk_order.

Lemma findNear_sweep s position bounds fuel :
  wf s → (size (heads s) ≤ fuel)%nat →
  ∃ t, SpatialHashGrid.findNear fuel position bounds s
         = Return (sweep [] (traversal s (fst (query_rect (grid s) position bounds))
                                         (snd (query_rect (grid s) position bounds)))) t ∧
       stamped s (Grid.queryIds (grid s))
         (sweep [] (traversal s (fst (query_rect (grid s) position bounds))
                                (snd (query_rect (grid s) position bounds)))) t.
Proof.
  intros Hwf Hfuel.
  set (q := Grid.queryIds (grid s)).
  set (i1 := fst (query_rect (grid s) position bounds)).
  set (i2 := snd (query_rect (grid s) position bounds)).
  set (s1 := set_grid (Grid.set_queryIds (q + 1) (grid s)) s).
  assert (∀ c cl, clients s !! c = Some cl → Client._queryId cl ≠ q) as Hid.
  { intros c cl Hc. pose proof (wf_stamps s Hwf c cl Hc). unfold q. lia. }
  set (O := fun x y => owners (heads s)
                         (chain (size (heads s)) (heads s) (cell_head s x y))).
  assert (stamped s q [] s1) as H0.
  { unfold stamped. split_and!; [done..|apply NoDup_nil_2|].
    intros c. simpl. by destruct (clients s !! c). }
  destruct (for_each_fold (stamped s q)
              (fun a x => foldl (fun a y => sweep a (O x y)) a (range (snd i1) (snd i2)))
              (range (fst i1) (fst i2))
              (fun x found =>
                 for_each (range (snd i1) (snd i2))
                   (fun y found => head <- read_cell x y ;;
                                   SpatialHashGrid.walk fuel q head found) found)
              [] s1 H0) as (t & Hrun & Hst).
  - intros x found t Hx Hst. apply elem_of_range in Hx.
    apply (for_each_fold (stamped s q) (fun a y => sweep a (O x y))); [done|].
    intros y found' t' Hy Hst'. apply elem_of_range in Hy.
    assert (in_rect i1 i2 x y) as Hrect by (unfold in_rect; lia).
    pose proof Hst' as (Hh & Hg & _).
    assert (Grid.cells (grid t') = Grid.cells (grid s)) as Hcells by (by rewrite Hg).
    erewrite bind_Return.
    2:{ apply read_cell_run. rewrite Hcells.
        eapply in_grid_column; [apply Hwf| | |exact Hrect];
          apply getCellIndex_in_grid; apply Hwf. }
    rewrite (cell_head_grid s t') by done.
    destruct (wf_lists s Hwf x y) as [l0 Hl0].
    unfold O. rewrite (chain_bucket s x y l0 Hl0).
    apply (walk_sweep s q Hid l0 fuel None); [done| | |done].
    + intros r n Hr Hn.
      destruct (wf_linked s Hwf x y l0 r Hl0 Hr) as (n' & cl & ? & ? & ? & Hn' & Hcl & _).
      rewrite Hn in Hn'. injection Hn' as <-. by exists cl.
    + pose proof (bucket_length_le_size _ _ _ _ Hl0). lia.
  - exists t.
    assert (foldl (fun a x => foldl (fun a y => sweep a (O x y)) a (range (snd i1) (snd i2)))
                  [] (range (fst i1) (fst i2)) = sweep [] (traversal s i1 i2)) as E.
    { unfold traversal. apply sweep_bind2. }
    rewrite E in Hrun, Hst. split; [exact Hrun|exact Hst].
Qed.

(** ** Queries in terms of the client records *)

Lemma covers_owned s x y l c :
  wf s → bucket s x y l → (owned_in s l c ↔ covers s c x y).
Proof.
  intros Hwf Hl. split.
  - intros (r & n & Hr & Hn & Hc).
    destruct (wf_linked s Hwf x y l r Hl Hr)
      as (n' & cl & i1 & i2 & ns & Hn' & Hcl & Hcs & Hrect & _).
    rewrite Hn in Hn'. injection Hn' as <-. rewrite Hc in Hcl.
    exists cl, i1, i2. rewrite Hcs. by split_and!.
  - intros (cl & i1 & i2 & Hcl & Hmin & Hmax & Hrect).
    pose proof (wf_clients s Hwf c cl Hcl) as Hok. unfold client_ok in Hok.
    destruct (Client.cells cl) as [[j1|] [j2|] [ns|]]; simpl in *; try done.
    injection Hmin as ->. injection Hmax as ->. destruct Hok as (_ & _ & Hp).
    destruct (Hp x y Hrect) as (r & l' & n & _ & Hl' & Hr & Hn & Hc).
    rewrite (bucket_functional _ _ _ _ _ Hl Hl'). by exists r, n.
Qed.

Lemma findNear_members s position bounds fuel :
  wf s → (size (heads s) ≤ fuel)%nat →
  ∃ found t,
    SpatialHashGrid.findNear fuel position bounds s = Return found t ∧
    stamped s (Grid.queryIds (grid s)) found t ∧ wf t ∧
    ∀ c, c ∈ found ↔
         ∃ x y, in_rect (fst (query_rect (grid s) position bounds))
                        (snd (query_rect (grid s) position bounds)) x y ∧
                covers s c x y.
Proof.
  intros Hwf Hfuel.
  destruct (findNear_spec s position bounds fuel Hwf Hfuel) as (found & t & Hrun & Hst & Hmem).
  exists found, t. split; [done|]. split; [done|]. split; [by eapply findNear_wf|].
  intros c. rewrite Hmem. split.
  - intros (x & y & l & Hq & Hl & Ho). exists x, y. split; [done|].
    by apply (covers_owned s x y l c Hwf Hl).
  - intros (x & y & Hq & Hc). destruct (wf_lists s Hwf x y) as [l Hl].
    exists x, y, l. split_and!; [done..|]. by apply (covers_owned s x y l c Hwf Hl).
Qed.

Lemma traversal_ext s s' i1 i2 :
  heads s' = heads s → Grid.cells (grid s') = Grid.cells (grid s) →
  traversal s' i1 i2 = traversal s i1 i2.
Proof. unfold traversal, cell_head. intros Hh Hc. by rewrite Hh, Hc. Qed.

Lemma query_rect_ext g g' position bounds :
  Grid.dimensions g' = Grid.dimensions g → Grid.bounds g' = Grid.bounds g →
  query_rect g' position bounds = query_rect g position bounds.
Proof.
  intros Hd Hb. unfold query_rect, SpatialHashGrid.getCellIndex. by rewrite Hd, Hb.
Qed.

Lemma span_of_ext g g' cl cl' :
  Grid.dimensions g' = Grid.dimensions g → Grid.bounds g' = Grid.bounds g →
  Client.position cl' = Client.position cl → Client.dimensions cl' = Client.dimensions cl →
  span_of g' cl' = span_of g cl.
Proof.
  intros Hd Hb Hp Hw. unfold span_of, SpatialHashGrid.getCellIndex.
  by rewrite Hd, Hb, Hp, Hw.
Qed.

Lemma same_dom_size (h h' : gmap ref Head.t) :
  (∀ r, is_Some (h !! r) → is_Some (h' !! r)) → (size h ≤ size h')%nat.
Proof.
  intros H. rewrite <- !size_dom. apply subseteq_size.
  intros r. rewrite !elem_of_dom. apply H.
Qed.

Lemma owners_kept_size s t : owners_kept s t → (size (heads s) ≤ size (heads t))%nat.
Proof.
  intros H. apply same_dom_size. intros r [n Hn].
  destruct (H r n Hn) as (n' & Hn' & _). by exists n'.
Qed.

Lemma removed_size s i1 ns D t : removed s i1 ns D t → size (heads t) = size (heads s).
Proof.
  intros (_ & _ & Ho & Hnone & _). apply Nat.le_antisymm.
  - apply same_dom_size. intros r Hr. destruct (heads s !! r) eqn:E; [done|].
    rewrite (Hnone r E) in Hr. by destruct Hr.
  - by apply owners_kept_size.
Qed.

(** ** What [newClient], [remove] and [updateClient] leave behind *)

Lemma newClient_post s position dimensions metadata :
  wf s →
  let span := span_of (grid s)
                (Client.mk position dimensions (Cells.mk None None None) (-1) metadata) in
  ∃ c s' ns,
    SpatialHashGrid.newClient position dimensions metadata s = Return c s' ∧
    wf s' ∧ clients s !! c = None ∧ (size (heads s) ≤ size (heads s'))%nat ∧
    grid_frame (grid s) (grid s') ∧
    clients s' = <[c := Client.mk position dimensions
                          (Cells.mk (Some (fst span)) (Some (snd span)) (Some ns))
                          (-1) metadata]> (clients s).
Proof.
  intros Hwf span.
  destruct (newClient_spec s position dimensions metadata Hwf)
    as (ns & t & Hfresh & Hwf1 & Hins & Hrun & Hwf').
  eexists _, _, ns. split; [exact Hrun|]. split; [exact Hwf'|]. split; [exact Hfresh|].
  destruct Hins as (Hf & Hcl & Ho & _). split_and!.
  - apply (owners_kept_size _ _ Ho).
  - exact Hf.
  - unfold with_span. simpl. by rewrite alter_insert_eq.
Qed.

Lemma remove_post s c cl :
  wf s → clients s !! c = Some cl →
  is_Some (Cells.min (Client.cells cl)) → is_Some (Cells.max (Client.cells cl)) →
  ∃ s', SpatialHashGrid.remove c s = Return tt s' ∧ wf s' ∧
        size (heads s') = size (heads s) ∧ grid_frame (grid s) (grid s') ∧
        clients s' = <[c := Client.set_cells (Cells.mk None None None) cl]> (clients s).
Proof.
  intros Hwf Hc [i1 Hmin] [i2 Hmax].
  destruct (inserted_client s c cl i1 i2 Hwf Hc Hmin Hmax) as (ns & Hcells & _).
  destruct (remove_spec s c cl i1 i2 ns Hwf Hc Hcells) as (t & Hrem & Hrun).
  eexists. split; [exact Hrun|]. split; [by eapply removed_wf|].
  split; [exact (removed_size _ _ _ _ _ Hrem)|].
  destruct Hrem as (Hf & Hcl & _). split; [exact Hf|].
  unfold without_span. simpl. by apply alter_alt_Some.
Qed.

Lemma insert_post s c cl :
  wf s → clients s !! c = Some cl → Client.cells cl = Cells.mk None None None →
  ∃ s' ns, SpatialHashGrid.insert c s = Return tt s' ∧ wf s' ∧
        (size (heads s) ≤ size (heads s'))%nat ∧ grid_frame (grid s) (grid s') ∧
        clients s' = <[c := Client.set_cells
                              (Cells.mk (Some (fst (span_of (grid s) cl)))
                                        (Some (snd (span_of (grid s) cl))) (Some ns)) cl]>
                       (clients s).
Proof.
  intros Hwf Hc Hnone.
  destruct (insert_spec s c cl Hwf Hc) as (ns & t & Hins & Hrun).
  eexists _, ns. split; [exact Hrun|].
  destruct (span_in_grid s cl Hwf). split; [by eapply inserted_wf|].
  destruct Hins as (Hf & Hcl & Ho & _). split_and!.
  - apply (owners_kept_size _ _ Ho).
  - exact Hf.
  - unfold with_span. simpl. by apply alter_alt_Some.
Qed.

Lemma grid_frame_span g g' cl : grid_frame g g' → span_of g' cl = span_of g cl.
Proof. intros (Hd & Hb & _). by apply span_of_ext. Qed.

Lemma updateClient_post s c cl :
  wf s → clients s !! c = Some cl →
  is_Some (Cells.min (Client.cells cl)) → is_Some (Cells.max (Client.cells cl)) →
  ∃ s' cs,
    SpatialHashGrid.updateClient c s = Return tt s' ∧ wf s' ∧
    (size (heads s) ≤ size (heads s'))%nat ∧ grid_frame (grid s) (grid s') ∧
    clients s' = <[c := Client.set_cells cs cl]> (clients s) ∧
    Cells.min cs = Some (fst (span_of (grid s) cl)) ∧
    Cells.max cs = Some (snd (span_of (grid s) cl)).
Proof.
  intros Hwf Hc Hmin Hmax.
  destruct (remove_post s c cl Hwf Hc Hmin Hmax) as (s1 & Hrun1 & Hwf1 & Hsz1 & Hf1 & Hcl1).
  set (cl1 := Client.set_cells (Cells.mk None None None) cl) in *.
  assert (clients s1 !! c = Some cl1) as Hc1 by (by rewrite Hcl1, lookup_insert_eq).
  destruct (insert_post s1 c cl1 Hwf1 Hc1 eq_refl) as (s2 & ns & Hrun2 & Hwf2 & Hsz2 & Hf2 & Hcl2).
  destruct Hmin as [i1 Hmin], Hmax as [i2 Hmax].
  unfold SpatialHashGrid.updateClient.
  erewrite bind_Return by (by apply read_client_run).
  rewrite Hmin, Hmax. erewrite bind_Return by reflexivity.
  case_decide as E.
  - exists s, (Client.cells cl). split; [done|]. split; [done|]. split; [done|].
    split; [apply grid_frame_refl|]. destruct E as [E1 E2]. split_and!.
    + destruct cl. simpl. by rewrite insert_id.
    + by rewrite Hmin, E1.
    + by rewrite Hmax, E2.
  - erewrite bind_Return by exact Hrun1. rewrite Hrun2.
    exists s2, (Cells.mk (Some (fst (span_of (grid s) cl)))
                         (Some (snd (span_of (grid s) cl))) (Some ns)).
    split; [done|]. split; [done|]. split; [lia|].
    split; [by eapply grid_frame_trans|].
    rewrite (grid_frame_span _ _ cl1 Hf1) in Hcl2.
    split_and!; [|reflexivity..].
    rewrite Hcl2, Hcl1, insert_insert_eq. reflexivity.
Qed.

(** ** Properties of the grid *)

Lemma grid16_AB_reachable : reachable grid16_AB.
Proof.
  apply (reach_newClient (8.4, 8.4)%Q (1, 1)%Q None grid16_A 1%nat); [|vm_compute; reflexivity].
  apply (reach_newClient (8, 8)%Q (1, 1)%Q None grid16 0%nat); [|vm_compute; reflexivity].
  apply (reach_new ((0, 0), (16, 16))%Q (16, 16) empty_store);
    [simpl; lia|simpl; lia|by intros ?|by intros ?|reflexivity|vm_compute; reflexivity].
Qed.

Lemma grid16_AB_ordered : bounds_ordered (grid grid16_AB).
Proof. split; by vm_compute. Qed.

Lemma owners_NoDup h l :
  NoDup l → (∀ r, r ∈ l → is_Some (h !! r)) →
  (∀ r r' n n', r ∈ l → r' ∈ l → h !! r = Some n → h !! r' = Some n' →
                Head.client n = Head.client n' → r = r') →
  NoDup (owners h l) ∧ length (owners h l) = length l.
Proof.
  induction l as [|a l IH]; intros Hnd Hsome Hinj; simpl.
  - split; [apply NoDup_nil_2|done].
  - apply NoDup_cons in Hnd as [Hnin Hnd].
    destruct (Hsome a) as [n Hn]; [apply list_elem_of_here|].
    destruct IH as [IH1 IH2]; [done| | |].
    { intros r Hr. apply Hsome. by apply list_elem_of_further. }
    { intros r r' m m' Hr Hr'. apply Hinj; by apply list_elem_of_further. }
    unfold owners in *. simpl. rewrite Hn. simpl. split; [|by rewrite IH2].
    apply NoDup_cons. split; [|done]. intros Hin.
    apply (elem_of_owners h l) in Hin as (r & m & Hr & Hm & Hc).
    assert (r = a) as ->; [|done].
    eapply Hinj; [by apply list_elem_of_further|apply list_elem_of_here|done..].
Qed.

(** X1. On a grid that the constructor has just set up (at least one cell
    per axis, bounds with distinct ends, no client known to the store) every
    cell is empty, and [findNear] returns the empty array for every
    position and extent. *)
Theorem fresh_grid_finds_nothing bounds dimensions s fuel position extent :
  1 ≤ fst dimensions → 1 ≤ snd dimensions →
  ¬ (fst (snd bounds) == fst (fst bounds))%Q →
  ¬ (snd (snd bounds) == snd (fst bounds))%Q →
  clients s = ∅ → (size (heads s) ≤ fuel)%nat →
  ∃ s1 s2,
    SpatialHashGrid.new bounds dimensions s = Return tt s1 ∧
    (∀ x y, cell_head s1 x y = None) ∧
    SpatialHashGrid.findNear fuel position extent s1 = Return [] s2.
Proof.
  intros Hx Hy Hbx Hby Hcl Hfuel.
  destruct (new_wf bounds dimensions s Hx Hy Hbx Hby Hcl) as (s1 & Hrun & Hwf & Hh & Hcl1).
  assert (∀ c x y, ¬ covers s1 c x y) as Hnone.
  { intros c x y (cl & _ & _ & Hc & _). by rewrite Hcl1, lookup_empty in Hc. }
  rewrite <- Hh in Hfuel.
  destruct (findNear_members s1 position extent fuel Hwf Hfuel)
    as (found & s2 & Hrun2 & _ & _ & Hmem).
  exists s1, s2. split; [exact Hrun|]. split.
  - intros x y. destruct (wf_lists s1 Hwf x y) as [l Hl].
    rewrite (dll_head _ _ _ _ Hl). destruct l as [|r l]; [done|]. exfalso.
    destruct (wf_linked s1 Hwf x y (r :: l) r Hl) as (n & cl & _ & _ & _ & _ & Hc & _);
      [apply list_elem_of_here|].
    by rewrite Hcl1, lookup_empty in Hc.
  - rewrite Hrun2. f_equal. destruct found as [|c found]; [done|]. exfalso.
    destruct (proj1 (Hmem c)) as (x & y & _ & Hc); [apply list_elem_of_here|].
    by apply (Hnone c x y).
Qed.

Lemma fresh_grid_finds_nothing_witness :
  ∃ s1 s2,
    SpatialHashGrid.new ((0, 0), (16, 16))%Q (16, 16) empty_store = Return tt s1 ∧
    (∀ x y, cell_head s1 x y = None) ∧
    SpatialHashGrid.findNear 0 (8, 8)%Q (1, 1)%Q s1 = Return [] s2.
Proof.
  apply (fresh_grid_finds_nothing ((0, 0), (16, 16))%Q (16, 16) empty_store 0%nat
           (8, 8)%Q (1, 1)%Q);
    [simpl; lia|simpl; lia|by intros ?|by intros ?|reflexivity|vm_compute; lia].
Defined.

(** X2. In every store reached through the constructor, [newClient],
    [remove], [updateClient], [findNear] and assignments to
    [client.position], every cell holds a finite list of nodes whose
    clients are pairwise distinct, and these are exactly the clients whose
    stored span covers the cell. *)
Theorem cells_hold_the_covering_clients s x y :
  reachable s →
  ∃ l, bucket s x y l ∧
       NoDup (owners (heads s) l) ∧ length (owners (heads s) l) = length l ∧
       ∀ c, c ∈ owners (heads s) l ↔ covers s c x y.
Proof.
  intros Hwf%reachable_wf. destruct (wf_lists s Hwf x y) as [l Hl].
  exists l. split; [done|].
  assert (NoDup (owners (heads s) l) ∧ length (owners (heads s) l) = length l) as [H1 H2].
  { apply owners_NoDup.
    - by eapply dll_NoDup.
    - intros r Hr. by eapply dll_lookup.
    - intros r r' n n' Hr Hr' Hn Hn' Hc.
      destruct (wf_linked s Hwf x y l r Hl Hr)
        as (m & cl & i1 & i2 & ns & Hm & Hcl & Hcs & _ & Hat).
      destruct (wf_linked s Hwf x y l r' Hl Hr')
        as (m' & cl' & i1' & i2' & ns' & Hm' & Hcl' & Hcs' & _ & Hat').
      rewrite Hn in Hm. injection Hm as <-. rewrite Hn' in Hm'. injection Hm' as <-.
      rewrite <- Hc, Hcl in Hcl'. injection Hcl' as <-.
      rewrite Hcs in Hcs'. injection Hcs' as <- <- <-. congruence. }
  split; [done|]. split; [done|]. intros c.
  rewrite elem_of_owners. apply (covers_owned s x y l c Hwf Hl).
Qed.

Lemma cells_hold_the_covering_clients_witness :
  reachable grid16_AB ∧
  ∃ l, bucket grid16_AB 7 7 l ∧
       NoDup (owners (heads grid16_AB) l) ∧
       length (owners (heads grid16_AB) l) = length l ∧
       ∀ c, c ∈ owners (heads grid16_AB) l ↔ covers grid16_AB c 7 7.
Proof.
  split; [exact grid16_AB_reachable|].
  exact (cells_hold_the_covering_clients grid16_AB 7 7 grid16_AB_reachable).
Defined.

(** X3. [findNear] returns the clients in the order in which its loops meet
    them, each at its first occurrence: columns by increasing [x], within a
    column the cells by increasing [y], within a cell from the head of the
    list (the client inserted last) on. *)
Theorem findNear_order s position bounds fuel :
  wf s → (size (heads s) ≤ fuel)%nat →
  ∃ s', SpatialHashGrid.findNear fuel position bounds s
        = Return (sweep [] (traversal s (fst (query_rect (grid s) position bounds))
                                        (snd (query_rect (grid s) position bounds)))) s'.
Proof.
  intros Hwf Hfuel.
  destruct (findNear_sweep s position bounds fuel Hwf Hfuel) as (t & Hrun & _). by exists t.
Qed.

Lemma findNear_order_witness :
  (wf grid16_AB ∧ (size (heads grid16_AB) ≤ 5)%nat) ∧
  sweep [] (traversal grid16_AB (fst (query_rect (grid grid16_AB) (8, 8)%Q (1, 1)%Q))
                                (snd (query_rect (grid grid16_AB) (8, 8)%Q (1, 1)%Q)))
    = [1%nat; 0%nat] ∧
  ∃ s', SpatialHashGrid.findNear 5 (8, 8)%Q (1, 1)%Q grid16_AB
        = Return (sweep [] (traversal grid16_AB
                              (fst (query_rect (grid grid16_AB) (8, 8)%Q (1, 1)%Q))
                              (snd (query_rect (grid grid16_AB) (8, 8)%Q (1, 1)%Q)))) s'.
Proof.
  assert (size (heads grid16_AB) ≤ 5)%nat as Hsize by (vm_compute; lia).
  split; [split; [exact grid16_AB_wf|exact Hsize]|].
  split; [vm_compute; reflexivity|].
  exact (findNear_order grid16_AB (8, 8)%Q (1, 1)%Q 5%nat grid16_AB_wf Hsize).
Defined.

(** X4. [findNear] writes nothing but the query counter, which goes up by
    one, and the [_queryId] of the clients it returns, which becomes the
    counter's old value: nodes, cells, spans, positions and dimensions are
    as before. *)
Theorem findNear_only_stamps s position bounds fuel :
  wf s → (size (heads s) ≤ fuel)%nat →
  ∃ found s',
    SpatialHashGrid.findNear fuel position bounds s = Return found s' ∧
    heads s' = heads s ∧
    grid s' = Grid.set_queryIds (Grid.queryIds (grid s) + 1) (grid s) ∧
    ∀ c, clients s' !! c =
         (fun cl => if decide (c ∈ found)
                    then Client.set_queryId (Grid.queryIds (grid s)) cl else cl)
           <$> clients s !! c.
Proof.
  intros Hwf Hfuel.
  destruct (findNear_spec s position bounds fuel Hwf Hfuel)
    as (found & t & Hrun & (Hh & Hg & _ & Hcl) & _).
  by exists found, t.
Qed.

Lemma findNear_only_stamps_witness :
  (wf grid16_AB ∧ (size (heads grid16_AB) ≤ 5)%nat) ∧
  ∃ found s',
    SpatialHashGrid.findNear 5 (8, 8)%Q (1, 1)%Q grid16_AB = Return found s' ∧
    heads s' = heads grid16_AB ∧
    grid s' = Grid.set_queryIds (Grid.queryIds (grid grid16_AB) + 1) (grid grid16_AB) ∧
    ∀ c, clients s' !! c =
         (fun cl => if decide (c ∈ found)
                    then Client.set_queryId (Grid.queryIds (grid grid16_AB)) cl else cl)
           <$> clients grid16_AB !! c.
Proof.
  assert (size (heads grid16_AB) ≤ 5)%nat as Hsize by (vm_compute; lia).
  split; [split; [exact grid16_AB_wf|exact Hsize]|].
  exact (findNear_only_stamps grid16_AB (8, 8)%Q (1, 1)%Q 5%nat grid16_AB_wf Hsize).
Defined.

(** X5. Asking the same question twice in a row gives the same answer: the
    second [findNear] returns the same clients in the same order, although
    the first one has stamped them. *)
Theorem findNear_repeatable s position bounds fuel :
  wf s → (size (heads s) ≤ fuel)%nat →
  ∃ found s1 s2,
    SpatialHashGrid.findNear fuel position bounds s = Return found s1 ∧
    SpatialHashGrid.findNear fuel position bounds s1 = Return found s2.
Proof.
  intros Hwf Hfuel.
  destruct (findNear_sweep s position bounds fuel Hwf Hfuel) as (s1 & Hrun1 & Hst).
  pose proof (findNear_wf s _ s1 Hwf Hst) as Hwf1.
  destruct Hst as (Hh & Hg & _).
  destruct (findNear_sweep s1 position bounds fuel Hwf1) as (s2 & Hrun2 & _);
    [by rewrite Hh|].
  eexists _, s1, s2. split; [exact Hrun1|]. rewrite Hrun2. f_equal. f_equal.
  rewrite (query_rect_ext (grid s) (grid s1)) by (by rewrite Hg).
  apply traversal_ext; [done|by rewrite Hg].
Qed.

Lemma findNear_repeatable_witness :
  (wf grid16_AB ∧ (size (heads grid16_AB) ≤ 5)%nat) ∧
  ∃ found s1 s2,
    SpatialHashGrid.findNear 5 (8, 8)%Q (1, 1)%Q grid16_AB = Return found s1 ∧
    SpatialHashGrid.findNear 5 (8, 8)%Q (1, 1)%Q s1 = Return found s2.
Proof.
  assert (size (heads grid16_AB) ≤ 5)%nat as Hsize by (vm_compute; lia).
  split; [split; [exact grid16_AB_wf|exact Hsize]|].
  exact (findNear_repeatable grid16_AB (8, 8)%Q (1, 1)%Q 5%nat grid16_AB_wf Hsize).
Defined.

(** ** Queries against world rectangles *)

Ltac half_lra := unfold Qdiv; change (/ 2)%Q with (1 # 2)%Q; lra.

Lemma corners_le (p d : Q) : (0 <= d)%Q → (p - d / 2 <= p + d / 2)%Q.
Proof. intros Hd. half_lra. Qed.

Lemma meeting_footprints_overlap g p d p' d' :
  1 ≤ fst (Grid.dimensions g) → 1 ≤ snd (Grid.dimensions g) → bounds_ordered g →
  (0 <= fst d)%Q → (0 <= snd d)%Q → (0 <= fst d')%Q → (0 <= snd d')%Q →
  footprints_meet p d p' d' →
  overlaps (SpatialHashGrid.getCellIndex g (SpatialHashGrid.lowCorner p d),
            SpatialHashGrid.getCellIndex g (SpatialHashGrid.highCorner p d))
           (query_rect g p' d').
Proof.
  intros Hnx Hny [Hbx Hby] Hdx Hdy Hdx' Hdy' (H1 & H2 & H3 & H4).
  unfold overlaps, query_rect, in_rect, SpatialHashGrid.getCellIndex. simpl in *.
  set (X := SpatialHashGrid.axisIndex (fst (fst (Grid.bounds g))) (fst (snd (Grid.bounds g)))
              (fst (Grid.dimensions g))).
  set (Y := SpatialHashGrid.axisIndex (snd (fst (Grid.bounds g))) (snd (snd (Grid.bounds g)))
              (snd (Grid.dimensions g))).
  assert (∀ a b, (a <= b)%Q → X a ≤ X b) as HX by (intros; by apply axisIndex_mono).
  assert (∀ a b, (a <= b)%Q → Y a ≤ Y b) as HY by (intros; by apply axisIndex_mono).
  pose proof (HX _ _ (corners_le (fst p) (fst d) Hdx)).
  pose proof (HX _ _ (corners_le (fst p') (fst d') Hdx')).
  pose proof (HY _ _ (corners_le (snd p) (snd d) Hdy)).
  pose proof (HY _ _ (corners_le (snd p') (snd d') Hdy')).
  pose proof (HX _ _ H1). pose proof (HX _ _ H2).
  pose proof (HY _ _ H3). pose proof (HY _ _ H4).
  exists (Z.max (X (fst p - fst d / 2)%Q) (X (fst p' - fst d' / 2)%Q)),
         (Z.max (Y (snd p - snd d / 2)%Q) (Y (snd p' - snd d' / 2)%Q)).
  lia.
Qed.

Lemma footprints_meet_refl p d d' :
  (0 <= fst d)%Q → (0 <= snd d)%Q → (0 <= fst d')%Q → (0 <= snd d')%Q →
  footprints_meet p d p d'.
Proof.
  intros Hdx Hdy Hdx' Hdy'. unfold footprints_meet. simpl. split_and!; half_lra.
Qed.

(** X6. No false negatives: with bounds that run from a smaller to a larger
    coordinate, a client whose stored span is the one of its position and
    (non-negative) dimensions is returned by every [findNear] whose
    rectangle, of non-negative extent, shares a point with the client's
    rectangle. *)
Theorem findNear_no_false_negative s c cl position bounds fuel :
  wf s → bounds_ordered (grid s) → (size (heads s) ≤ fuel)%nat →
  clients s !! c = Some cl → coherent (grid s) cl →
  (0 <= fst (Client.dimensions cl))%Q → (0 <= snd (Client.dimensions cl))%Q →
  (0 <= fst bounds)%Q → (0 <= snd bounds)%Q →
  footprints_meet (Client.position cl) (Client.dimensions cl) position bounds →
  ∃ found s', SpatialHashGrid.findNear fuel position bounds s = Return found s' ∧
              c ∈ found.
Proof.
  intros Hwf Hord Hfuel Hc [Hmin Hmax] Hdx Hdy Hbx Hby Hmeet.
  destruct (findNear_members s position bounds fuel Hwf Hfuel)
    as (found & t & Hrun & _ & _ & Hmem).
  exists found, t. split; [done|]. apply Hmem.
  destruct (wf_grid s Hwf) as (Hnx & Hny & _).
  destruct (meeting_footprints_overlap (grid s) _ _ _ _ Hnx Hny Hord Hdx Hdy Hbx Hby Hmeet)
    as (x & y & Hin & Hq).
  exists x, y. split; [exact Hq|]. by exists cl, (fst (span_of (grid s) cl)), (snd (span_of (grid s) cl)).
Qed.

Lemma findNear_no_false_negative_witness :
  ∃ cl, (wf grid16_AB ∧ bounds_ordered (grid grid16_AB) ∧
         (size (heads grid16_AB) ≤ 5)%nat ∧
         clients grid16_AB !! 1%nat = Some cl ∧ coherent (grid grid16_AB) cl ∧
         footprints_meet (Client.position cl) (Client.dimensions cl) (9, 9)%Q (1, 1)%Q) ∧
        ∃ found s', SpatialHashGrid.findNear 5 (9, 9)%Q (1, 1)%Q grid16_AB
                    = Return found s' ∧ (1%nat) ∈ found.
Proof.
  assert (size (heads grid16_AB) ≤ 5)%nat as Hsize by (vm_compute; lia).
  eexists.
  assert (clients grid16_AB !! 1%nat
          = Some (Client.mk (8.4, 8.4)%Q (1, 1)%Q
                    (Cells.mk (Some (7, 7)) (Some (8, 8)) (Some [[1; 2]; [3; 4]]%nat))
                    (-1) None)) as Hc by (vm_compute; reflexivity).
  assert (coherent (grid grid16_AB)
            (Client.mk (8.4, 8.4)%Q (1, 1)%Q
               (Cells.mk (Some (7, 7)) (Some (8, 8)) (Some [[1; 2]; [3; 4]]%nat))
               (-1) None)) as Hcoh by (split; vm_compute; reflexivity).
  assert (footprints_meet (8.4, 8.4)%Q (1, 1)%Q (9, 9)%Q (1, 1)%Q) as Hmeet
    by (unfold footprints_meet; split_and!; by vm_compute).
  split; [split_and!; [exact grid16_AB_wf|exact grid16_AB_ordered|exact Hsize
                      |exact Hc|exact Hcoh|exact Hmeet]|].
  apply (findNear_no_false_negative grid16_AB 1%nat _ (9, 9)%Q (1, 1)%Q 5%nat
           grid16_AB_wf grid16_AB_ordered Hsize Hc Hcoh);
    [by vm_compute|by vm_compute|by vm_compute|by vm_compute|exact Hmeet].
Defined.

(** ** How the operations compose with queries *)

Lemma covers_insert s s' c cl c' x y :
  clients s' = <[c := cl]> (clients s) → c' ≠ c → (covers s' c' x y ↔ covers s c' x y).
Proof.
  intros Hcl Hne. unfold covers. by rewrite Hcl, lookup_insert_ne.
Qed.

Lemma covers_inserted s' (m : gmap cref Client.t) c cl i1 i2 x y :
  clients s' = <[c := cl]> m →
  Cells.min (Client.cells cl) = Some i1 → Cells.max (Client.cells cl) = Some i2 →
  (covers s' c x y ↔ in_rect i1 i2 x y).
Proof.
  intros Hcl Hmin Hmax. unfold covers. rewrite Hcl, lookup_insert_eq. split.
  - intros (cl' & j1 & j2 & [= <-] & Hj1 & Hj2 & Hr). congruence.
  - intros Hr. by exists cl, i1, i2.
Qed.

(** X7. A client created by [newClient] with non-negative dimensions, in a
    grid whose bounds run from a smaller to a larger coordinate, is returned
    by [findNear] at its own position with its own dimensions. *)
Theorem newClient_then_findNear s position dimensions metadata :
  wf s → bounds_ordered (grid s) →
  (0 <= fst dimensions)%Q → (0 <= snd dimensions)%Q →
  ∃ c s',
    SpatialHashGrid.newClient position dimensions metadata s = Return c s' ∧
    ∀ fuel, (size (heads s') ≤ fuel)%nat →
      ∃ found s'', SpatialHashGrid.findNear fuel position dimensions s' = Return found s'' ∧
                   c ∈ found.
Proof.
  intros Hwf Hord Hdx Hdy.
  destruct (newClient_post s position dimensions metadata Hwf)
    as (c & s' & ns & Hrun & Hwf' & Hfresh & _ & Hf & Hcl).
  exists c, s'. split; [exact Hrun|]. intros fuel Hfuel.
  destruct (findNear_members s' position dimensions fuel Hwf' Hfuel)
    as (found & t & Hrun' & _ & _ & Hmem).
  exists found, t. split; [done|]. apply Hmem.
  destruct (wf_grid s Hwf) as (Hnx & Hny & _).
  destruct (meeting_footprints_overlap (grid s) position dimensions position dimensions
              Hnx Hny Hord Hdx Hdy Hdx Hdy) as (x & y & Hin & Hq).
  { by apply footprints_meet_refl. }
  exists x, y. destruct Hf as (Hd & Hb & _).
  rewrite (query_rect_ext (grid s) (grid s')) by done. split; [exact Hq|].
  eapply covers_inserted; [exact Hcl|reflexivity|reflexivity|exact Hin].
Qed.

Lemma newClient_then_findNear_witness :
  (wf grid16_AB ∧ bounds_ordered (grid grid16_AB)) ∧
  ∃ c s',
    SpatialHashGrid.newClient (3, 12)%Q (2, 2)%Q None grid16_AB = Return c s' ∧
    ∀ fuel, (size (heads s') ≤ fuel)%nat →
      ∃ found s'', SpatialHashGrid.findNear fuel (3, 12)%Q (2, 2)%Q s' = Return found s'' ∧
                   c ∈ found.
Proof.
  split; [split; [exact grid16_AB_wf|exact grid16_AB_ordered]|].
  apply (newClient_then_findNear grid16_AB (3, 12)%Q (2, 2)%Q None
           grid16_AB_wf grid16_AB_ordered); by vm_compute.
Defined.

(** X8. [newClient] changes the answer of a query by at most the new
    client: every [findNear] returns the clients it returned before, plus
    the new client exactly when its span shares a cell with the query's cell
    rectangle. *)
Theorem newClient_adds_one_client s position dimensions metadata qposition qbounds fuel :
  wf s →
  ∃ c s',
    SpatialHashGrid.newClient position dimensions metadata s = Return c s' ∧
    clients s !! c = None ∧
    ((size (heads s') ≤ fuel)%nat →
     ∃ before t after t',
       SpatialHashGrid.findNear fuel qposition qbounds s = Return before t ∧
       SpatialHashGrid.findNear fuel qposition qbounds s' = Return after t' ∧
       ∀ c', c' ∈ after ↔
             c' ∈ before ∨
             (c' = c ∧
              overlaps (SpatialHashGrid.getCellIndex (grid s)
                          (SpatialHashGrid.lowCorner position dimensions),
                        SpatialHashGrid.getCellIndex (grid s)
                          (SpatialHashGrid.highCorner position dimensions))
                       (query_rect (grid s) qposition qbounds))).
Proof.
  intros Hwf.
  destruct (newClient_post s position dimensions metadata Hwf)
    as (c & s' & ns & Hrun & Hwf' & Hfresh & Hsz & Hf & Hcl).
  exists c, s'. split; [exact Hrun|]. split; [exact Hfresh|]. intros Hfuel.
  destruct (findNear_members s qposition qbounds fuel Hwf) as (f1 & t1 & Hrun1 & _ & _ & Hm1);
    [lia|].
  destruct (findNear_members s' qposition qbounds fuel Hwf' Hfuel)
    as (f2 & t2 & Hrun2 & _ & _ & Hm2).
  exists f1, t1, f2, t2. split; [done|]. split; [done|]. intros c'.
  destruct Hf as (Hd & Hb & _).
  rewrite Hm2, Hm1, (query_rect_ext (grid s) (grid s')) by done.
  destruct (decide (c' = c)) as [->|Hne].
  - split.
    + intros (x & y & Hq & Hc). right. split; [done|]. exists x, y. split; [|done].
      eapply covers_inserted; [exact Hcl|reflexivity|reflexivity|exact Hc].
    + intros [(x & y & _ & cl & _ & _ & Hc & _)|[_ (x & y & Hin & Hq)]]; [congruence|].
      exists x, y. split; [done|].
      eapply covers_inserted; [exact Hcl|reflexivity|reflexivity|exact Hin].
  - split.
    + intros (x & y & Hq & Hc). left. exists x, y. split; [done|].
      by apply (covers_insert s s' c _ c' x y Hcl Hne).
    + intros [(x & y & Hq & Hc)|[? _]]; [|done]. exists x, y. split; [done|].
      by apply (covers_insert s s' c _ c' x y Hcl Hne).
Qed.

Lemma newClient_adds_one_client_witness :
  wf grid16_AB ∧
  ∃ c s',
    SpatialHashGrid.newClient (3, 12)%Q (2, 2)%Q None grid16_AB = Return c s' ∧
    clients grid16_AB !! c = None ∧
    ((size (heads s') ≤ 20)%nat →
     ∃ before t after t',
       SpatialHashGrid.findNear 20 (8, 8)%Q (1, 1)%Q grid16_AB = Return before t ∧
       SpatialHashGrid.findNear 20 (8, 8)%Q (1, 1)%Q s' = Return after t' ∧
       ∀ c', c' ∈ after ↔
             c' ∈ before ∨
             (c' = c ∧
              overlaps (SpatialHashGrid.getCellIndex (grid grid16_AB)
                          (SpatialHashGrid.lowCorner (3, 12)%Q (2, 2)%Q),
                        SpatialHashGrid.getCellIndex (grid grid16_AB)
                          (SpatialHashGrid.highCorner (3, 12)%Q (2, 2)%Q))
                       (query_rect (grid grid16_AB) (8, 8)%Q (1, 1)%Q))).
Proof.
  split; [exact grid16_AB_wf|].
  exact (newClient_adds_one_client grid16_AB (3, 12)%Q (2, 2)%Q None (8, 8)%Q (1, 1)%Q 20%nat
           grid16_AB_wf).
Defined.

(** X9. [remove] takes exactly one client out of every answer: on an
    inserted client it returns, and afterwards every [findNear] returns the
    clients it returned before except the removed one. *)
Theorem remove_takes_one_client s c cl position bounds fuel :
  wf s → clients s !! c = Some cl →
  is_Some (Cells.min (Client.cells cl)) → is_Some (Cells.max (Client.cells cl)) →
  (size (heads s) ≤ fuel)%nat →
  ∃ s' before t after t',
    SpatialHashGrid.remove c s = Return tt s' ∧
    SpatialHashGrid.findNear fuel position bounds s = Return before t ∧
    SpatialHashGrid.findNear fuel position bounds s' = Return after t' ∧
    ∀ c', c' ∈ after ↔ c' ∈ before ∧ c' ≠ c.
Proof.
  intros Hwf Hc Hmin Hmax Hfuel.
  destruct (remove_post s c cl Hwf Hc Hmin Hmax) as (s' & Hrun & Hwf' & Hsz & Hf & Hcl).
  destruct (findNear_members s position bounds fuel Hwf Hfuel)
    as (f1 & t1 & Hrun1 & _ & _ & Hm1).
  destruct (findNear_members s' position bounds fuel Hwf') as (f2 & t2 & Hrun2 & _ & _ & Hm2);
    [lia|].
  exists s', f1, t1, f2, t2. split; [done|]. split; [done|]. split; [done|]. intros c'.
  destruct Hf as (Hd & Hb & _).
  rewrite Hm2, Hm1, (query_rect_ext (grid s) (grid s')) by done.
  destruct (decide (c' = c)) as [->|Hne].
  - split; [|by intros [_ ?]].
    intros (x & y & _ & cl' & i1 & i2 & Hc' & Hi1 & _). exfalso.
    rewrite Hcl, lookup_insert_eq in Hc'. by injection Hc' as <-.
  - split.
    + intros (x & y & Hq & Hcov). split; [|done]. exists x, y. split; [done|].
      by apply (covers_insert s s' c _ c' x y Hcl Hne).
    + intros [(x & y & Hq & Hcov) _]. exists x, y. split; [done|].
      by apply (covers_insert s s' c _ c' x y Hcl Hne).
Qed.

Lemma remove_takes_one_client_witness :
  ∃ cl, (wf grid16_AB ∧ clients grid16_AB !! 1%nat = Some cl ∧
         is_Some (Cells.min (Client.cells cl)) ∧ is_Some (Cells.max (Client.cells cl)) ∧
         (size (heads grid16_AB) ≤ 5)%nat) ∧
        ∃ s' before t after t',
          SpatialHashGrid.remove 1%nat grid16_AB = Return tt s' ∧
          SpatialHashGrid.findNear 5 (8, 8)%Q (1, 1)%Q grid16_AB = Return before t ∧
          SpatialHashGrid.findNear 5 (8, 8)%Q (1, 1)%Q s' = Return after t' ∧
          ∀ c', c' ∈ after ↔ c' ∈ before ∧ c' ≠ 1%nat.
Proof.
  assert (size (heads grid16_AB) ≤ 5)%nat as Hsize by (vm_compute; lia).
  eexists.
  assert (clients grid16_AB !! 1%nat
          = Some (Client.mk (8.4, 8.4)%Q (1, 1)%Q
                    (Cells.mk (Some (7, 7)) (Some (8, 8)) (Some [[1; 2]; [3; 4]]%nat))
                    (-1) None)) as Hc by (vm_compute; reflexivity).
  split; [split_and!; [exact grid16_AB_wf|exact Hc|by eexists|by eexists|exact Hsize]|].
  apply (remove_takes_one_client grid16_AB 1%nat _ (8, 8)%Q (1, 1)%Q 5%nat
           grid16_AB_wf Hc); [by eexists|by eexists|exact Hsize].
Defined.

(** X10. [updateClient] on an inserted client returns, keeps the store well
    formed and leaves the client with the span of its current position and
    dimensions, whether it had to move the client or not; position,
    dimensions, stamp and metadata of the client and all other client
    records are as before. *)
Theorem updateClient_refreshes_span s c cl :
  wf s → clients s !! c = Some cl →
  is_Some (Cells.min (Client.cells cl)) → is_Some (Cells.max (Client.cells cl)) →
  ∃ s' cl',
    SpatialHashGrid.updateClient c s = Return tt s' ∧ wf s' ∧
    clients s' !! c = Some cl' ∧ coherent (grid s') cl' ∧
    Client.position cl' = Client.position cl ∧
    Client.dimensions cl' = Client.dimensions cl ∧
    Client._queryId cl' = Client._queryId cl ∧
    Client.metadata cl' = Client.metadata cl ∧
    ∀ c', c' ≠ c → clients s' !! c' = clients s !! c'.
Proof.
  intros Hwf Hc Hmin Hmax.
  destruct (updateClient_post s c cl Hwf Hc Hmin Hmax)
    as (s' & cs & Hrun & Hwf' & _ & Hf & Hcl & Hmin' & Hmax').
  exists s', (Client.set_cells cs cl). split; [done|]. split; [done|].
  split; [by rewrite Hcl, lookup_insert_eq|]. split.
  - unfold coherent. rewrite (grid_frame_span _ _ _ Hf). simpl.
    split; [exact Hmin'|exact Hmax'].
  - split_and!; [reflexivity..|]. intros c' Hne. by rewrite Hcl, lookup_insert_ne.
Qed.

Lemma updateClient_refreshes_span_witness :
  ∃ cl, (wf grid16_AB ∧ clients grid16_AB !! 1%nat = Some cl ∧
         is_Some (Cells.min (Client.cells cl)) ∧ is_Some (Cells.max (Client.cells cl))) ∧
        ∃ s' cl',
          SpatialHashGrid.updateClient 1%nat grid16_AB = Return tt s' ∧ wf s' ∧
          clients s' !! 1%nat = Some cl' ∧ coherent (grid s') cl' ∧
          Client.position cl' = Client.position cl ∧
          Client.dimensions cl' = Client.dimensions cl ∧
          Client._queryId cl' = Client._queryId cl ∧
          Client.metadata cl' = Client.metadata cl ∧
          ∀ c', c' ≠ 1%nat → clients s' !! c' = clients grid16_AB !! c'.
Proof.
  eexists.
  assert (clients grid16_AB !! 1%nat
          = Some (Client.mk (8.4, 8.4)%Q (1, 1)%Q
                    (Cells.mk (Some (7, 7)) (Some (8, 8)) (Some [[1; 2]; [3; 4]]%nat))
                    (-1) None)) as Hc by (vm_compute; reflexivity).
  split; [split_and!; [exact grid16_AB_wf|exact Hc|by eexists|by eexists]|].
  apply (updateClient_refreshes_span grid16_AB 1%nat _ grid16_AB_wf Hc); by eexists.
Defined.

(** ** The index mapping in world coordinates *)

Lemma sat_zero (v : Q) : (v <= 0)%Q → (math.sat v == 0)%Q.
Proof.
  intros H. unfold math.sat. rewrite (Q.max_r v 0) by done. by apply Q.min_l.
Qed.

Lemma extent_pos (lo hi : Q) : (lo < hi)%Q → (0 < hi - lo)%Q.
Proof. intros H. lra. Qed.

Lemma axisIndex_low lo hi n (p : Q) :
  (lo < hi)%Q → (p <= lo)%Q → SpatialHashGrid.axisIndex lo hi n p = 0.
Proof.
  intros Hlh Hp. unfold SpatialHashGrid.axisIndex, SpatialHashGrid.indexOf.
  assert ((p - lo) / (hi - lo) <= 0)%Q as Hv.
  { apply Qle_shift_div_r; [by apply extent_pos|]. lra. }
  rewrite (sat_zero _ Hv), Qmult_0_l. reflexivity.
Qed.

Lemma axisIndex_high lo hi n (p : Q) :
  (lo < hi)%Q → (hi <= p)%Q → SpatialHashGrid.axisIndex lo hi n p = n - 1.
Proof.
  intros Hlh Hp. unfold SpatialHashGrid.axisIndex, SpatialHashGrid.indexOf.
  assert (1 <= (p - lo) / (hi - lo))%Q as Hv.
  { apply Qle_shift_div_l; [by apply extent_pos|]. lra. }
  rewrite (sat_one _ Hv), Qmult_1_l. apply Qfloor_Z.
Qed.


(** X11. With bounds that run from a smaller to a larger coordinate,
    [getCellIndex] is monotone on each axis: a position further along an
    axis never gets a smaller index on that axis. *)
Theorem getCellIndex_monotone g p p' :
  1 ≤ fst (Grid.dimensions g) → 1 ≤ snd (Grid.dimensions g) → bounds_ordered g →
  ((fst p <= fst p')%Q →
   fst (SpatialHashGrid.getCellIndex g p) ≤ fst (SpatialHashGrid.getCellIndex g p')) ∧
  ((snd p <= snd p')%Q →
   snd (SpatialHashGrid.getCellIndex g p) ≤ snd (SpatialHashGrid.getCellIndex g p')).
Proof.
  intros Hnx Hny [Hbx Hby]. unfold SpatialHashGrid.getCellIndex. simpl.
  split; intros Hp; by apply axisIndex_mono.
Qed.

Lemma getCellIndex_monotone_witness :
  (fst (SpatialHashGrid.getCellIndex (grid grid16) (3, 12)%Q)
   ≤ fst (SpatialHashGrid.getCellIndex (grid grid16) (8.4, 8.4)%Q)) ∧
  (snd (SpatialHashGrid.getCellIndex (grid grid16) (8.4, 8.4)%Q)
   ≤ snd (SpatialHashGrid.getCellIndex (grid grid16) (3, 12)%Q)).
Proof.
  split.
  - apply (getCellIndex_monotone (grid grid16) (3, 12)%Q (8.4, 8.4)%Q);
      [simpl; lia|simpl; lia|split; by vm_compute|by vm_compute].
  - apply (getCellIndex_monotone (grid grid16) (8.4, 8.4)%Q (3, 12)%Q);
      [simpl; lia|simpl; lia|split; by vm_compute|by vm_compute].
Defined.

(** X12. With bounds that run from a smaller to a larger coordinate, every
    position at or below the lower bound of an axis gets index 0 on that
    axis, and every position at or above the upper bound gets the last
    index: positions outside the grid are filed in its border cells. *)
Theorem getCellIndex_saturates g p :
  bounds_ordered g →
  ((fst p <= fst (fst (Grid.bounds g)))%Q → fst (SpatialHashGrid.getCellIndex g p) = 0) ∧
  ((fst (snd (Grid.bounds g)) <= fst p)%Q →
   fst (SpatialHashGrid.getCellIndex g p) = fst (Grid.dimensions g) - 1) ∧
  ((snd p <= snd (fst (Grid.bounds g)))%Q → snd (SpatialHashGrid.getCellIndex g p) = 0) ∧
  ((snd (snd (Grid.bounds g)) <= snd p)%Q →
   snd (SpatialHashGrid.getCellIndex g p) = snd (Grid.dimensions g) - 1).
Proof.
  intros [Hbx Hby]. unfold SpatialHashGrid.getCellIndex. simpl.
  split_and!; intros Hp; by (apply axisIndex_low || apply axisIndex_high).
Qed.

Lemma getCellIndex_saturates_witness :
  SpatialHashGrid.getCellIndex (grid grid16) (-3, 20)%Q = (0, 15).
Proof.
  destruct (getCellIndex_saturates (grid grid16) (-3, 20)%Q) as (Hx & _ & _ & Hy);
    [split; by vm_compute|].
  rewrite (surjective_pairing (SpatialHashGrid.getCellIndex (grid grid16) (-3, 20)%Q)).
  rewrite Hx by (by vm_compute). rewrite Hy by (by vm_compute). reflexivity.
Defined.



(** ** The three.js layer *)

Lemma lift_run {A} (m : M Store A) (s : Three.t) a b :
  m (Three.base s) = Return a b → lift m s = Return a (Three.set_base b s).
Proof. unfold lift. by intros ->. Qed.

Lemma getsome_run {S A} (f : S → option A) (s : S) a :
  f s = Some a → getsome f s = Return a s.
Proof. unfold getsome. by intros ->. Qed.

Lemma set_boundingBox_id (obj : SpatialObject.t) box :
  SpatialObject._boundingBox obj = Some box →
  SpatialObject.set_boundingBox (Some box) obj = obj.
Proof. destruct obj. simpl. by intros ->. Qed.

Lemma add_post s object obj box :
  wf (Three.base s) → Three.objects s !! object = Some obj → box_of obj = Some box →
  let span := span_of (grid (Three.base s))
                (Client.mk (THREE.x (SpatialObject.position obj),
                            THREE.z (SpatialObject.position obj))
                           (THREE.x (THREE.max box) - THREE.x (THREE.min box),
                            THREE.z (THREE.max box) - THREE.z (THREE.min box))%Q
                           (Cells.mk None None None) (-1) (Some object)) in
  ∃ c s' ns,
    ThreeSpatialHashGrid.add object s = Return tt s' ∧
    wf (Three.base s') ∧ clients (Three.base s) !! c = None ∧
    (size (heads (Three.base s)) ≤ size (heads (Three.base s')))%nat ∧
    grid_frame (grid (Three.base s)) (grid (Three.base s')) ∧
    clients (Three.base s')
      = <[c := Client.mk (THREE.x (SpatialObject.position obj),
                          THREE.z (SpatialObject.position obj))
                         (THREE.x (THREE.max box) - THREE.x (THREE.min box),
                          THREE.z (THREE.max box) - THREE.z (THREE.min box))%Q
                         (Cells.mk (Some (fst span)) (Some (snd span)) (Some ns))
                         (-1) (Some object)]> (clients (Three.base s)) ∧
    Three.clients s' = Three.clients s ++ [c] ∧
    Three.objects s'
      = <[object := SpatialObject.set_boundingBox (Some box) obj]> (Three.objects s).
Proof.
  intros Hwf Hobj Hbox span.
  destruct (newClient_post (Three.base s)
              (THREE.x (SpatialObject.position obj), THREE.z (SpatialObject.position obj))
              (THREE.x (THREE.max box) - THREE.x (THREE.min box),
               THREE.z (THREE.max box) - THREE.z (THREE.min box))%Q
              (Some object) Hwf)
    as (c & b' & ns & Hrun & Hwf' & Hfresh & Hsz & Hf & Hcl).
  unfold ThreeSpatialHashGrid.add.
  erewrite bind_Return by (apply getsome_run; exact Hobj).
  unfold box_of in Hbox.
  destruct (SpatialObject._boundingBox obj) as [b0|] eqn:Hcache.
  - injection Hbox as ->.
    erewrite bind_Return by reflexivity.
    erewrite bind_Return by (apply lift_run; exact Hrun).
    eexists c, _, ns. split; [reflexivity|]. simpl.
    split_and!; [done..|].
    rewrite (set_boundingBox_id obj box Hcache). by rewrite insert_id.
  - unfold ThreeSpatialHashGrid.calculateBoundingBox.
    destruct (SpatialObject.geometry obj) as [[b0|]|] eqn:Hgeo; simpl in Hbox; try done.
    injection Hbox as ->.
    erewrite bind_Return by reflexivity.
    erewrite bind_Return by (apply lift_run; exact Hrun).
    eexists c, _, ns. split; [reflexivity|]. simpl. by split_and!.
Qed.

(** X14. [add] on an object without a cached [_boundingBox] that is not a
    mesh, or whose geometry has no bounding box, throws an [Error] and
    leaves everything as it was: no client is created and the [clients] array
    does not grow. *)
Theorem add_without_bounding_box s object obj :
  Three.objects s !! object = Some obj → box_of obj = None →
  ThreeSpatialHashGrid.add object s
  = Throw (Error match SpatialObject.geometry obj with
                 | None => "Not implemented"
                 | Some _ => "Failed to compute bounding box"
                 end) s.
Proof.
  intros Hobj Hbox. unfold ThreeSpatialHashGrid.add.
  erewrite bind_Return by (apply getsome_run; exact Hobj).
  unfold box_of in Hbox. destruct (SpatialObject._boundingBox obj); [done|].
  unfold ThreeSpatialHashGrid.calculateBoundingBox.
  by destruct (SpatialObject.geometry obj) as [[b0|]|].
Qed.

Lemma add_without_bounding_box_witness :
  ThreeSpatialHashGrid.add 2%nat
    (Three.set_objects
       (<[2%nat := SpatialObject.mk (THREE.mkVector3 1 0 1) None None]>
          (Three.objects scene_one)) scene_one)
  = Throw (Error "Not implemented")
      (Three.set_objects
         (<[2%nat := SpatialObject.mk (THREE.mkVector3 1 0 1) None None]>
            (Three.objects scene_one)) scene_one).
Proof.
  apply (add_without_bounding_box
           (Three.set_objects
              (<[2%nat := SpatialObject.mk (THREE.mkVector3 1 0 1) None None]>
                 (Three.objects scene_one)) scene_one)
           2%nat (SpatialObject.mk (THREE.mkVector3 1 0 1) None None));
    [vm_compute; reflexivity|reflexivity].
Defined.

Lemma registered_frame s s' c :
  registered s c →
  clients (Three.base s') !! c = clients (Three.base s) !! c →
  (∀ o, is_Some (Three.objects s !! o) → is_Some (Three.objects s' !! o)) →
  registered s' c.
Proof.
  intros (cl & o & obj & Hc & Hm & Ho & Hmin & Hmax) Hcl Hobjs.
  destruct (Hobjs o) as [obj' Ho']; [by eexists|].
  exists cl, o, obj'. rewrite Hcl. by split_and!.
Qed.

(** X15. [add] on an object with a bounding box (cached, or taken from the
    geometry of a mesh and then cached) creates one new client at
    [(position.x, position.z)] with the x and z extents of the box and the
    object as metadata, inserts it with the span of that rectangle, appends
    it to the [clients] array, and keeps the scene invariant. *)
Theorem add_registers_the_object s object obj box :
  scene_ok s → Three.objects s !! object = Some obj → box_of obj = Some box →
  ∃ c s' cl,
    ThreeSpatialHashGrid.add object s = Return tt s' ∧ scene_ok s' ∧
    Three.clients s' = Three.clients s ++ [c] ∧
    clients (Three.base s) !! c = None ∧
    clients (Three.base s') !! c = Some cl ∧
    Client.position cl = (THREE.x (SpatialObject.position obj),
                          THREE.z (SpatialObject.position obj)) ∧
    Client.dimensions cl = (THREE.x (THREE.max box) - THREE.x (THREE.min box),
                            THREE.z (THREE.max box) - THREE.z (THREE.min box))%Q ∧
    Client.metadata cl = Some object ∧
    coherent (grid (Three.base s')) cl ∧
    (∀ c', c' ≠ c → clients (Three.base s') !! c' = clients (Three.base s) !! c') ∧
    Three.objects s' !! object = Some (SpatialObject.set_boundingBox (Some box) obj) ∧
    (∀ o, o ≠ object → Three.objects s' !! o = Three.objects s !! o).
Proof.
  intros (Hwf & Hnd & Hreg) Hobj Hbox.
  destruct (add_post s object obj box Hwf Hobj Hbox)
    as (c & s' & ns & Hrun & Hwf' & Hfresh & _ & Hf & Hcl & Harr & Hobjs).
  eexists c, s', _. split; [exact Hrun|].
  assert (∀ c', c' ∈ Three.clients s → c' ≠ c) as Hold.
  { intros c' Hc' ->. destruct (Hreg c Hc') as (cl & _ & _ & Hc & _). congruence. }
  assert (∀ o, is_Some (Three.objects s !! o) → is_Some (Three.objects s' !! o)) as Hkeep.
  { intros o Ho. rewrite Hobjs. destruct (decide (o = object)) as [->|Hne].
    - rewrite lookup_insert_eq. by eexists.
    - by rewrite lookup_insert_ne. }
  split_and!.
  - split; [done|]. split.
    + rewrite Harr. apply NoDup_app. split_and!; [done| |apply NoDup_singleton].
      intros c' Hc' [->|[]%elem_of_nil]%elem_of_cons. by apply (Hold c).
    + intros c'. rewrite Harr, elem_of_app, list_elem_of_singleton. intros [Hc'| ->].
      * apply (registered_frame s s' c' (Hreg c' Hc')); [|done].
        rewrite Hcl, lookup_insert_ne; [done|]. intros <-. by apply (Hold c).
      * destruct (Hkeep object) as [obj' Hobj']; [by eexists|].
        eexists _, object, obj'. rewrite Hcl, lookup_insert_eq.
        split_and!; [reflexivity|reflexivity|done|by eexists|by eexists].
  - exact Harr.
  - exact Hfresh.
  - rewrite Hcl. apply lookup_insert_eq.
  - reflexivity.
  - reflexivity.
  - reflexivity.
  - unfold coherent. rewrite (grid_frame_span _ _ _ Hf). by split.
  - intros c' Hne. by rewrite Hcl, lookup_insert_ne.
  - rewrite Hobjs. apply lookup_insert_eq.
  - intros o Hne. by rewrite Hobjs, lookup_insert_ne.
Qed.

Lemma scene_one_ok : scene_ok scene_one.
Proof.
  split; [|split].
  - assert (Three.base scene_one
            = exec (SpatialHashGrid.newClient (8, 8)%Q (4 # 4, 4 # 4)%Q (Some 0%nat)) grid16) as ->
      by (vm_compute; reflexivity).
    apply exec_newClient_wf, grid16_wf.
  - change (Three.clients scene_one) with [0%nat]. apply NoDup_singleton.
  - change (Three.clients scene_one) with [0%nat].
    intros c ->%list_elem_of_singleton.
    eexists _, 0%nat, _. split_and!; [vm_compute; reflexivity|reflexivity
                                     |vm_compute; reflexivity|by eexists|by eexists].
Qed.

Lemma scene_two_ok : scene_ok scene_two.
Proof.
  split; [|split].
  - assert (Three.base scene_two
            = exec (SpatialHashGrid.newClient (3, 12)%Q (4 # 4, 4 # 4)%Q (Some 1%nat))
                   (Three.base scene_one)) as -> by (vm_compute; reflexivity).
    apply exec_newClient_wf, scene_one_ok.
  - change (Three.clients scene_two) with [0%nat; 1%nat].
    apply NoDup_cons. split; [|apply NoDup_singleton].
    by intros ?%list_elem_of_singleton.
  - change (Three.clients scene_two) with [0%nat; 1%nat].
    intros c [->|[->|[]%elem_of_nil]%elem_of_cons]%elem_of_cons.
    + eexists _, 0%nat, _. split_and!; [vm_compute; reflexivity|reflexivity
                                       |vm_compute; reflexivity|by eexists|by eexists].
    + eexists _, 1%nat, _. split_and!; [vm_compute; reflexivity|reflexivity
                                       |vm_compute; reflexivity|by eexists|by eexists].
Qed.

Lemma add_registers_the_object_witness :
  ∃ obj box,
    (scene_ok scene_one ∧ Three.objects scene_one !! 1%nat = Some obj ∧
     box_of obj = Some box) ∧
    ∃ c s' cl,
      ThreeSpatialHashGrid.add 1%nat scene_one = Return tt s' ∧ scene_ok s' ∧
      Three.clients s' = Three.clients scene_one ++ [c] ∧
      clients (Three.base scene_one) !! c = None ∧
      clients (Three.base s') !! c = Some cl ∧
      Client.position cl = (THREE.x (SpatialObject.position obj),
                            THREE.z (SpatialObject.position obj)) ∧
      Client.dimensions cl = (THREE.x (THREE.max box) - THREE.x (THREE.min box),
                              THREE.z (THREE.max box) - THREE.z (THREE.min box))%Q ∧
      Client.metadata cl = Some 1%nat ∧
      coherent (grid (Three.base s')) cl ∧
      (∀ c', c' ≠ c → clients (Three.base s') !! c' = clients (Three.base scene_one) !! c') ∧
      Three.objects s' !! 1%nat = Some (SpatialObject.set_boundingBox (Some box) obj) ∧
      (∀ o, o ≠ 1%nat → Three.objects s' !! o = Three.objects scene_one !! o).
Proof.
  assert (Three.objects scene_one !! 1%nat = Some (cube (THREE.mkVector3 3 0 12))) as Hobj
    by (vm_compute; reflexivity).
  eexists _, _. split; [split_and!; [exact scene_one_ok|exact Hobj|reflexivity]|].
  exact (add_registers_the_object scene_one 1%nat _ _ scene_one_ok Hobj eq_refl).
Defined.

(** X16. The constructor of [ThreeSpatialHashGrid] (without the debug
    helper), given at least one cell per axis and bounds with distinct
    ends, returns a scene with an empty [clients] array that satisfies the
    scene invariant. *)
Theorem new_scene bounds dimensions s :
  1 ≤ fst dimensions → 1 ≤ snd dimensions →
  ¬ (fst (snd bounds) == fst (fst bounds))%Q →
  ¬ (snd (snd bounds) == snd (fst bounds))%Q →
  clients (Three.base s) = ∅ →
  ∃ s', ThreeSpatialHashGrid.new bounds dimensions s = Return tt s' ∧
        scene_ok s' ∧ Three.clients s' = [] ∧ Three.objects s' = Three.objects s.
Proof.
  intros Hx Hy Hbx Hby Hcl.
  destruct (new_wf bounds dimensions (Three.base s) Hx Hy Hbx Hby Hcl)
    as (b & Hrun & Hwf & _).
  unfold ThreeSpatialHashGrid.new.
  erewrite bind_Return by (apply lift_run; exact Hrun).
  eexists. split; [reflexivity|]. simpl. split; [|done].
  split; [done|]. split; [apply NoDup_nil_2|]. simpl. by intros c ?%elem_of_nil.
Qed.

Lemma new_scene_witness :
  ∃ s', ThreeSpatialHashGrid.new ((0, 0), (16, 16))%Q (16, 16) two_cubes = Return tt s' ∧
        scene_ok s' ∧ Three.clients s' = [] ∧ Three.objects s' = Three.objects two_cubes.
Proof.
  apply (new_scene ((0, 0), (16, 16))%Q (16, 16) two_cubes);
    [simpl; lia|simpl; lia|by intros ?|by intros ?|reflexivity].
Defined.

(** X17. After [add], the object is found where it stands: with bounds that
    run from a smaller to a larger coordinate and a bounding box whose
    maximum is not below its minimum in x and z, [getNearbyObjects] at the
    object's position returns the new client, for every non-negative extent
    of the query. *)
Theorem add_then_getNearbyObjects s object obj box qbounds :
  scene_ok s → bounds_ordered (grid (Three.base s)) →
  Three.objects s !! object = Some obj → box_of obj = Some box →
  (THREE.x (THREE.min box) <= THREE.x (THREE.max box))%Q →
  (THREE.z (THREE.min box) <= THREE.z (THREE.max box))%Q →
  (0 <= fst qbounds)%Q → (0 <= snd qbounds)%Q →
  ∃ c s',
    ThreeSpatialHashGrid.add object s = Return tt s' ∧
    last (Three.clients s') = Some c ∧
    ∀ fuel, (size (heads (Three.base s')) ≤ fuel)%nat →
      ∃ found s'',
        ThreeSpatialHashGrid.getNearbyObjects fuel (SpatialObject.position obj) qbounds s'
        = Return found s'' ∧ c ∈ found.
Proof.
  intros (Hwf & _ & _) Hord Hobj Hbox Hbx Hbz Hqx Hqy.
  destruct (add_post s object obj box Hwf Hobj Hbox)
    as (c & s' & ns & Hrun & Hwf' & Hfresh & _ & Hf & Hcl & Harr & _).
  exists c, s'. split; [exact Hrun|]. split; [by rewrite Harr, last_snoc|].
  intros fuel Hfuel. unfold ThreeSpatialHashGrid.getNearbyObjects.
  destruct (findNear_members (Three.base s')
              (THREE.x (SpatialObject.position obj), THREE.z (SpatialObject.position obj))
              qbounds fuel Hwf' Hfuel) as (found & t & Hrun' & _ & _ & Hmem).
  exists found, (Three.set_base t s'). split; [by apply lift_run|]. apply Hmem.
  destruct (wf_grid _ Hwf) as (Hnx & Hny & _).
  destruct (meeting_footprints_overlap (grid (Three.base s))
              (THREE.x (SpatialObject.position obj), THREE.z (SpatialObject.position obj))
              (THREE.x (THREE.max box) - THREE.x (THREE.min box),
               THREE.z (THREE.max box) - THREE.z (THREE.min box))%Q
              (THREE.x (SpatialObject.position obj), THREE.z (SpatialObject.position obj))
              qbounds Hnx Hny Hord) as (x & y & Hin & Hq); [simpl; lra|simpl; lra|done|done| |].
  { apply footprints_meet_refl; simpl; [lra|lra|done|done]. }
  exists x, y. destruct Hf as (Hd & Hb & _).
  rewrite (query_rect_ext (grid (Three.base s)) (grid (Three.base s'))) by done.
  split; [exact Hq|].
  eapply covers_inserted; [exact Hcl|reflexivity|reflexivity|exact Hin].
Qed.

Lemma add_then_getNearbyObjects_witness :
  ∃ c s',
    ThreeSpatialHashGrid.add 1%nat scene_one = Return tt s' ∧
    last (Three.clients s') = Some c ∧
    ∀ fuel, (size (heads (Three.base s')) ≤ fuel)%nat →
      ∃ found s'',
        ThreeSpatialHashGrid.getNearbyObjects fuel (THREE.mkVector3 3 0 12) (1, 1)%Q s'
        = Return found s'' ∧ c ∈ found.
Proof.
  apply (add_then_getNearbyObjects scene_one 1%nat (cube (THREE.mkVector3 3 0 12))
           (THREE.mkBox3 (THREE.mkVector3 (-1 # 2) (-1 # 2) (-1 # 2))
                         (THREE.mkVector3 (1 # 2) (1 # 2) (1 # 2))) (1, 1)%Q);
    [exact scene_one_ok|split; by vm_compute|vm_compute; reflexivity|reflexivity
    |by vm_compute..].
Defined.

(** ** [update] and [dispose] *)

Lemma for_index_fixed (I : nat → Three.t → Prop) (body : nat → M Three.t unit) (n : nat) :
  ∀ fuel i s,
    (i ≤ n)%nat → (n - i ≤ fuel)%nat → length (Three.clients s) = n → I i s →
    (∀ j t, (j < n)%nat → length (Three.clients t) = n → I j t →
            ∃ t', body j t = Return tt t' ∧ length (Three.clients t') = n ∧
                  I (Datatypes.S j) t') →
    ∃ s', for_index fuel i body s = Return tt s' ∧ I n s'.
Proof.
  induction fuel as [|fuel IH]; intros i s Hi Hfuel Hlen HI Hstep.
  - assert (i = n) as -> by lia. exists s. simpl.
    rewrite decide_False by lia. done.
  - simpl. destruct (decide (i < length (Three.clients s))%nat) as [Hlt|Hge].
    + destruct (Hstep i s) as (t' & Hrun & Hlen' & HI'); [lia|done|done|].
      rewrite (bind_Return _ _ _ _ _ Hrun). apply IH; [lia|lia|done|done|done].
    + assert (i = n) as -> by lia. by exists s.
Qed.

Lemma coherent_frame g g' cl cl' :
  grid_frame g g' → Client.position cl' = Client.position cl →
  Client.dimensions cl' = Client.dimensions cl → Client.cells cl' = Client.cells cl →
  coherent g cl → coherent g' cl'.
Proof.
  intros (Hd & Hb & _) Hp Hw Hc. unfold coherent.
  by rewrite Hc, (span_of_ext g g' cl cl').
Qed.

Lemma update_client_post t j c :
  scene_ok t → Three.clients t !! j = Some c →
  ∃ t', ThreeSpatialHashGrid.update_client j t = Return tt t' ∧ scene_ok t' ∧
        Three.clients t' = Three.clients t ∧ Three.objects t' = Three.objects t ∧
        synced t' c ∧
        grid_frame (grid (Three.base t)) (grid (Three.base t')) ∧
        ∀ c', c' ≠ c → clients (Three.base t') !! c' = clients (Three.base t) !! c'.
Proof.
  intros (Hwf & Hnd & Hreg) Hj.
  destruct (Hreg c) as (cl & o & obj & Hc & Hm & Ho & Hmin & Hmax);
    [by eapply list_elem_of_lookup_2|].
  destruct t as [b arr objs]. simpl in *.
  set (p := (THREE.x (SpatialObject.position obj), THREE.y (SpatialObject.position obj))).
  set (cl1 := Client.set_position p cl).
  set (b1 := set_clients (alter (Client.set_position p) c (clients b)) b).
  assert (write_client c (Client.set_position p) b = Return tt b1) as Hrun1
    by (by eapply write_client_run).
  pose proof (position_wf b c p b1 Hwf Hrun1) as Hwf1.
  assert (clients b1 !! c = Some cl1) as Hc1.
  { unfold b1. simpl. by rewrite lookup_alter_eq, Hc. }
  destruct (updateClient_post b1 c cl1 Hwf1 Hc1 Hmin Hmax)
    as (b2 & cs & Hrun2 & Hwf2 & _ & Hf & Hcl2 & Hmin2 & Hmax2).
  assert (∀ c', c' ≠ c → clients b2 !! c' = clients b !! c') as Hother.
  { intros c' Hne. rewrite Hcl2, lookup_insert_ne by done. unfold b1. simpl.
    by rewrite lookup_alter_ne. }
  assert (clients b2 !! c = Some (Client.set_cells cs cl1)) as Hc2
    by (by rewrite Hcl2, lookup_insert_eq).
  exists (Three.mk b2 arr objs). unfold ThreeSpatialHashGrid.update_client.
  erewrite bind_Return by (apply getsome_run; exact Hj).
  erewrite bind_Return by (apply lift_run, read_client_run; exact Hc).
  simpl. erewrite bind_Return.
  2:{ apply getsome_run. simpl. rewrite Hm. simpl. exact Ho. }
  erewrite bind_Return by (apply lift_run; exact Hrun1).
  erewrite lift_run by exact Hrun2.
  split; [reflexivity|].
  split_and!; [|reflexivity|reflexivity| |exact Hf|exact Hother].
  - split; [exact Hwf2|]. split; [exact Hnd|]. intros c' Hc'.
    destruct (decide (c' = c)) as [->|Hne].
    + exists (Client.set_cells cs cl1), o, obj.
      split_and!; [exact Hc2|exact Hm|exact Ho| |].
      * simpl. rewrite Hmin2. by eexists.
      * simpl. rewrite Hmax2. by eexists.
    + destruct (Hreg c' Hc') as (cl' & o' & obj' & Hc0 & ? & ? & ? & ?).
      exists cl', o', obj'. split_and!; [|done..].
      simpl. by rewrite (Hother c' Hne).
  - exists (Client.set_cells cs cl1), o, obj.
    split_and!; [exact Hc2|exact Hm|exact Ho|reflexivity|].
    apply (coherent_frame (grid b1) (grid b2) (Client.set_cells cs cl1)
             (Client.set_cells cs cl1) Hf eq_refl eq_refl eq_refl).
    split; [exact Hmin2|exact Hmax2].
Qed.

(** X18. On a scene built by the constructor and [add], [update] returns,
    keeps the scene invariant, the [clients] array and the objects, and
    leaves every client of the array at the position
    [(object.position.x, object.position.y)] of its object, inserted with
    the span of that position. *)
Theorem update_syncs_every_client s :
  scene_ok s →
  ∃ s', ThreeSpatialHashGrid.update s = Return tt s' ∧ scene_ok s' ∧
        Three.clients s' = Three.clients s ∧ Three.objects s' = Three.objects s ∧
        ∀ c, c ∈ Three.clients s → synced s' c.
Proof.
  intros Hok. unfold ThreeSpatialHashGrid.update.
  set (l := Three.clients s). set (objs := Three.objects s).
  destruct (for_index_fixed
              (fun j t => scene_ok t ∧ Three.clients t = l ∧ Three.objects t = objs ∧
                          ∀ k c, (k < j)%nat → l !! k = Some c → synced t c)
              ThreeSpatialHashGrid.update_client (length l) (length l) 0%nat s)
    as (s' & Hrun & Hok' & Hl & Hobjs & Hsync); [lia|lia|done| |  |].
  - split_and!; [done..|]. intros k c Hk. lia.
  - intros j t Hj Hlen (Hokt & Hlt & Hot & Hs).
    destruct (lookup_lt_is_Some_2 l j Hj) as [c Hc].
    destruct (update_client_post t j c Hokt) as (t' & Hrun & Hok' & Hl' & Ho' & Hsc & Hf & Hoth);
      [by rewrite Hlt|].
    exists t'. split; [done|]. split; [congruence|].
    split_and!; [done|congruence|congruence|].
    intros k c' Hk Hc'. destruct (decide (c' = c)) as [->|Hne]; [done|].
    destruct (Hs k c') as (cl & o & obj & Hcl & Hm & Hobj & Hp & Hcoh); [|done|].
    { destruct (decide (k = j)) as [->|]; [congruence|lia]. }
    exists cl, o, obj. rewrite (Hoth c' Hne), Ho'. split_and!; [done..|].
    by eapply coherent_frame.
  - exists s'. split; [done|]. split_and!; [done..|].
    intros c Hc. apply list_elem_of_lookup_1 in Hc as [k Hk].
    apply (Hsync k c); [|done]. by eapply lookup_lt_Some.
Qed.

Lemma update_syncs_every_client_witness :
  scene_ok scene_two ∧
  ∃ s', ThreeSpatialHashGrid.update scene_two = Return tt s' ∧ scene_ok s' ∧
        Three.clients s' = Three.clients scene_two ∧
        Three.objects s' = Three.objects scene_two ∧
        ∀ c, c ∈ Three.clients scene_two → synced s' c.
Proof.
  split; [exact scene_two_ok|].
  exact (update_syncs_every_client scene_two scene_two_ok).
Defined.

Lemma list_pair_ind {A} (P : list A → Prop) :
  P [] → (∀ a, P [a]) → (∀ a b l, P l → P (a :: b :: l)) → ∀ l, P l.
Proof.
  intros H0 H1 H2 l. assert (P l ∧ ∀ a, P (a :: l)) as [H _]; [|done].
  induction l as [|b l [IH1 IH2]]; [by split|]. split; [apply IH2|].
  intros a. by apply H2.
Qed.

Lemma elem_of_evens_odds {A} (l : list A) x : x ∈ l ↔ x ∈ evens l ∨ x ∈ odds l.
Proof.
  induction l as [| a | a b l IH] using list_pair_ind; simpl.
  - rewrite elem_of_nil. tauto.
  - rewrite list_elem_of_singleton, elem_of_nil. tauto.
  - rewrite !elem_of_cons, IH. tauto.
Qed.

Lemma evens_odds_NoDup {A} (l : list A) :
  NoDup l → NoDup (evens l) ∧ NoDup (odds l) ∧ ∀ x, x ∈ evens l → x ∉ odds l.
Proof.
  induction l as [| a | a b l IH] using list_pair_ind; simpl; intros Hnd.
  - split_and!; [apply NoDup_nil_2..|]. by intros x ?%elem_of_nil.
  - split_and!; [apply NoDup_singleton|apply NoDup_nil_2|]. by intros x _ ?%elem_of_nil.
  - apply NoDup_cons in Hnd as [Ha Hnd]. apply NoDup_cons in Hnd as [Hb Hnd].
    destruct (IH Hnd) as (IH1 & IH2 & IH3).
    rewrite elem_of_cons in Ha. rewrite (elem_of_evens_odds l) in Ha, Hb.
    split_and!.
    + apply NoDup_cons. split; [tauto|done].
    + apply NoDup_cons. split; [tauto|done].
    + intros x [->|Hx]%elem_of_cons [->|Hx']%elem_of_cons; try tauto.
      by apply (IH3 x).
Qed.

Lemma dispose_client_post t pre a rest :
  Three.clients t = pre ++ a :: rest → wf (Three.base t) →
  (∃ cl, clients (Three.base t) !! a = Some cl ∧
         is_Some (Cells.min (Client.cells cl)) ∧ is_Some (Cells.max (Client.cells cl))) →
  ∃ t', ThreeSpatialHashGrid.dispose_client (length pre) t = Return tt t' ∧
        Three.clients t' = pre ++ rest ∧ Three.objects t' = Three.objects t ∧
        wf (Three.base t') ∧ spanless (Three.base t') a ∧
        ∀ c, c ≠ a → clients (Three.base t') !! c = clients (Three.base t) !! c.
Proof.
  intros Harr Hwf (cl & Hc & Hmin & Hmax).
  destruct (remove_post (Three.base t) a cl Hwf Hc Hmin Hmax)
    as (b' & Hrun & Hwf' & _ & _ & Hcl).
  destruct t as [b arr objs]. simpl in *. subst arr.
  unfold ThreeSpatialHashGrid.dispose_client.
  erewrite bind_Return.
  2:{ apply getsome_run. simpl. by rewrite list_lookup_middle. }
  erewrite bind_Return by (apply lift_run; exact Hrun).
  eexists. split; [reflexivity|]. simpl. rewrite delete_middle.
  split_and!; [done..| |].
  - eexists. rewrite Hcl, lookup_insert_eq. split; reflexivity.
  - intros c Hne. by rewrite Hcl, lookup_insert_ne.
Qed.

Lemma dispose_loop (rest : list cref) :
  ∀ pre fuel s,
    Three.clients s = pre ++ rest → NoDup rest → (length rest ≤ fuel)%nat →
    wf (Three.base s) →
    (∀ c, c ∈ rest →
          ∃ cl, clients (Three.base s) !! c = Some cl ∧
                is_Some (Cells.min (Client.cells cl)) ∧
                is_Some (Cells.max (Client.cells cl))) →
    ∃ s', for_index fuel (length pre) ThreeSpatialHashGrid.dispose_client s = Return tt s' ∧
          Three.clients s' = pre ++ odds rest ∧ Three.objects s' = Three.objects s ∧
          wf (Three.base s') ∧
          (∀ c, c ∈ evens rest → spanless (Three.base s') c) ∧
          (∀ c, c ∉ evens rest → clients (Three.base s') !! c = clients (Three.base s) !! c).
Proof.
  induction rest as [| a | a b rest IH] using list_pair_ind;
    intros pre fuel s Harr Hnd Hfuel Hwf Hspan.
  - exists s. destruct fuel; simpl; rewrite decide_False by (rewrite Harr, length_app; simpl; lia).
    all: split_and!; [done..| |done]; by intros c ?%elem_of_nil.
  - destruct fuel as [|fuel]; [simpl in Hfuel; lia|].
    destruct (dispose_client_post s pre a [] Harr Hwf) as (t & Hrun & Harr' & Hobjs & Hwf' & Hsp & Hoth).
    { apply Hspan, list_elem_of_here. }
    exists t. simpl. rewrite decide_True by (rewrite Harr, length_app; simpl; lia).
    rewrite (bind_Return _ _ _ _ _ Hrun).
    destruct fuel; simpl; rewrite decide_False by (rewrite Harr', length_app; simpl; lia).
    all: split_and!; [done..| |].
    all: try (intros c ->%list_elem_of_singleton; done).
    all: intros c Hc; apply Hoth; intros ->; apply Hc, list_elem_of_here.
  - destruct fuel as [|fuel]; [simpl in Hfuel; lia|].
    apply NoDup_cons in Hnd as [Ha Hnd]. apply NoDup_cons in Hnd as [Hb Hnd].
    destruct (dispose_client_post s pre a (b :: rest) Harr Hwf)
      as (t & Hrun & Harr' & Hobjs & Hwf' & Hsp & Hoth).
    { apply Hspan, list_elem_of_here. }
    destruct (IH (pre ++ [b]) fuel t) as (s' & Hrun' & Harr'' & Hobjs' & Hwf'' & Hsp' & Hoth').
    { by rewrite Harr', <- app_assoc. }
    { done. }
    { simpl in Hfuel. lia. }
    { done. }
    { intros c Hc. rewrite Hoth.
      - apply Hspan. by do 2 apply list_elem_of_further.
      - intros ->. apply Ha. by apply list_elem_of_further. }
    exists s'. simpl. rewrite decide_True by (rewrite Harr, length_app; simpl; lia).
    rewrite (bind_Return _ _ _ _ _ Hrun).
    rewrite length_app in Hrun'. simpl in Hrun'. rewrite Nat.add_1_r in Hrun'.
    split; [exact Hrun'|]. split_and!.
    + by rewrite Harr'', <- app_assoc.
    + congruence.
    + done.
    + intros c [->|Hc]%elem_of_cons; [|by apply Hsp'].
      destruct Hsp as (cl & Hcl & Hcells). exists cl. split; [|done].
      rewrite Hoth'; [done|]. intros Hin. apply Ha. apply list_elem_of_further.
      apply elem_of_evens_odds. by left.
    + intros c Hc. rewrite elem_of_cons in Hc. rewrite Hoth' by tauto.
      apply Hoth. intros ->. tauto.
Qed.

(** X19. On a scene built by the constructor and [add], [dispose] returns
    and removes from the grid exactly the clients at the even indices of the
    [clients] array; the clients at the odd indices stay inserted, their
    records untouched, and they are what the array holds afterwards.  The
    scene invariant is kept. *)
Theorem dispose_keeps_every_second_client s :
  scene_ok s →
  ∃ s', ThreeSpatialHashGrid.dispose s = Return tt s' ∧ scene_ok s' ∧
        Three.clients s' = odds (Three.clients s) ∧
        Three.objects s' = Three.objects s ∧
        (∀ c, c ∈ evens (Three.clients s) → spanless (Three.base s') c) ∧
        (∀ c, c ∉ evens (Three.clients s) →
              clients (Three.base s') !! c = clients (Three.base s) !! c).
Proof.
  intros (Hwf & Hnd & Hreg). unfold ThreeSpatialHashGrid.dispose.
  destruct (dispose_loop (Three.clients s) [] (length (Three.clients s)) s)
    as (s' & Hrun & Harr & Hobjs & Hwf' & Hsp & Hoth); [done|done|done|done| |].
  { intros c Hc. destruct (Hreg c Hc) as (cl & _ & _ & Hcl & _ & _ & Hmin & Hmax).
    by exists cl. }
  exists s'. split; [exact Hrun|]. simpl in Harr.
  destruct (evens_odds_NoDup _ Hnd) as (_ & Hnd' & Hdisj).
  split_and!; [|done..].
  split; [done|]. split; [by rewrite Harr|].
  intros c Hc. rewrite Harr in Hc.
  apply (registered_frame s s' c).
  - apply Hreg, elem_of_evens_odds. by right.
  - apply Hoth. intros Hev. by apply (Hdisj c).
  - intros o. by rewrite Hobjs.
Qed.

Lemma dispose_keeps_every_second_client_witness :
  scene_ok scene_two ∧
  ∃ s', ThreeSpatialHashGrid.dispose scene_two = Return tt s' ∧ scene_ok s' ∧
        Three.clients s' = odds (Three.clients scene_two) ∧
        Three.objects s' = Three.objects scene_two ∧
        (∀ c, c ∈ evens (Three.clients scene_two) → spanless (Three.base s') c) ∧
        (∀ c, c ∉ evens (Three.clients scene_two) →
              clients (Three.base s') !! c = clients (Three.base scene_two) !! c).
Proof.
  split; [exact scene_two_ok|].
  exact (dispose_keeps_every_second_client scene_two scene_two_ok).
Defined.

(** ** [src/math.ts] *)

(** X20. For [a <= b], [clamp] returns a value of [[a, b]], returns [x]
    itself exactly when [x] lies in [[a, b]], and clamping twice is
    clamping once; [sat] is [clamp] to [[0, 1]]. *)
Theorem clamp_within (x a b : Q) :
  (a <= b)%Q →
  (a <= math.clamp x a b)%Q ∧ (math.clamp x a b <= b)%Q ∧
  ((math.clamp x a b == x)%Q ↔ (a <= x)%Q ∧ (x <= b)%Q) ∧
  (math.clamp (math.clamp x a b) a b == math.clamp x a b)%Q ∧
  (math.sat x == math.clamp x 0 1)%Q.
Proof.
  intros Hab.
  assert (a <= math.clamp x a b)%Q as Hlo.
  { unfold math.clamp. apply Q.min_glb; [apply Q.le_max_r|done]. }
  assert (math.clamp x a b <= b)%Q as Hhi by apply Q.le_min_r.
  assert (∀ y, (a <= y)%Q → (y <= b)%Q → (math.clamp y a b == y)%Q) as Hid.
  { intros y H1 H2. unfold math.clamp. rewrite (Q.max_l y a) by done. by apply Q.min_l. }
  split_and!; [done|done| |by apply Hid|reflexivity].
  split.
  - intros <-. by split.
  - intros [H1 H2]. by apply Hid.
Qed.

Lemma clamp_within_witness :
  (0 <= math.clamp (3 # 2) 0 1)%Q ∧ (math.clamp (3 # 2) 0 1 <= 1)%Q ∧
  ((math.clamp (3 # 2) 0 1 == 3 # 2)%Q ↔ (0 <= 3 # 2)%Q ∧ (3 # 2 <= 1)%Q) ∧
  (math.clamp (math.clamp (3 # 2) 0 1) 0 1 == math.clamp (3 # 2) 0 1)%Q ∧
  (math.sat (3 # 2) == math.clamp (3 # 2) 0 1)%Q.
Proof. apply (clamp_within (3 # 2) 0 1). by vm_compute. Defined.

Lemma round_range (x : Q) (a b : Z) :
  (inject_Z a <= x)%Q → (x <= inject_Z b)%Q → a ≤ math.round x ≤ b.
Proof.
  intros Ha Hb. unfold math.round. split.
  - rewrite <- (Qfloor_Z a). apply Qfloor_resp_le. lra.
  - assert (Qfloor (x + (1 # 2)) < b + 1); [|lia].
    rewrite Zlt_Qlt. eapply Qle_lt_trans; [apply Qfloor_le|].
    rewrite inject_Z_plus. change (inject_Z 1) with 1%Q. lra.
Qed.

(** X21. Whatever [Math.random()] returns in [[0, 1)]: for integers
    [m <= n], [rand_range(m, n)] lies in [[m, n]] and [rand_int(m, n)] is an
    integer of [[m, n]]; [rand_normalish()] lies in [[-1, 1)]. *)
Theorem random_generators_in_range (r r1 r2 r3 r4 : Q) (m n : Z) :
  (0 <= r)%Q → (r < 1)%Q →
  (0 <= r1)%Q → (r1 < 1)%Q → (0 <= r2)%Q → (r2 < 1)%Q →
  (0 <= r3)%Q → (r3 < 1)%Q → (0 <= r4)%Q → (r4 < 1)%Q →
  m ≤ n →
  (inject_Z m <= math.rand_range r (inject_Z m) (inject_Z n))%Q ∧
  (math.rand_range r (inject_Z m) (inject_Z n) <= inject_Z n)%Q ∧
  m ≤ math.rand_int r (inject_Z m) (inject_Z n) ≤ n ∧
  (-1 <= math.rand_normalish r1 r2 r3 r4)%Q ∧ (math.rand_normalish r1 r2 r3 r4 < 1)%Q.
Proof.
  intros Hr0 Hr1 H10 H11 H20 H21 H30 H31 H40 H41 Hmn.
  assert (inject_Z m <= inject_Z n)%Q as Hab by (by rewrite <- Zle_Qle).
  assert (inject_Z m <= r * (inject_Z n - inject_Z m) + inject_Z m)%Q as H1 by nra.
  assert (r * (inject_Z n - inject_Z m) + inject_Z m <= inject_Z n)%Q as H2 by nra.
  unfold math.rand_range, math.rand_int, math.rand_normalish.
  assert (m ≤ math.round (r * (inject_Z n - inject_Z m) + inject_Z m) ≤ n) as [H3 H4].
  { by apply round_range. }
  split_and!; [done|done|done|done| |].
  - unfold Qdiv. change (/ 4)%Q with (1 # 4)%Q. lra.
  - unfold Qdiv. change (/ 4)%Q with (1 # 4)%Q. lra.
Qed.

Lemma random_generators_in_range_witness :
  (inject_Z 2 <= math.rand_range (3 # 4) (inject_Z 2) (inject_Z 6))%Q ∧
  (math.rand_range (3 # 4) (inject_Z 2) (inject_Z 6) <= inject_Z 6)%Q ∧
  2 ≤ math.rand_int (3 # 4) (inject_Z 2) (inject_Z 6) ≤ 6 ∧
  (-1 <= math.rand_normalish (3 # 4) 0 (1 # 2) (1 # 4))%Q ∧
  (math.rand_normalish (3 # 4) 0 (1 # 2) (1 # 4) < 1)%Q.
Proof.
  apply (random_generators_in_range (3 # 4) (3 # 4) 0 (1 # 2) (1 # 4) 2 6);
    try (by vm_compute); lia.
Defined.

(** X22. [lerp], [smoothstep] and [smootherstep] start at [a] and do not go
    below it: they send [x = 0] to [a], and for [0 <= x <= 1] and [a <= b]
    their value is at least [a]; [lerp] never decreases when [x] grows.
    (Nothing is said about the upper end: the last step [x * (b - a) + a]
    of the source is rounded and can pass [b].) *)
Theorem interpolation_starts_at_a (x x' a b : Q) :
  (0 <= x)%Q → (x <= 1)%Q → (x <= x')%Q → (a <= b)%Q →
  (math.lerp 0 a b == a)%Q ∧ (math.smoothstep 0 a b == a)%Q ∧
  (math.smootherstep 0 a b == a)%Q ∧
  (a <= math.lerp x a b)%Q ∧ (a <= math.smoothstep x a b)%Q ∧
  (a <= math.smootherstep x a b)%Q ∧
  (math.lerp x a b <= math.lerp x' a b)%Q.
Proof.
  intros H0 H1 Hx Hab.
  assert (0 <= x * x * (3 - 2 * x))%Q as Hs by nra.
  assert (0 <= x * x * x * (x * (x * 6 - 15) + 10))%Q as Hr.
  { assert (0 <= x * x * x)%Q.
    { assert (0 <= x * x)%Q by nra. nra. }
    assert (0 <= x * (x * 6 - 15) + 10)%Q by nra.
    nra. }
  unfold math.lerp, math.smoothstep, math.smootherstep.
  split_and!; [ring|ring|ring|nra|nra|nra|nra].
Qed.

Lemma interpolation_starts_at_a_witness :
  (math.lerp 0 2 6 == 2)%Q ∧ (math.smoothstep 0 2 6 == 2)%Q ∧
  (math.smootherstep 0 2 6 == 2)%Q ∧
  (2 <= math.lerp (1 # 4) 2 6)%Q ∧ (2 <= math.smoothstep (1 # 4) 2 6)%Q ∧
  (2 <= math.smootherstep (1 # 4) 2 6)%Q ∧
  (math.lerp (1 # 4) 2 6 <= math.lerp (3 # 4) 2 6)%Q.
Proof. apply (interpolation_starts_at_a (1 # 4) (3 # 4) 2 6); by vm_compute. Defined.

(** ** [src/GridHelper.ts] *)

Lemma lines_count (line : Q → list Q) (c : nat) (step : Q) :
  (∀ i, length (line i) = c) → (0 < step)%Q →
  ∀ (k fuel : nat) (i hi : Q),
    (k ≤ fuel)%nat →
    (hi < i + inject_Z (Z.of_nat k) * step)%Q →
    (∀ j, (j < k)%nat → (i + inject_Z (Z.of_nat j) * step <= hi)%Q) →
    ∃ l, GridHelper.lines fuel i hi step line = Some l ∧ length l = (k * c)%nat.
Proof.
  intros Hlen Hstep. induction k as [|k IH]; intros fuel i hi Hfuel Hend Hin.
  - exists []. assert (Qle_bool i hi = false) as E.
    { destruct (Qle_bool i hi) eqn:E; [|done]. apply Qle_bool_iff in E.
      change (inject_Z (Z.of_nat 0)) with 0%Q in Hend. lra. }
    destruct fuel; simpl; by rewrite E.
  - destruct fuel as [|fuel]; [lia|].
    assert (Qle_bool i hi = true) as E.
    { apply Qle_bool_iff. specialize (Hin 0%nat ltac:(lia)).
      change (inject_Z (Z.of_nat 0)) with 0%Q in Hin. lra. }
    assert (∀ j : nat, (inject_Z (Z.of_nat (S j)) == inject_Z (Z.of_nat j) + 1)%Q) as Hsucc.
    { intros j. rewrite Nat2Z.inj_succ. unfold Z.succ. by rewrite inject_Z_plus. }
    destruct (IH fuel (i + step)%Q hi) as (l & Hrun & Hl); [lia| |  |].
    + rewrite Hsucc in Hend. lra.
    + intros j Hj. specialize (Hin (S j) ltac:(lia)). rewrite Hsucc in Hin. lra.
    + exists (line i ++ l). simpl. rewrite E, Hrun. split; [done|].
      rewrite length_app, Hlen, Hl. lia.
Qed.

Lemma lines_diverge (line : Q → list Q) (step hi : Q) :
  (step <= 0)%Q → ∀ fuel i, (i <= hi)%Q → GridHelper.lines fuel i hi step line = None.
Proof.
  intros Hstep. induction fuel as [|fuel IH]; intros i Hi; simpl.
  - by rewrite (proj2 (Qle_bool_iff i hi) Hi).
  - rewrite (proj2 (Qle_bool_iff i hi) Hi), IH; [done|lra].
Qed.

Lemma lines_none (line : Q → list Q) (step i hi : Q) fuel :
  (hi < i)%Q → GridHelper.lines fuel i hi step line = Some [].
Proof.
  intros Hi. assert (Qle_bool i hi = false) as E.
  { destruct (Qle_bool i hi) eqn:E; [|done]. apply Qle_bool_iff in E. lra. }
  destruct fuel; simpl; by rewrite E.
Qed.

Lemma update_count (X Y S : Q) (kx ky fuel : nat) :
  (0 < S)%Q → (kx ≤ fuel)%nat → (ky ≤ fuel)%nat →
  (X < inject_Z (Z.of_nat kx) * S)%Q →
  (∀ j, (j < kx)%nat → (inject_Z (Z.of_nat j) * S <= X)%Q) →
  (Y < inject_Z (Z.of_nat ky) * S)%Q →
  (∀ j, (j < ky)%nat → (inject_Z (Z.of_nat j) * S <= Y)%Q) →
  ∃ h v, GridHelper.update fuel X Y S = Some (h, v) ∧
         length h = (6 * ky)%nat ∧ length v = (6 * kx)%nat.
Proof.
  intros HS Hfx Hfy Hx1 Hx2 Hy1 Hy2. unfold GridHelper.update.
  destruct (lines_count (fun i => [(- X / 2)%Q; 0%Q; i; (X / 2)%Q; 0%Q; i]) 6 S
              ltac:(done) HS ky fuel (- Y / 2)%Q (Y / 2)%Q Hfy) as (h & Hh & Hlh).
  { half_lra. }
  { intros j Hj. specialize (Hy2 j Hj). half_lra. }
  destruct (lines_count (fun i => [i; 0%Q; (- Y / 2)%Q; i; 0%Q; (Y / 2)%Q]) 6 S
              ltac:(done) HS kx fuel (- X / 2)%Q (X / 2)%Q Hfx) as (v & Hv & Hlv).
  { half_lra. }
  { intros j Hj. specialize (Hx2 j Hj). half_lra. }
  exists h, v. rewrite Hh. simpl. rewrite Hv. simpl. split; [done|lia].
Qed.

Lemma div_count (n s : Z) :
  0 ≤ n → 1 ≤ s →
  (inject_Z n < inject_Z (Z.of_nat (Z.to_nat (n / s + 1))) * inject_Z s)%Q ∧
  ∀ j, (j < Z.to_nat (n / s + 1))%nat → (inject_Z (Z.of_nat j) * inject_Z s <= inject_Z n)%Q.
Proof.
  intros Hn Hs. pose proof (Z.div_pos n s Hn ltac:(lia)) as Hq.
  pose proof (Z.mul_div_le n s ltac:(lia)) as Hle.
  pose proof (Z.mul_succ_div_gt n s ltac:(lia)) as Hgt.
  split.
  - rewrite Z2Nat.id by lia. rewrite <- inject_Z_mult, <- Zlt_Qlt. lia.
  - intros j Hj. rewrite <- inject_Z_mult, <- Zle_Qle. nia.
Qed.

(** X23. For whole-numbered sizes [X], [Y >= 0] and a whole-numbered
    spacing [S >= 1], [GridHelper.update] ends and builds [Y / S + 1]
    horizontal and [X / S + 1] vertical lines (integer division), each line
    being two vertices of three coordinates. *)
Theorem update_line_count (X Y S : Z) (fuel : nat) :
  0 ≤ X → 0 ≤ Y → 1 ≤ S →
  (Z.to_nat (X / S) < fuel)%nat → (Z.to_nat (Y / S) < fuel)%nat →
  ∃ h v, GridHelper.update fuel (inject_Z X) (inject_Z Y) (inject_Z S) = Some (h, v) ∧
         length h = (6 * Z.to_nat (Y / S + 1))%nat ∧
         length v = (6 * Z.to_nat (X / S + 1))%nat.
Proof.
  intros HX HY HS HfX HfY.
  pose proof (Z.div_pos X S HX ltac:(lia)). pose proof (Z.div_pos Y S HY ltac:(lia)).
  destruct (div_count X S HX HS) as [Hx1 Hx2]. destruct (div_count Y S HY HS) as [Hy1 Hy2].
  apply update_count; [|lia|lia|done..].
  change 0%Q with (inject_Z 0). rewrite <- Zlt_Qlt. lia.
Qed.

Lemma update_line_count_witness :
  ∃ h v, GridHelper.update 5 (inject_Z 4) (inject_Z 3) (inject_Z 2) = Some (h, v) ∧
         length h = (6 * Z.to_nat (3 / 2 + 1))%nat ∧
         length v = (6 * Z.to_nat (4 / 2 + 1))%nat.
Proof.
  apply (update_line_count 4 3 2 5); [lia|lia|lia|vm_compute; lia|vm_compute; lia].
Defined.

(** X24. With a spacing that is zero or negative, the loops of
    [GridHelper.update] never reach their exit when a size is not negative:
    no amount of fuel lets the method return.  When both sizes are
    negative it returns at once, with two empty vertex arrays. *)
Theorem update_needs_positive_spacing (X Y S : Q) (fuel : nat) :
  (S <= 0)%Q →
  ((0 <= X)%Q ∨ (0 <= Y)%Q → GridHelper.update fuel X Y S = None) ∧
  ((X < 0)%Q → (Y < 0)%Q → GridHelper.update fuel X Y S = Some ([], [])).
Proof.
  intros HS. unfold GridHelper.update. split.
  - intros Hsize. destruct (Qlt_le_dec Y 0) as [HY|HY].
    + rewrite (lines_none _ S (- Y / 2)%Q (Y / 2)%Q fuel) by half_lra. simpl.
      destruct Hsize as [HX|HY']; [|lra].
      rewrite (lines_diverge _ S (X / 2)%Q HS fuel (- X / 2)%Q); [done|half_lra].
    + rewrite (lines_diverge _ S (Y / 2)%Q HS fuel (- Y / 2)%Q); [done|half_lra].
  - intros HX HY.
    rewrite (lines_none _ S (- Y / 2)%Q (Y / 2)%Q fuel) by half_lra. simpl.
    by rewrite (lines_none _ S (- X / 2)%Q (X / 2)%Q fuel) by half_lra.
Qed.

Lemma update_needs_positive_spacing_witness :
  (((0 <= 4)%Q ∨ (0 <= 3)%Q → GridHelper.update 1000 4 3 0 = None) ∧
   ((4 < 0)%Q → (3 < 0)%Q → GridHelper.update 1000 4 3 0 = Some ([], []))) ∧
  GridHelper.update 1000 4 3 0 = None.
Proof.
  pose proof (update_needs_positive_spacing 4 3 0 1000 ltac:(by vm_compute)) as H.
  split; [exact H|]. apply H. left. by vm_compute.
Defined.

(** X25. The debug grid of [ThreeSpatialHashGrid] has one line per world
    unit: for bounds with whole-numbered corners [(lx, ly)] and
    [(hx, hy)], [lx <= hx] and [ly <= hy], [debug] ends and builds
    [hy - ly + 1] horizontal and [hx - lx + 1] vertical lines, whatever the
    number of cells of the grid. *)
Theorem debug_line_count (lx ly hx hy : Z) (fuel : nat) :
  lx ≤ hx → ly ≤ hy →
  (Z.to_nat (hx - lx) < fuel)%nat → (Z.to_nat (hy - ly) < fuel)%nat →
  ∃ h v,
    ThreeSpatialHashGrid.debug fuel
      ((inject_Z lx, inject_Z ly), (inject_Z hx, inject_Z hy)) = Some (h, v) ∧
    length h = (6 * Z.to_nat (hy - ly + 1))%nat ∧
    length v = (6 * Z.to_nat (hx - lx + 1))%nat.
Proof.
  intros Hx Hy Hfx Hfy. unfold ThreeSpatialHashGrid.debug. simpl.
  assert (∀ a b : Z, a ≤ b →
            (inject_Z b - inject_Z a < inject_Z (Z.of_nat (Z.to_nat (b - a + 1))) * 1)%Q ∧
            ∀ j, (j < Z.to_nat (b - a + 1))%nat →
                 (inject_Z (Z.of_nat j) * 1 <= inject_Z b - inject_Z a)%Q) as Hcount.
  { intros a b Hab.
    assert (inject_Z b - inject_Z a == inject_Z (b - a))%Q as Hba.
    { unfold Z.sub. rewrite inject_Z_plus, inject_Z_opp. ring. }
    split.
    - rewrite Hba, Qmult_1_r, Z2Nat.id by lia. rewrite <- Zlt_Qlt. lia.
    - intros j Hj. rewrite Hba, Qmult_1_r, <- Zle_Qle. lia. }
  destruct (Hcount lx hx Hx) as [Hx1 Hx2]. destruct (Hcount ly hy Hy) as [Hy1 Hy2].
  apply update_count; [by vm_compute|lia|lia|done..].
Qed.

Lemma debug_line_count_witness :
  ∃ h v,
    ThreeSpatialHashGrid.debug 20
      ((inject_Z 0, inject_Z 0), (inject_Z 16, inject_Z 16)) = Some (h, v) ∧
    length h = (6 * Z.to_nat (16 - 0 + 1))%nat ∧
    length v = (6 * Z.to_nat (16 - 0 + 1))%nat.
Proof.
  apply (debug_line_count 0 0 16 16 20); [lia|lia|vm_compute; lia|vm_compute; lia].
Defined.

(** ** [remove] on the lists, and a grid without columns *)

(** X26. [remove] unlinks exactly one node, the client's own, from the list
    of every cell of the client's span and keeps the other nodes of that
    list in their order; the lists of all other cells are as before. *)
Theorem remove_unlinks_one_node s c cl i1 i2 :
  wf s → clients s !! c = Some cl →
  Cells.min (Client.cells cl) = Some i1 → Cells.max (Client.cells cl) = Some i2 →
  ∃ s', SpatialHashGrid.remove c s = Return tt s' ∧
        ∀ x y l, bucket s x y l →
          (in_rect i1 i2 x y →
           ∃ r n l1 l2, l = l1 ++ r :: l2 ∧ heads s !! r = Some n ∧ Head.client n = c ∧
                        bucket s' x y (l1 ++ l2)) ∧
          (¬ in_rect i1 i2 x y → bucket s' x y l).
Proof.
  intros Hwf Hc Hmin Hmax.
  destruct (inserted_client s c cl i1 i2 Hwf Hc Hmin Hmax) as (ns & Hcells & _ & _ & Hplaced).
  destruct (remove_spec s c cl i1 i2 ns Hwf Hc Hcells) as (t & Hrem & Hrun).
  eexists. split; [exact Hrun|]. intros x y l Hl.
  destruct Hrem as (_ & _ & _ & _ & _ & _ & Hb). destruct (Hb x y l Hl) as [Hin Hout].
  split; [|exact Hout]. intros Hrect.
  destruct (Hin Hrect) as (r & l1 & l2 & Hat & Heq & Hbt).
  destruct (Hplaced x y Hrect) as (r' & l' & n & Hat' & _ & _ & Hn & Hown).
  rewrite Hat in Hat'. injection Hat' as <-. by exists r, n, l1, l2.
Qed.

Lemma remove_unlinks_one_node_witness :
  ∃ cl, (wf grid16_AB ∧ clients grid16_AB !! 0%nat = Some cl ∧
         Cells.min (Client.cells cl) = Some (7, 7) ∧
         Cells.max (Client.cells cl) = Some (7, 7)) ∧
        ∃ s', SpatialHashGrid.remove 0%nat grid16_AB = Return tt s' ∧
              ∀ x y l, bucket grid16_AB x y l →
                (in_rect (7, 7) (7, 7) x y →
                 ∃ r n l1 l2, l = l1 ++ r :: l2 ∧ heads grid16_AB !! r = Some n ∧
                              Head.client n = 0%nat ∧ bucket s' x y (l1 ++ l2)) ∧
                (¬ in_rect (7, 7) (7, 7) x y → bucket s' x y l).
Proof.
  eexists.
  assert (clients grid16_AB !! 0%nat
          = Some (Client.mk (8, 8)%Q (1, 1)%Q
                    (Cells.mk (Some (7, 7)) (Some (7, 7)) (Some [[0%nat]]))
                    (-1) None)) as Hc by (vm_compute; reflexivity).
  split; [split_and!; [exact grid16_AB_wf|exact Hc|reflexivity|reflexivity]|].
  exact (remove_unlinks_one_node grid16_AB 0%nat _ (7, 7) (7, 7) grid16_AB_wf Hc
           eq_refl eq_refl).
Defined.

Lemma bind_Throw {S A B} (m : M S A) (k : A → M S B) s e s' :
  m s = Throw e s' → bind m k s = Throw e s'.
Proof. unfold bind. by intros ->. Qed.

Lemma range_cons lo hi : lo ≤ hi → range lo hi = lo :: range (lo + 1) hi.
Proof.
  intros H. unfold range. rewrite seqZ_cons by lia. f_equal. f_equal; lia.
Qed.

(** X27. The constructor accepts a grid without columns ([dimensions[0]] is
    0), and [newClient] then fails half-way: whenever the span it computes
    is not empty, it throws a [TypeError] on the first cell, after the
    client record and the first node have been created. *)
Theorem no_columns_newClient_throws s position dimensions metadata :
  Grid.cells (grid s) = [] →
  fst (SpatialHashGrid.getCellIndex (grid s) (SpatialHashGrid.lowCorner position dimensions))
  ≤ fst (SpatialHashGrid.getCellIndex (grid s)
           (SpatialHashGrid.highCorner position dimensions)) →
  snd (SpatialHashGrid.getCellIndex (grid s) (SpatialHashGrid.lowCorner position dimensions))
  ≤ snd (SpatialHashGrid.getCellIndex (grid s)
           (SpatialHashGrid.highCorner position dimensions)) →
  ∃ s', SpatialHashGrid.newClient position dimensions metadata s = Throw TypeError s' ∧
        grid s' = grid s ∧
        clients s' = <[fresh (dom (clients s))
                       := Client.mk position dimensions (Cells.mk None None None) (-1)
                                    metadata]> (clients s) ∧
        heads s' = <[fresh (dom (heads s))
                     := Head.mk None None (fresh (dom (clients s)))]> (heads s).
Proof.
  intros Hcells Hx Hy. unfold SpatialHashGrid.newClient.
  erewrite bind_Return by reflexivity.
  set (c := fresh (dom (clients s))).
  set (cl := Client.mk position dimensions (Cells.mk None None None) (-1) metadata).
  set (s1 := set_clients (<[c := cl]> (clients s)) s).
  set (i1 := SpatialHashGrid.getCellIndex (grid s)
               (SpatialHashGrid.lowCorner position dimensions)) in *.
  set (i2 := SpatialHashGrid.getCellIndex (grid s)
               (SpatialHashGrid.highCorner position dimensions)) in *.
  set (r := fresh (dom (heads s))).
  set (s2 := set_heads (<[r := Head.mk None None c]> (heads s1)) s1).
  assert (SpatialHashGrid.insert_cell c i1 (fst i1) (snd i1) [[]] s1 = Throw TypeError s2)
    as Hcell.
  { unfold SpatialHashGrid.insert_cell.
    erewrite bind_Return by reflexivity.
    erewrite bind_Return.
    2:{ unfold SpatialHashGrid.push_at. erewrite bind_Return; [reflexivity|].
        rewrite Z.sub_diag. reflexivity. }
    apply bind_Throw. unfold read_cell. apply bind_Throw.
    unfold getsome. simpl. rewrite Hcells. unfold zlookup. by case_decide. }
  exists s2. split; [|done].
  apply bind_Throw. unfold SpatialHashGrid.insert.
  erewrite bind_Return by (apply read_client_run; apply lookup_insert_eq).
  erewrite bind_Return by reflexivity.
  apply bind_Throw.
  change (grid s1) with (grid s). simpl Client.position. simpl Client.dimensions.
  fold i1 i2.
  rewrite (range_cons (fst i1) (fst i2) Hx), (range_cons (snd i1) (snd i2) Hy).
  simpl for_each. apply bind_Throw, bind_Throw. exact Hcell.
Qed.

Lemma no_columns_newClient_throws_witness :
  ∃ s0, SpatialHashGrid.new ((0, 0), (16, 16))%Q (0, 16) empty_store = Return tt s0 ∧
  ∃ s', SpatialHashGrid.newClient (8, 8)%Q (0, 0)%Q None s0 = Throw TypeError s' ∧
        grid s' = grid s0 ∧
        clients s' = <[fresh (dom (clients s0))
                       := Client.mk (8, 8)%Q (0, 0)%Q (Cells.mk None None None) (-1) None]>
                       (clients s0) ∧
        heads s' = <[fresh (dom (heads s0))
                     := Head.mk None None (fresh (dom (clients s0)))]> (heads s0).
Proof.
  eexists. split; [vm_compute; reflexivity|].
  apply (no_columns_newClient_throws _ (8, 8)%Q (0, 0)%Q None);
    [reflexivity|vm_compute; discriminate|vm_compute; discriminate].
Defined.
